(** * TMC5072 stepper-motor driver (package [tmc5072]): a shallow embedding

    The definitions follow [tmc5072/stepper_motor_tmc.go].  Machine
    integers are [Z] with their wrap-around written out; [float64] is the
    IEEE-754 binary64 specification of the standard library ([spec_float]
    at precision 53 and maximal exponent 1024), which computes; register
    traffic is a state monad over the environment and the frames handed to
    the SPI bus; a Go [error] is an optional value of an error type.

    The file has the model of the driver, the vocabulary of its
    properties, facts on binary64 rounding, the properties of the unit
    converter, the ramp parameters, the register protocol, the motion
    controller and homing, and last the configuration of the unit tests
    with instances and counterexamples. *)

From Stdlib Require Import ZArith List Bool String Lia SpecFloat Zpower.
Import ListNotations.
Local Open Scope Z_scope.

(** ** Machine integers *)

Module MachineInt.

(** [uint8(z)]: the low eight bits. *)
Definition uint8 (z : Z) : Z := z mod 256.

(** [uint32(z)]: the low 32 bits. *)
Definition uint32 (z : Z) : Z := z mod 2 ^ 32.

(** [int32(z)]: the low 32 bits read in two's complement. *)
Definition int32 (z : Z) : Z := (z + 2 ^ 31) mod 2 ^ 32 - 2 ^ 31.

Definition is_int32 (z : Z) : Prop := - 2 ^ 31 <= z <= 2 ^ 31 - 1.

Definition in_int32 (z : Z) : bool := (- 2 ^ 31 <=? z) && (z <=? 2 ^ 31 - 1).

(** [byte(v)] for an [int32] [v]. *)
Definition byte_of (z : Z) : Z := z mod 256.

End MachineInt.
Export MachineInt.

(** ** float64 *)

Module Float64.

Definition prec : Z := 53.
Definition emax : Z := 1024.

Definition float64 : Type := spec_float.

Definition mul : float64 -> float64 -> float64 := SFmul prec emax.
Definition div : float64 -> float64 -> float64 := SFdiv prec emax.
Definition add : float64 -> float64 -> float64 := SFadd prec emax.
Definition sub : float64 -> float64 -> float64 := SFsub prec emax.

(** [x < y], [x > y], [x <= y], [x == y], [x != y] on floats. *)
Definition ltb (x y : float64) : bool := SFltb x y.
Definition gtb (x y : float64) : bool := SFltb y x.
Definition leb (x y : float64) : bool := SFleb x y.
Definition eqb (x y : float64) : bool := SFeqb x y.
Definition neqb (x y : float64) : bool := negb (SFeqb x y).

(** [float64(n)] for an integer [n]: the nearest float, ties to even. *)
Definition of_Z (n : Z) : float64 := binary_normalize prec emax n 0 false.

(** A decimal literal [n / d] with [n] and [d] exact floats, such as
    [3.1 = 31/10]: the correctly rounded quotient is the literal's value. *)
Definition lit (n d : Z) : float64 := div (of_Z n) (of_Z d).

Definition zero : float64 := S754_zero false.

(** [math.Abs] and [math.Signbit]. *)
Definition Abs (x : float64) : float64 := SFabs x.

Definition Signbit (x : float64) : bool :=
  match x with
  | S754_zero s | S754_infinity s | S754_finite s _ _ => s
  | S754_nan => false
  end.

(** The integer part of a finite float (the fraction is discarded);
    nothing for an infinity or a NaN. *)
Definition trunc (x : float64) : option Z :=
  match x with
  | S754_zero _ => Some 0
  | S754_finite s m e =>
      let a := match e with
               | Zneg k => Z.shiftr (Zpos m) (Zpos k)
               | _ => Z.shiftl (Zpos m) e
               end in
      Some (if s then - a else a)
  | _ => None
  end.

(** [math.Round]: nearest integer, halves away from zero (used only to
    state what a specification sentence says). *)
Definition Round (x : float64) : option Z :=
  match x with
  | S754_zero _ => Some 0
  | S754_finite s m e =>
      let a := match e with
               | Zneg k => Z.shiftr (Zpos m + Z.shiftl 1 (Zpos k - 1)) (Zpos k)
               | _ => Z.shiftl (Zpos m) e
               end in
      Some (if s then - a else a)
  | _ => None
  end.

(** [math.Pow(2, 24)] and [math.Pow(2, 41)]: exact powers of two. *)
Definition pow2_24 : float64 := of_Z (2 ^ 24).
Definition pow2_41 : float64 := of_Z (2 ^ 41).

(** [math.Pow(x, 2)]: Go squares the fraction of [x] once and rescales by
    a power of two, which is the correctly rounded product [x * x]. *)
Definition Pow2 (x : float64) : float64 := mul x x.

End Float64.
Export Float64.

(** ** Errors

    A Go [error] is [option error]: [None] is [nil]. *)

#[local] Set Warnings "-register-all".

Inductive error : Type :=
| ErrRange (name : string) (min max val : Z)
    (** ["%s must be between %d and %d, got %d"] *)
| ErrZeroRPM
    (** [motor.NewZeroRPMError()] *)
| ErrRampParamsNotMap
    (** ["ramp_parameters must be a map[string]interface{}"] *)
| ErrCtxUpToSpeed
    (** ["context cancelled: duration timeout trying to get up to speed while homing"] *)
| ErrOver500
    (** ["over 500 failures trying to get up to speed while homing"] *)
| ErrCtxEndstop
    (** ["context cancelled: duration timeout trying to stop at the endstop while homing"] *)
| ErrOver1000
    (** ["over 1000 failures trying to stop at endstop while homing"] *)
| ErrMoving (name : string)
    (** ["can't zero motor (%s) while moving"] *)
| ErrExternal (code : Z)
    (** an error value made by a collaborator: the bus, the context *)
| ErrWrap (msg : string) (cause : error)
    (** [errors.Wrapf(cause, msg)] *)
| ErrMulti (errs : list error).
    (** the combined error of [multierr] *)

(** [errors.Wrapf]: [nil] stays [nil]. *)
Definition Wrapf (e : option error) (msg : string) : option error :=
  match e with
  | None => None
  | Some c => Some (ErrWrap msg c)
  end.

(** [multierr.Combine]: [nil] arguments are skipped, a single error is
    returned as it is, several are flattened into one combined error. *)
Definition flatten (e : error) : list error :=
  match e with
  | ErrMulti es => es
  | _ => [e]
  end.

Definition Combine (errs : list (option error)) : option error :=
  match flat_map (fun o => match o with None => [] | Some e => flatten e end) errs with
  | [] => None
  | [e] => Some e
  | es => Some (ErrMulti es)
  end.

(** ** Ramp parameters

    A [*uint32] field is never written through once it is set, so it is the
    optional [uint32] it points to: [None] is the [nil] pointer. *)

Record rampParameters : Type := mkRamp {
  VStart : option Z;
  VStop : option Z;
  V1 : option Z;
  A1 : option Z;
  D1 : option Z;
  VMax : option Z;
  AMax : option Z;
  DMax : option Z
}.

Definition emptyRamp : rampParameters :=
  mkRamp None None None None None None None None.

Definition set_VStart (r : rampParameters) (v : option Z) : rampParameters :=
  mkRamp v (VStop r) (V1 r) (A1 r) (D1 r) (VMax r) (AMax r) (DMax r).
Definition set_VStop (r : rampParameters) (v : option Z) : rampParameters :=
  mkRamp (VStart r) v (V1 r) (A1 r) (D1 r) (VMax r) (AMax r) (DMax r).
Definition set_V1 (r : rampParameters) (v : option Z) : rampParameters :=
  mkRamp (VStart r) (VStop r) v (A1 r) (D1 r) (VMax r) (AMax r) (DMax r).
Definition set_A1 (r : rampParameters) (v : option Z) : rampParameters :=
  mkRamp (VStart r) (VStop r) (V1 r) v (D1 r) (VMax r) (AMax r) (DMax r).
Definition set_D1 (r : rampParameters) (v : option Z) : rampParameters :=
  mkRamp (VStart r) (VStop r) (V1 r) (A1 r) v (VMax r) (AMax r) (DMax r).
Definition set_VMax (r : rampParameters) (v : option Z) : rampParameters :=
  mkRamp (VStart r) (VStop r) (V1 r) (A1 r) (D1 r) v (AMax r) (DMax r).
Definition set_AMax (r : rampParameters) (v : option Z) : rampParameters :=
  mkRamp (VStart r) (VStop r) (V1 r) (A1 r) (D1 r) (VMax r) v (DMax r).
Definition set_DMax (r : rampParameters) (v : option Z) : rampParameters :=
  mkRamp (VStart r) (VStop r) (V1 r) (A1 r) (D1 r) (VMax r) (AMax r) v.

(** *** validate *)

Definition checkRange (name : string) (val : option Z) (min max : Z) : option error :=
  match val with
  | Some v => if (v >? max) || (v <? min) then Some (ErrRange name min max v) else None
  | None => None
  end.

(** The receiver is a pointer: [None] is the [nil] receiver. *)
Definition validate (rp : option rampParameters) : option error :=
  match rp with
  | None => None
  | Some rp =>
    match checkRange "v_start" (VStart rp) 0 (2 ^ 18 - 1) with Some err => Some err | None =>
    match checkRange "v_stop" (VStop rp) 1 (2 ^ 18 - 1) with Some err => Some err | None =>
    match checkRange "v1" (V1 rp) 0 (2 ^ 20 - 1) with Some err => Some err | None =>
    match checkRange "a1" (A1 rp) 0 (2 ^ 16 - 1) with Some err => Some err | None =>
    match checkRange "d1" (D1 rp) 1 (2 ^ 16 - 1) with Some err => Some err | None =>
    match checkRange "v_max" (VMax rp) 0 (2 ^ 23 - 512) with Some err => Some err | None =>
    match checkRange "a_max" (AMax rp) 0 (2 ^ 16 - 1) with Some err => Some err | None =>
    match checkRange "d_max" (DMax rp) 0 (2 ^ 16 - 1) with Some err => Some err | None =>
    None
    end end end end end end end end
  end.

(** *** mergeRampParameters

    The body runs on the function's own frame: the two parameters, which Go
    copies in, and the local [result]. *)

Record mergeFrame : Type := mkFrame {
  base : rampParameters;
  override : rampParameters;
  result : rampParameters
}.

Definition set_result (f : mergeFrame) (r : rampParameters) : mergeFrame :=
  mkFrame (base f) (override f) r.

Definition mergeBody (f : mergeFrame) : mergeFrame :=
  let f := set_result f (base f) in
  let f := match VStart (override f) with
           | Some _ => set_result f (set_VStart (result f) (VStart (override f)))
           | None => f end in
  let f := match VStop (override f) with
           | Some _ => set_result f (set_VStop (result f) (VStop (override f)))
           | None => f end in
  let f := match V1 (override f) with
           | Some _ => set_result f (set_V1 (result f) (V1 (override f)))
           | None => f end in
  let f := match A1 (override f) with
           | Some _ => set_result f (set_A1 (result f) (A1 (override f)))
           | None => f end in
  let f := match D1 (override f) with
           | Some _ => set_result f (set_D1 (result f) (D1 (override f)))
           | None => f end in
  let f := match VMax (override f) with
           | Some _ => set_result f (set_VMax (result f) (VMax (override f)))
           | None => f end in
  let f := match AMax (override f) with
           | Some _ => set_result f (set_AMax (result f) (AMax (override f)))
           | None => f end in
  let f := match DMax (override f) with
           | Some _ => set_result f (set_DMax (result f) (DMax (override f)))
           | None => f end in
  f.

Definition mergeRampParameters (base override : rampParameters) : rampParameters :=
  result (mergeBody (mkFrame base override emptyRamp)).

(** ** Register map and ramp modes (motor index 1) *)

Definition chopConf : Z := 0x6C.
Definition coolConf : Z := 0x6D.
Definition drvStatus : Z := 0x6F.
Definition rampMode : Z := 0x20.
Definition xActual : Z := 0x21.
Definition vActual : Z := 0x22.
Definition vStart : Z := 0x23.
Definition a1 : Z := 0x24.
Definition v1 : Z := 0x25.
Definition aMax : Z := 0x26.
Definition vMax : Z := 0x27.
Definition dMax : Z := 0x28.
Definition d1 : Z := 0x2A.
Definition vStop : Z := 0x2B.
Definition xTarget : Z := 0x2D.
Definition iHoldIRun : Z := 0x30.
Definition vCoolThres : Z := 0x31.
Definition swMode : Z := 0x34.
Definition rampStat : Z := 0x35.

Definition modePosition : Z := 0.
Definition modeVelPos : Z := 1.
Definition modeVelNeg : Z := 2.
Definition modeHold : Z := 3.

(** ** The motor *)

Record Motor : Type := mkMotor {
  index : Z;
  stepsPerRev : Z;
  homeRPM : float64;
  maxRPM : float64;
  maxAcc : float64;
  fClk : float64;
  powerPct : float64;
  motorName : string;
  rampParams : rampParameters
}.

(** [shiftAddr]: the register address of motor 2 instead of motor 1. *)
Definition shiftAddr (m : Motor) (addr : Z) : Z :=
  if index m =? 2 then
    if (addr >=? 0x10) && (addr <=? 0x11) then uint8 (addr + 0x08)
    else if (addr >=? 0x20) && (addr <=? 0x3C) then uint8 (addr + 0x20)
    else if (addr >=? 0x6A) && (addr <=? 0x6F) then uint8 (addr + 0x10)
    else addr
  else addr.

(** ** Values of a loosely typed [map[string]interface{}] *)

Inductive value : Type :=
| VUint32 (n : Z)
| VInt (n : Z)
| VInt64 (n : Z)
| VFloat64 (x : float64)
| VMap (kv : list (string * value))
| VOther.

Fixpoint lookup (k : string) (kv : list (string * value)) : option value :=
  match kv with
  | [] => None
  | (k', v) :: rest => if String.eqb k k' then Some v else lookup k rest
  end.

(** ** Outcomes and the bus monad *)

Inductive outcome (A : Type) : Type :=
| Ret (a : A)      (** the call returned [a] *)
| Panic            (** a run-time panic: index out of range, nil dereference *)
| Polling.         (** the fuel of the model ran out while the call still polls *)
Arguments Ret {A} a.
Arguments Panic {A}.
Arguments Polling {A}.

(** The state is the environment (whatever is outside the driver: the chip
    behind the SPI bus, the caller's context, the clock) and the frames
    handed to [Xfer] so far, oldest first. *)

Section BusMonad.

Variable env : Type.

Record world : Type := mkWorld {
  w_env : env;
  w_bus : list (list Z)
}.

Definition M (A : Type) : Type := world -> outcome A * world.

Definition ret {A} (a : A) : M A := fun w => (Ret a, w).

Definition bind {A B} (c : M A) (k : A -> M B) : M B :=
  fun w =>
    match c w with
    | (Ret a, w') => k a w'
    | (Panic, w') => (Panic, w')
    | (Polling, w') => (Polling, w')
    end.

Definition panic {A} : M A := fun w => (Panic, w).
Definition polling {A} : M A := fun w => (Polling, w).

(** A deferred call: it runs when the body is over, also after a panic,
    and the outcome of the body stands. *)
Definition defer {A} (body : M A) (deferred : M unit) : M A :=
  fun w =>
    let '(r, w1) := body w in
    match deferred w1 with
    | (Ret _, w2) => (r, w2)
    | (Panic, w2) => (Panic, w2)
    | (Polling, w2) => (Polling, w2)
    end.

End BusMonad.

Arguments mkWorld {env} _ _.
Arguments w_env {env} _.
Arguments w_bus {env} _.
Arguments ret {env A} _ _.
Arguments bind {env A B} _ _ _.
Arguments panic {env A} _.
Arguments polling {env A} _.
Arguments defer {env A} _ _ _.

Declare Scope bus_scope.
Delimit Scope bus_scope with bus.
Notation "x <- c ;; k" := (bind c (fun x => k))
  (at level 100, c at next level, right associativity) : bus_scope.

Section Driver.

(** Converting a float that the integer type cannot represent succeeds
    in Go with a value the implementation chooses. *)
Variable unrep_int32 : float64 -> Z.
Variable unrep_uint32 : float64 -> Z.

(** [motor.CheckSpeed] of the RDK: a warning text and an error. *)
Variable CheckSpeed : float64 -> float64 -> string * option error.

(** The environment (the chip behind the SPI bus, the context of the
    caller, the clock) and the collaborators that act on it:
    [bus.OpenHandle], [handle.Xfer] (a reply or an error) and
    [handle.Close]. *)
Variable env : Type.
Variable OpenHandle : env -> option error * env.
Variable Xfer : list Z -> env -> (list Z + error) * env.
Variable Close : env -> option error * env.
(** [utils.SelectContextOrWait(ctx, 10ms)]: [false] when the context is
    done before the wait is over. *)
Variable SelectContextOrWait : env -> bool * env.
(** [ctx.Err()] *)
Variable ctxErr : env -> error.

Local Abbreviation M := (M env).
Local Open Scope bus_scope.

(** *** Conversions *)

(** [int32(x)] for a float [x]. *)
Definition int32_of_float64 (x : float64) : Z :=
  match trunc x with
  | Some z => if in_int32 z then z else int32 (unrep_int32 x)
  | None => int32 (unrep_int32 x)
  end.

(** [uint32(x)] for a float [x]. *)
Definition uint32_of_float64 (x : float64) : Z :=
  match trunc x with
  | Some z => if (0 <=? z) && (z <? 2 ^ 32) then z else uint32 (unrep_uint32 x)
  | None => uint32 (unrep_uint32 x)
  end.

(** rpmsToA converts rpm/s to TMC5072 steps/taConst^2. *)
Definition rpmsToA (acc fClk : float64) (stepsPerRev : Z) : Z :=
  let taConst := div pow2_41 (Pow2 fClk) in
  let rawMaxAcc := mul (mul (div acc (of_Z 60)) (of_Z stepsPerRev)) taConst in
  int32_of_float64 rawMaxAcc.

(** rpmToV converts rpm to TMC5072 steps/s. *)
Definition rpmToV (rpm maxRPM fClk : float64) (stepsPerRev : Z) : Z :=
  let rpm := if gtb rpm maxRPM then maxRPM else rpm in
  let tConst := div fClk pow2_24 in
  let speed := div (mul (div rpm (of_Z 60)) (of_Z stepsPerRev)) tConst in
  int32_of_float64 speed.

(** The methods [m.rpmToV] and [m.rpmsToA]. *)
Definition Motor_rpmToV (m : Motor) (rpm : float64) : Z :=
  let rpm := if gtb rpm (maxRPM m) then maxRPM m else rpm in
  let tConst := div (fClk m) pow2_24 in
  let speed := div (mul (div rpm (of_Z 60)) (of_Z (stepsPerRev m))) tConst in
  int32_of_float64 speed.

Definition Motor_rpmsToA (m : Motor) (acc : float64) : Z :=
  rpmsToA acc (fClk m) (stepsPerRev m).

(** initRampParameters initializes a rampParameters struct with default
    values. *)
Definition initRampParameters (maxRPM maxAcc fClk : float64) (stepsPerRev : Z)
  : rampParameters :=
  let rawMaxAcc := uint32 (rpmsToA maxAcc fClk stepsPerRev) in
  let vStart := uint32 1 in
  let vStop := uint32 10 in
  let v1 := uint32 (rpmToV (div maxRPM (of_Z 4)) maxRPM fClk stepsPerRev) in
  let vMax := uint32 (rpmToV (of_Z 0) maxRPM fClk stepsPerRev) in
  {| VStart := Some vStart;
     VStop := Some vStop;
     V1 := Some v1;
     A1 := Some rawMaxAcc;
     D1 := Some rawMaxAcc;
     VMax := Some vMax;
     AMax := Some rawMaxAcc;
     DMax := Some rawMaxAcc |}.

(** parseRampParametersFromExtra: [extra] is [None] for a nil map. *)
Definition toUint32 (v : option value) : Z * bool :=
  match v with
  | Some (VUint32 n) => (n, true)
  | Some (VInt n) => (uint32 n, true)
  | Some (VInt64 n) => (uint32 n, true)
  | Some (VFloat64 x) => (uint32_of_float64 x, true)
  | _ => (0, false)
  end.

Definition field (kv : list (string * value)) (k : string) : option Z :=
  let '(val, ok) := toUint32 (lookup k kv) in
  if ok then Some val else None.

Definition parseRampParametersFromExtra (extra : option (list (string * value)))
  : option rampParameters * option error :=
  match match extra with Some kv => lookup "ramp_parameters" kv | None => None end with
  | None => (None, None)
  | Some (VMap rampParamsMap) =>
      (Some {| VStart := field rampParamsMap "v_start";
               VStop := field rampParamsMap "v_stop";
               V1 := field rampParamsMap "v1";
               A1 := field rampParamsMap "a1";
               D1 := field rampParamsMap "d1";
               VMax := field rampParamsMap "v_max";
               AMax := field rampParamsMap "a_max";
               DMax := field rampParamsMap "d_max" |}, None)
  | Some _ => (None, Some ErrRampParamsNotMap)
  end.

Definition openHandle : M (option error) :=
  fun w => let '(e, v) := OpenHandle (w_env w) in (Ret e, mkWorld v (w_bus w)).

Definition xfer (tx : list Z) : M (list Z + error) :=
  fun w => let '(r, v) := Xfer tx (w_env w) in (Ret r, mkWorld v (w_bus w ++ [tx])).

Definition closeHandle : M unit :=
  fun w => let '(_, v) := Close (w_env w) in (Ret tt, mkWorld v (w_bus w)).

Definition selectContextOrWait : M bool :=
  fun w => let '(b, v) := SelectContextOrWait (w_env w) in (Ret b, mkWorld v (w_bus w)).

Definition contextErr : M (option error) :=
  fun w => (Ret (Some (ctxErr (w_env w))), w).


(** *** Register protocol layer *)

Definition writeReg (m : Motor) (addr : Z) (value : Z) : M (option error) :=
  let addr := shiftAddr m addr in
  let buf := [ Z.lor addr 0x80;
               Z.land 0xFF (byte_of (Z.shiftr value 24));
               Z.land 0xFF (byte_of (Z.shiftr value 16));
               Z.land 0xFF (byte_of (Z.shiftr value 8));
               Z.land 0xFF (byte_of value) ] in
  err <- openHandle ;;
  match err with
  | Some err => ret (Some err)
  | None =>
      defer
        (r <- xfer buf ;;
         match r with
         | inr err => ret (Some err)
         | inl _ => ret None
         end)
        closeHandle
  end.

(** [value = int32(rbuf[1]); value <<= 8; value |= int32(rbuf[2]); ...] *)
Definition decode (b1 b2 b3 b4 : Z) : Z :=
  let value := int32 b1 in
  let value := int32 (Z.shiftl value 8) in
  let value := Z.lor value (int32 b2) in
  let value := int32 (Z.shiftl value 8) in
  let value := Z.lor value (int32 b3) in
  let value := int32 (Z.shiftl value 8) in
  let value := Z.lor value (int32 b4) in
  value.

Definition readReg (m : Motor) (addr : Z) : M (Z * option error) :=
  let addr := shiftAddr m addr in
  let tbuf := [addr; 0; 0; 0; 0] in
  err <- openHandle ;;
  match err with
  | Some err => ret (0, Some err)
  | None =>
      defer
        (r <- xfer tbuf ;;
         match r with
         | inr err => ret (0, Some err)
         | inl _ =>
             r <- xfer tbuf ;;
             match r with
             | inr err => ret (0, Some err)
             | inl rbuf =>
                 match rbuf with
                 | _ :: b1 :: b2 :: b3 :: b4 :: _ => ret (decode b1 b2 b3 b4, None)
                 | _ => panic
                 end
             end
         end)
        closeHandle
  end.

(** Position gives the current motor position. *)
Definition Position (m : Motor) : M (float64 * option error) :=
  r <- readReg m xActual ;;
  let '(rawPos, err) := r in
  match err with
  | Some _ => ret (zero, Wrapf err "error in Position from motor")
  | None => ret (div (of_Z rawPos) (of_Z (stepsPerRev m)), None)
  end.

(** applyRampParameters writes ramp parameters to the motor registers.
    Each argument of [multierr.Combine] is evaluated in turn; a [nil]
    field panics when it is dereferenced. *)
Definition writeField (m : Motor) (addr : Z) (p : option Z) : M (option error) :=
  match p with
  | None => panic
  | Some v => writeReg m addr (int32 v)
  end.

Definition applyRampParameters (m : Motor) (params : rampParameters) : M (option error) :=
  e1 <- writeField m a1 (A1 params) ;;
  e2 <- writeField m aMax (AMax params) ;;
  e3 <- writeField m d1 (D1 params) ;;
  e4 <- writeField m dMax (DMax params) ;;
  e5 <- writeField m vStart (VStart params) ;;
  e6 <- writeField m vStop (VStop params) ;;
  e7 <- writeField m v1 (V1 params) ;;
  ret (Combine [e1; e2; e3; e4; e5; e6; e7]).

(** *** Motion controller

    The single-operation manager ([opMgr.CancelRunning], [opMgr.New],
    [done]) and the logger act on other goroutines and on the log only;
    they leave the bus alone and have no counterpart here.  The context a
    call polls is part of the environment. *)

Definition doJog (m : Motor) (rpm : float64) : M (option error) :=
  let mode := if ltb rpm zero then modeVelNeg else modeVelPos in
  let '(warning, err) := CheckSpeed rpm (maxRPM m) in
  let speed := Motor_rpmToV m (Abs rpm) in
  e1 <- writeReg m rampMode mode ;;
  e2 <- writeReg m vMax speed ;;
  ret (Combine [e1; e2]).

(** Jog sets a fixed RPM. *)
Definition Jog (m : Motor) (rpm : float64) : M (option error) :=
  doJog m rpm.

(** Stop stops the motor. *)
Definition Stop (m : Motor) : M (option error) :=
  doJog m zero.

(** IsStopped returns true if the motor is NOT moving. *)
Definition IsStopped (m : Motor) : M (bool * option error) :=
  r <- readReg m rampStat ;;
  let '(stat, err) := r in
  match err with
  | Some _ => ret (false, Wrapf err "error in IsStopped from motor")
  | None => ret (Z.land stat 0x400 =? 0x400, None)
  end.

(** AtVelocity returns true if the motor has reached the requested
    velocity. *)
Definition AtVelocity (m : Motor) : M (bool * option error) :=
  r <- readReg m rampStat ;;
  let '(stat, err) := r in
  match err with
  | Some _ => ret (false, err)
  | None => ret (Z.land stat 0x100 =? 0x100, None)
  end.

(** IsMoving returns true if the motor is currently moving. *)
Definition IsMoving (m : Motor) : M (bool * option error) :=
  r <- IsStopped m ;;
  let '(stop, err) := r in
  ret (negb stop, err).

(** IsPowered returns true if the motor is currently moving. *)
Definition IsPowered (m : Motor) : M (bool * float64 * option error) :=
  r <- IsMoving m ;;
  let '(on, err) := r in
  match err with
  | Some _ => ret (on, powerPct m, Wrapf err "error in IsPowered from motor")
  | None => ret (on, powerPct m, err)
  end.

(** [opMgr.WaitForSuccess(ctx, 10ms, testFunc)] of the RDK: poll until
    the test holds, fails, or the context is done. *)
Fixpoint WaitForSuccess (fuel : nat) (testFunc : M (bool * option error))
  : M (option error) :=
  match fuel with
  | O => polling
  | S fuel =>
      r <- testFunc ;;
      let '(res, err) := r in
      match err with
      | Some _ => ret err
      | None =>
          if res then ret None
          else
            alive <- selectContextOrWait ;;
            if alive then WaitForSuccess fuel testFunc else contextErr
      end
  end.

(** GoTo moves to the specified position (in revolutions from home/zero)
    at a specific speed. *)
Definition GoTo (fuel : nat) (m : Motor) (rpm positionRevolutions : float64)
    (extra : option (list (string * value))) : M (option error) :=
  let rampParams := rampParams m in
  let parsed :=
    match extra with
    | Some _ =>
        let '(extraRampParams, err) := parseRampParametersFromExtra extra in
        match err with
        | Some _ => inr (Wrapf err "error parsing ramp_parameters in GoTo from motor")
        | None =>
            match extraRampParams with
            | Some o => inl (mergeRampParameters rampParams o)
            | None => inl rampParams
            end
        end
    | None => inl rampParams
    end in
  match parsed with
  | inr err => ret err
  | inl rampParams =>
      let positionRevolutions := mul positionRevolutions (of_Z (stepsPerRev m)) in
      let '(warning, err) := CheckSpeed rpm (maxRPM m) in
      e1 <- writeReg m rampMode modePosition ;;
      e2 <- applyRampParameters m rampParams ;;
      e3 <- writeReg m vMax (Motor_rpmToV m (Abs rpm)) ;;
      e4 <- writeReg m xTarget (int32_of_float64 positionRevolutions) ;;
      match Combine [e1; e2; e3; e4] with
      | Some err => ret (Wrapf (Some err) "error in GoTo from motor")
      | None => WaitForSuccess fuel (IsStopped m)
      end
  end.

(** GoFor turns in the given direction the given number of times at the
    given speed. *)
Definition GoFor (fuel : nat) (m : Motor) (rpm rotations : float64)
    (extra : option (list (string * value))) : M (option error) :=
  let '(warning, err) := CheckSpeed rpm (maxRPM m) in
  match err with
  | Some _ => ret err
  | None =>
      r <- Position m ;;
      let '(curPos, err) := r in
      match err with
      | Some _ => ret (Wrapf err "error in GoFor from motor")
      | None =>
          let d := if Bool.eqb (Signbit rotations) (Signbit rpm) then 1 else 1 * -1 in
          let rotations := mul (Abs rotations) (of_Z d) in
          let rpm := Abs rpm in
          let target := add curPos rotations in
          GoTo fuel m rpm target extra
      end
  end.

(** ResetZeroPosition sets the current position of the motor (adjusted by
    a given offset) to be its new zero position. *)
Definition ResetZeroPosition (m : Motor) (offset : float64) : M (option error) :=
  r <- IsPowered m ;;
  let '(on, _, err) := r in
  match err with
  | Some _ => ret (Wrapf err "error in ResetZeroPosition from motor")
  | None =>
      if on then ret (Some (ErrMoving (motorName m)))
      else
        e1 <- writeReg m rampMode modeHold ;;
        e2 <- applyRampParameters m (rampParams m) ;;
        e3 <- writeReg m xTarget
                (int32_of_float64 (mul (mul (of_Z (-1)) offset) (of_Z (stepsPerRev m)))) ;;
        e4 <- writeReg m xActual
                (int32_of_float64 (mul (mul (of_Z (-1)) offset) (of_Z (stepsPerRev m)))) ;;
        ret (Combine [e1; e2; e3; e4])
  end.

(** *** Homing: goTillStop

    goTillStop enables StallGuard detection, then moves in the
    direction/speed given until resistance (endstop) is detected.  The
    stop predicate of the caller sees the environment; [None] is [nil]. *)

Inductive loopExit : Type :=
| Break
| Return (err : option error).

Definition callStopFunc (stopFunc : option (env -> bool * env)) : M bool :=
  match stopFunc with
  | None => ret false
  | Some f => fun w => let '(b, v) := f (w_env w) in (Ret b, mkWorld v (w_bus w))
  end.

(** The deferred function: disable stallguard and turn off.  Its error
    is logged, not returned. *)
Definition cleanup (m : Motor) : M unit :=
  e1 <- writeReg m swMode 0x000 ;;
  e2 <- doJog m zero ;;
  let err := Combine [e1; e2] in
  ret tt.

(** Get up to speed.  [remaining] is [500 - fails]: the loop gives up when
    [fails >= 500] and counts one more failure otherwise. *)
Fixpoint upToSpeed (m : Motor) (stopFunc : option (env -> bool * env)) (remaining : nat)
  : M loopExit :=
  alive <- selectContextOrWait ;;
  if negb alive then ret (Return (Some ErrCtxUpToSpeed))
  else
    stop <- callStopFunc stopFunc ;;
    if stop then ret (Return None)
    else
      r <- AtVelocity m ;;
      let '(ready, err) := r in
      match err with
      | Some _ => ret (Return err)
      | None =>
          if ready then ret Break
          else
            match remaining with
            | O => ret (Return (Some ErrOver500))
            | S remaining => upToSpeed m stopFunc remaining
            end
      end.

(** Wait for motion to stop at endstop.  [remaining] is [10000 - fails]. *)
Fixpoint toEndstop (m : Motor) (stopFunc : option (env -> bool * env)) (remaining : nat)
  : M loopExit :=
  alive <- selectContextOrWait ;;
  if negb alive then ret (Return (Some ErrCtxEndstop))
  else
    stop <- callStopFunc stopFunc ;;
    if stop then ret (Return None)
    else
      r <- IsStopped m ;;
      let '(stopped, err) := r in
      match err with
      | Some _ => ret (Return err)
      | None =>
          if stopped then ret Break
          else
            match remaining with
            | O => ret (Return (Some ErrOver1000))
            | S remaining => toEndstop m stopFunc remaining
            end
      end.

(** What runs between the two [defer] statements and the return. *)
Definition goTillStopBody (m : Motor) (stopFunc : option (env -> bool * env))
  : M (option error) :=
  x <- upToSpeed m stopFunc 500 ;;
  match x with
  | Return err => ret err
  | Break =>
      err <- writeReg m swMode 0x400 ;;
      match err with
      | Some _ => ret err
      | None =>
          x <- toEndstop m stopFunc (100 * 100) ;;
          match x with
          | Return err => ret err
          | Break => ret None
          end
      end
  end.

Definition goTillStop (m : Motor) (rpm : float64)
    (stopFunc : option (env -> bool * env)) : M (option error) :=
  err <- Jog m rpm ;;
  match err with
  | Some _ => ret err
  | None => defer (goTillStopBody m stopFunc) (cleanup m)
  end.

(** ** Reference configuration

    The configuration of the unit tests: motor index 1, 200 ticks per
    rotation at 256 microsteps, 500 rpm, the nominal 13.2 MHz clock. *)

Definition baseClk : Z := 13200000.
Definition uSteps : Z := 256.

Definition testRamp : rampParameters :=
  mkRamp (Some 1) (Some 10) (Some 135573) (Some 5384) (Some 5384) (Some 0)
         (Some 5384) (Some 5384).

Definition testMotor : Motor :=
  {| index := 1;
     stepsPerRev := 200 * uSteps;
     homeRPM := of_Z (-125);
     maxRPM := of_Z 500;
     maxAcc := of_Z 500;
     fClk := of_Z baseClk;
     powerPct := zero;
     motorName := "motor1";
     rampParams := testRamp |}.

Definition testMotor2 : Motor :=
  {| index := 2;
     stepsPerRev := 200 * uSteps;
     homeRPM := of_Z (-125);
     maxRPM := of_Z 500;
     maxAcc := of_Z 500;
     fClk := of_Z baseClk;
     powerPct := zero;
     motorName := "motor2";
     rampParams := testRamp |}.

(** [int32(x)] of an unrepresentable float on amd64: the "integer
    indefinite" value. *)
Definition unrep_amd64 (x : float64) : Z := - 2 ^ 31.

(** [uint32(x)] of an unrepresentable float on amd64: the float is
    truncated to 64 bits, with the 64-bit "integer indefinite" value when
    that fails, and the low 32 bits are kept. *)
Definition unrep_uint32_amd64 (x : float64) : Z :=
  match trunc x with
  | Some z => if (- 2 ^ 63 <=? z) && (z <? 2 ^ 63) then z else - 2 ^ 63
  | None => - 2 ^ 63
  end.

(** A speed check as the tests pin it down: a speed below 0.1 rpm is
    refused with the zero-rpm error, a speed near the maximum draws a
    warning. *)
Definition checkSpeedRef (rpm max : float64) : string * option error :=
  let speed := Abs rpm in
  if ltb speed (lit 1 10) then ("motor speed is nearly 0 rev_per_min"%string, Some ErrZeroRPM)
  else if gtb max zero && gtb speed (sub max (lit 1 10))
       then ("motor speed is nearly the max rev_per_min"%string, None)
       else (""%string, None).

(** ** Bus devices for the examples

    The environment counts the transfers made so far.  A reply carries the
    ramp status in its payload: bit [0x400] is "motion stopped" and bit
    [0x100] is "target velocity reached". *)

Definition openOk (e : nat) : option error * nat := (None, e).
Definition openFails (e : nat) : option error * nat := (Some (ErrExternal 1), e).
Definition closeOk (e : nat) : option error * nat := (None, e).
Definition ctxAlive (e : nat) : bool * nat := (true, e).
Definition ctxError (e : nat) : error := ErrExternal 2.

(** A motor at rest. *)
Definition xferStopped (tx : list Z) (e : nat) : (list Z + error) * nat :=
  (inl [0; 0; 0; 4; 0], S e).

(** A motor that turns and never reaches its target velocity. *)
Definition xferTurning (tx : list Z) (e : nat) : (list Z + error) * nat :=
  (inl [0; 0; 0; 0; 0], S e).

(** A motor that reports the target velocity, and a stop, from the 1004th
    transfer on: after the two writes of the jog that is the second
    transfer of the 501st poll. *)
Definition xferLate (tx : list Z) (e : nat) : (list Z + error) * nat :=
  (inl (if (1003 <=? e)%nat then [0; 0; 0; 5; 0] else [0; 0; 0; 0; 0]), S e).

(** The position read of the unit tests: the first reply is gibberish, the
    second is 4.0 revolutions. *)
Definition xferPosition (tx : list Z) (e : nat) : (list Z + error) * nat :=
  (inl (match e with O => [0; 1; 6; 18; 3] | _ => [0; 0; 3; 32; 0] end), S e).

Definition world0 : world nat := mkWorld 0%nat [].

(** A motor with 3 ticks per rotation. *)
Definition coarseMotor : Motor :=
  {| index := 1;
     stepsPerRev := 3 * uSteps;
     homeRPM := of_Z (-125);
     maxRPM := of_Z 500;
     maxAcc := of_Z 500;
     fClk := of_Z baseClk;
     powerPct := zero;
     motorName := "motor1";
     rampParams := testRamp |}.

(** ** Configuration, construction and the remaining methods *)

(** [int(z)] on a 64-bit platform: the low 64 bits in two's complement. *)
Definition int64 (z : Z) : Z := (z + 2 ^ 63) mod 2 ^ 64 - 2 ^ 63.

(** A value of a command map: a string, an [int32], or one of the values
    of [value] ([IValue VOther] is any other type). *)
Inductive iface : Type :=
| IString (s : string)
| IInt32 (n : Z)
| IValue (v : value).

Fixpoint lookupCmd (k : string) (kv : list (string * iface)) : option iface :=
  match kv with
  | [] => None
  | (k', v) :: rest => if String.eqb k k' then Some v else lookupCmd k rest
  end.

(** The errors of the configuration and command layers, and the errors of
    the layers below, passed on as they are. *)
Inductive apiError : Type :=
| Lower (e : error)
| ErrFieldRequired (path field : string)
    (** [resource.NewConfigValidationFieldRequiredError(path, field)] *)
| ErrIndex
    (** ["tmcstepper motor index should be 1 or 2"] *)
| ErrTicksNotSet
    (** ["ticks_per_rotation isn't set"] *)
| ErrNotABoard (name : string)
    (** ["%q is not a board"] *)
| ErrNoEnablePin
    (** ["no enable pin configured"] *)
| ErrMissingCommand
    (** ["missing command value"] *)
| ErrNeedRPM
    (** ["need rpm value for jog"] *)
| ErrRPMNotFloat
    (** ["rpm value must be floating point"] *)
| ErrNoSuchCommand (name : iface).
    (** ["no such command: %s"] *)

Definition lift (e : option error) : option apiError :=
  match e with
  | Some e => Some (Lower e)
  | None => None
  end.

(** *** Config *)

Record PinConfig : Type := mkPinConfig {
  EnablePinLow : string
}.

Record Config : Type := mkConfig {
  Pins : PinConfig;
  BoardName : string;
  MaxRPM : float64;
  MaxAcceleration : float64;
  TicksPerRotation : Z;
  SPIBus : string;
  ChipSelect : string;
  Index : Z;
  SGThresh : Z;
  HomeRPM : float64;
  CalFactor : float64;
  RunCurrent : Z;
  HoldCurrent : Z;
  HoldDelay : Z;
  RampParameters : option rampParameters
}.

Definition set_MaxRPM (c : Config) (v : float64) : Config :=
  mkConfig (Pins c) (BoardName c) v (MaxAcceleration c) (TicksPerRotation c) (SPIBus c)
           (ChipSelect c) (Index c) (SGThresh c) (HomeRPM c) (CalFactor c) (RunCurrent c)
           (HoldCurrent c) (HoldDelay c) (RampParameters c).
Definition set_MaxAcceleration (c : Config) (v : float64) : Config :=
  mkConfig (Pins c) (BoardName c) (MaxRPM c) v (TicksPerRotation c) (SPIBus c)
           (ChipSelect c) (Index c) (SGThresh c) (HomeRPM c) (CalFactor c) (RunCurrent c)
           (HoldCurrent c) (HoldDelay c) (RampParameters c).
Definition set_CalFactor (c : Config) (v : float64) : Config :=
  mkConfig (Pins c) (BoardName c) (MaxRPM c) (MaxAcceleration c) (TicksPerRotation c) (SPIBus c)
           (ChipSelect c) (Index c) (SGThresh c) (HomeRPM c) v (RunCurrent c)
           (HoldCurrent c) (HoldDelay c) (RampParameters c).
Definition set_HomeRPM (c : Config) (v : float64) : Config :=
  mkConfig (Pins c) (BoardName c) (MaxRPM c) (MaxAcceleration c) (TicksPerRotation c) (SPIBus c)
           (ChipSelect c) (Index c) (SGThresh c) v (CalFactor c) (RunCurrent c)
           (HoldCurrent c) (HoldDelay c) (RampParameters c).
Definition set_SGThresh (c : Config) (v : Z) : Config :=
  mkConfig (Pins c) (BoardName c) (MaxRPM c) (MaxAcceleration c) (TicksPerRotation c) (SPIBus c)
           (ChipSelect c) (Index c) v (HomeRPM c) (CalFactor c) (RunCurrent c)
           (HoldCurrent c) (HoldDelay c) (RampParameters c).
Definition set_RunCurrent (c : Config) (v : Z) : Config :=
  mkConfig (Pins c) (BoardName c) (MaxRPM c) (MaxAcceleration c) (TicksPerRotation c) (SPIBus c)
           (ChipSelect c) (Index c) (SGThresh c) (HomeRPM c) (CalFactor c) v
           (HoldCurrent c) (HoldDelay c) (RampParameters c).
Definition set_HoldCurrent (c : Config) (v : Z) : Config :=
  mkConfig (Pins c) (BoardName c) (MaxRPM c) (MaxAcceleration c) (TicksPerRotation c) (SPIBus c)
           (ChipSelect c) (Index c) (SGThresh c) (HomeRPM c) (CalFactor c) (RunCurrent c)
           v (HoldDelay c) (RampParameters c).
Definition set_HoldDelay (c : Config) (v : Z) : Config :=
  mkConfig (Pins c) (BoardName c) (MaxRPM c) (MaxAcceleration c) (TicksPerRotation c) (SPIBus c)
           (ChipSelect c) (Index c) (SGThresh c) (HomeRPM c) (CalFactor c) (RunCurrent c)
           (HoldCurrent c) v (RampParameters c).

(** Validate ensures all parts of the config are valid.  The results are
    the dependencies, the optional dependencies and the error. *)
Definition Validate (config : Config) (path : string)
  : list string * list string * option apiError :=
  let deps : list string := [] in
  let r :=
    if negb (String.eqb (EnablePinLow (Pins config)) "") then
      if String.eqb (BoardName config) "" then inr (ErrFieldRequired path "board")
      else inl (deps ++ [BoardName config])
    else inl deps in
  match r with
  | inr e => ([], [], Some e)
  | inl deps =>
      if String.eqb (SPIBus config) "" then ([], [], Some (ErrFieldRequired path "spi_bus"))
      else if String.eqb (ChipSelect config) "" then
        ([], [], Some (ErrFieldRequired path "chip_select"))
      else if Index config <=? 0 then ([], [], Some (ErrFieldRequired path "index"))
      else if Index config >? 2 then ([], [], Some ErrIndex)
      else if TicksPerRotation config <=? 0 then
        ([], [], Some (ErrFieldRequired path "ticks_per_rotation"))
      else
        match validate (RampParameters config) with
        | Some err => ([], [], Some (Lower err))
        | None => (deps, [], None)
        end
  end.

(** *** makeMotor

    The function works on its copy [c] of the configuration.  It is cut
    into the defaults, the homing speed, the limits of the threshold, of
    the two currents and of the hold delay, the two register values and
    the set-up of the chip. *)

Definition withDefaults (c : Config) : Config :=
  let c := if eqb (MaxRPM c) zero then set_MaxRPM c (of_Z 200) else c in
  let c := if eqb (MaxAcceleration c) zero then set_MaxAcceleration c (of_Z 200) else c in
  let c := if eqb (CalFactor c) zero then set_CalFactor c (of_Z 1) else c in
  c.

Definition withHomeRPM (c : Config) : Config :=
  let c := if eqb (HomeRPM c) zero then set_HomeRPM c (div (MaxRPM c) (of_Z 4)) else c in
  let c := set_HomeRPM c (mul (HomeRPM c) (of_Z (-1))) in
  c.

Definition withSGThresh (c : Config) : Config :=
  let c := if SGThresh c >? 63 then set_SGThresh c 63
           else if SGThresh c <? -64 then set_SGThresh c (-64)
           else c in
  let c := if SGThresh c <? 0
           then set_SGThresh c (int32_of_float64 (add (of_Z 64) (Abs (of_Z (SGThresh c)))))
           else c in
  c.

Definition withRunCurrent (c : Config) : Config :=
  let c := if RunCurrent c =? 0 then set_RunCurrent c 15
           else set_RunCurrent c (int32 (RunCurrent c - 1)) in
  let c := if RunCurrent c >? 31 then set_RunCurrent c 31
           else if RunCurrent c <? 0 then set_RunCurrent c 0
           else c in
  c.

Definition withHoldCurrent (c : Config) : Config :=
  let c := if HoldCurrent c =? 0 then set_HoldCurrent c 8
           else set_HoldCurrent c (int32 (HoldCurrent c - 1)) in
  let c := if HoldCurrent c >? 31 then set_HoldCurrent c 31
           else if HoldCurrent c <? 0 then set_HoldCurrent c 0
           else c in
  c.

Definition withHoldDelay (c : Config) : Config :=
  let c := if HoldDelay c =? 0 then set_HoldDelay c 6
           else if HoldDelay c <? 0 then set_HoldDelay c 0
           else c in
  let c := if HoldDelay c >? 15 then set_HoldDelay c 15 else c in
  c.

Definition withCurrents (c : Config) : Config :=
  withHoldDelay (withHoldCurrent (withRunCurrent c)).

(** [coolConfig := c.SGThresh << 16] *)
Definition coolConfig (c : Config) : Z := int32 (Z.shiftl (SGThresh c) 16).

(** [iCfg := c.HoldDelay<<16 | c.RunCurrent<<8 | c.HoldCurrent] *)
Definition iCfg (c : Config) : Z :=
  Z.lor (Z.lor (int32 (Z.shiftl (HoldDelay c) 16)) (int32 (Z.shiftl (RunCurrent c) 8)))
        (HoldCurrent c).

(** The motor of a configuration that has its defaults and its homing
    speed; [powerPct] keeps its zero value. *)
Definition motorOf (c : Config) (name : string) : Motor :=
  let stepsPerRev := int64 (TicksPerRotation c * uSteps) in
  let fClk := div (of_Z baseClk) (CalFactor c) in
  let rampParams := initRampParameters (MaxRPM c) (MaxAcceleration c) fClk stepsPerRev in
  let rampParams :=
    match RampParameters c with
    | Some o => mergeRampParameters rampParams o
    | None => rampParams
    end in
  {| index := Index c;
     stepsPerRev := stepsPerRev;
     homeRPM := HomeRPM c;
     maxRPM := MaxRPM c;
     maxAcc := MaxAcceleration c;
     fClk := fClk;
     powerPct := zero;
     motorName := name;
     rampParams := rampParams |}.

(** The eight arguments of [multierr.Combine], evaluated in turn. *)
Definition setup (m : Motor) (c : Config) : M (option error) :=
  e1 <- writeReg m chopConf 0x000100C3 ;;
  e2 <- writeReg m iHoldIRun (iCfg c) ;;
  e3 <- writeReg m coolConf (coolConfig c) ;;
  e4 <- applyRampParameters m (rampParams m) ;;
  e5 <- writeReg m vCoolThres (Motor_rpmToV m (div (maxRPM m) (of_Z 20))) ;;
  e6 <- writeField m vMax (VMax (rampParams m)) ;;
  e7 <- writeReg m rampMode modeVelPos ;;
  e8 <- writeReg m xActual 0 ;;
  ret (Combine [e1; e2; e3; e4; e5; e6; e7; e8]).

Section Construction.

(** *** The enable pin

    The board of the dependencies and its pins are collaborators:
    [board.FromDependencies(deps, name)], [b.GPIOPinByName(name)] and
    [pin.Set(ctx, high, nil)]. *)
Variable Board : Type.
Variable GPIOPin : Type.
Variable FromDependencies : string -> Board + error.
Variable GPIOPinByName : Board -> string -> GPIOPin + error.
Variable PinSet : GPIOPin -> bool -> env -> option error * env.

Definition pinSet (p : GPIOPin) (high : bool) : M (option error) :=
  fun w => let '(e, v) := PinSet p high (w_env w) in (Ret e, mkWorld v (w_bus w)).

(** Enable pulls down the hardware enable pin, activating the power stage
    of the chip.  [enLowPin] is the field of the motor; [None] is [nil]. *)
Definition Enable (enLowPin : option GPIOPin) (turnOn : bool) : M (option apiError) :=
  match enLowPin with
  | None => ret (Some ErrNoEnablePin)
  | Some p => err <- pinSet p (negb turnOn) ;; ret (lift err)
  end.

(** makeMotor returns a TMC5072 driven motor: the motor and its
    [enLowPin] field. *)
Definition makeMotor (c : Config) (name : string)
  : M (option (Motor * option GPIOPin) * option apiError) :=
  let c := withDefaults c in
  if TicksPerRotation c =? 0 then ret (None, Some ErrTicksNotSet)
  else
    let c := withHomeRPM c in
    let m := motorOf c name in
    let c := withSGThresh c in
    let c := withCurrents c in
    err <- setup m c ;;
    match err with
    | Some err => ret (None, Some (Lower err))
    | None =>
        if negb (String.eqb (EnablePinLow (Pins c)) "") then
          match FromDependencies (BoardName c) with
          | inr _ => ret (None, Some (ErrNotABoard (BoardName c)))
          | inl b =>
              match GPIOPinByName b (EnablePinLow (Pins c)) with
              | inr err => ret (None, Some (Lower err))
              | inl p =>
                  err <- Enable (Some p) true ;;
                  match err with
                  | Some _ => ret (None, err)
                  | None => ret (Some (m, Some p), None)
                  end
              end
          end
        else ret (Some (m, None), None)
    end.

End Construction.

Arguments Enable {GPIOPin} _ _ _ _.
Arguments makeMotor {Board GPIOPin} _ _ _ _ _ _.

(** *** Readings *)

(** GetSG returns the current StallGuard reading. *)
Definition GetSG (m : Motor) : M (Z * option error) :=
  r <- readReg m drvStatus ;;
  let '(rawRead, err) := r in
  match err with
  | Some _ => ret (0, err)
  | None => ret (Z.land rawRead 1023, None)
  end.

(** getvActual reads the actual velocity from the vActual register. *)
Definition getvActual (m : Motor) : M (Z * option error) :=
  r <- readReg m vActual ;;
  let '(rawVel, err) := r in
  match err with
  | Some _ => ret (0, err)
  | None => ret (rawVel, None)
  end.

(** *** SetPower and SetRPM *)

Definition set_powerPct (m : Motor) (p : float64) : Motor :=
  mkMotor (index m) (stepsPerRev m) (homeRPM m) (maxRPM m) (maxAcc m) (fClk m) p
          (motorName m) (rampParams m).

(** SetPower sets the motor at a particular rpm based on the percent of
    maxRPM supplied by powerPct.  The receiver is updated in place: the
    motor after the call is part of the result. *)
Definition SetPower (m : Motor) (powerPct : float64) : M (Motor * option error) :=
  let m := set_powerPct m powerPct in
  err <- doJog m (mul powerPct (maxRPM m)) ;;
  ret (m, err).

(** SetRPM instructs the motor to move at the specified RPM
    indefinitely. *)
Definition SetRPM (m : Motor) (rpm : float64) (extra : option (list (string * value)))
  : M (option error) :=
  let rampParams := rampParams m in
  let parsed :=
    match extra with
    | Some _ =>
        let '(extraRampParams, err) := parseRampParametersFromExtra extra in
        match err with
        | Some _ => inr (Wrapf err "error parsing ramp_parameters in SetRPM from motor")
        | None =>
            match extraRampParams with
            | Some o => inl (mergeRampParameters rampParams o)
            | None => inl rampParams
            end
        end
    | None => inl rampParams
    end in
  match parsed with
  | inr err => ret err
  | inl rampParams =>
      let mode := if ltb rpm zero then modeVelNeg else modeVelPos in
      let '(warning, err) := CheckSpeed rpm (maxRPM m) in
      let speed := Motor_rpmToV m (Abs rpm) in
      e1 <- writeReg m rampMode mode ;;
      e2 <- applyRampParameters m rampParams ;;
      e3 <- writeReg m vMax speed ;;
      ret (Combine [e1; e2; e3])
  end.

(** *** home and DoCommand *)

(** The loop of [home]: it polls the status with no pause and no look at
    the context, and ends when the motor has stopped or a read fails. *)
Fixpoint untilStopped (fuel : nat) (m : Motor) : M loopExit :=
  match fuel with
  | O => polling
  | S fuel =>
      r <- IsStopped m ;;
      let '(stopped, err) := r in
      match err with
      | Some _ => ret (Return err)
      | None => if stopped then ret Break else untilStopped fuel m
      end
  end.

(** home homes the motor using stallguard. *)
Definition home (fuel : nat) (m : Motor) : M (option error) :=
  err <- goTillStop m (homeRPM m) None ;;
  match err with
  | Some _ => ret err
  | None =>
      x <- untilStopped fuel m ;;
      match x with
      | Return err => ret err
      | Break => ResetZeroPosition m (of_Z 0)
      end
  end.

(** DoCommand executes additional commands beyond the Motor interface. *)
Definition DoCommand (fuel : nat) (m : Motor) (cmd : list (string * iface))
  : M (option (list (string * iface)) * option apiError) :=
  match lookupCmd "command" cmd with
  | None => ret (None, Some ErrMissingCommand)
  | Some name =>
      match name with
      | IString s =>
          if String.eqb s "home" then
            err <- home fuel m ;;
            ret (None, lift err)
          else if String.eqb s "jog" then
            match lookupCmd "rpm" cmd with
            | None => ret (None, Some ErrNeedRPM)
            | Some (IValue (VFloat64 rpm)) =>
                err <- Jog m rpm ;;
                ret (None, lift err)
            | Some _ => ret (None, Some ErrRPMNotFloat)
            end
          else if String.eqb s "get_v_actual" then
            r <- getvActual m ;;
            let '(vActualVal, err) := r in
            match err with
            | Some _ => ret (None, lift err)
            | None => ret (Some [("v_actual"%string, IInt32 vActualVal)], None)
            end
          else ret (None, Some (ErrNoSuchCommand name))
      | _ => ret (None, Some (ErrNoSuchCommand name))
      end
  end.

(** ** More of the reference configuration *)

(** The configuration of the unit tests. *)
Definition testConfig : Config :=
  {| Pins := mkPinConfig "";
     BoardName := "";
     MaxRPM := of_Z 500;
     MaxAcceleration := of_Z 500;
     TicksPerRotation := 200;
     SPIBus := "main";
     ChipSelect := "40";
     Index := 1;
     SGThresh := 0;
     HomeRPM := zero;
     CalFactor := of_Z 1;
     RunCurrent := 0;
     HoldCurrent := 0;
     HoldDelay := 0;
     RampParameters := None |}.



(** A bus whose transfers all fail. *)
Definition xferFails (tx : list Z) (e : nat) : (list Z + error) * nat :=
  (inr (ErrExternal 3), S e).

(** A chip whose reply is one byte short. *)
Definition xferShort (tx : list Z) (e : nat) : (list Z + error) * nat :=
  (inl [0; 0; 0; 0], S e).

(** A context that is done. *)
Definition ctxDone (e : nat) : bool * nat := (false, e).

(** A board with one pin, which is always set without error. *)
Definition boardOk (name : string) : unit + error := inl tt.
Definition pinOk (b : unit) (name : string) : unit + error := inl tt.
Definition pinSetOk (p : unit) (high : bool) (e : nat) : option error * nat := (None, e).

(** A chip whose status word is negative and carries the StallGuard
    reading 300 in its low ten bits. *)
Definition xferLoad (tx : list Z) (e : nat) : (list Z + error) * nat :=
  (inl [0; 255; 0; 1; 44], S e).

(** The ramp parameters of the SetRPM test. *)
Definition testExtra : option (list (string * value)) :=
  Some [ ("ramp_parameters"%string,
          VMap [ ("v_start"%string, VInt 0); ("v_stop"%string, VInt 10);
                 ("v1"%string, VInt 1256); ("a1"%string, VInt 3000);
                 ("d1"%string, VInt 2500); ("a_max"%string, VInt 3500);
                 ("d_max"%string, VInt 3600) ]) ].

(** The same with a max velocity. *)
Definition testExtraVMax : option (list (string * value)) :=
  Some [ ("ramp_parameters"%string,
          VMap [ ("v_max"%string, VInt 100000);
                 ("v_start"%string, VInt 0); ("v_stop"%string, VInt 10);
                 ("v1"%string, VInt 1256); ("a1"%string, VInt 3000);
                 ("d1"%string, VInt 2500); ("a_max"%string, VInt 3500);
                 ("d_max"%string, VInt 3600) ]) ].

(** A motor that reports the target velocity, and a stop, from the 1005th
    transfer on: after the two writes of the jog that is the first
    transfer of the 502nd poll. *)
Definition xferLater (tx : list Z) (e : nat) : (list Z + error) * nat :=
  (inl (if (1004 <=? e)%nat then [0; 0; 0; 5; 0] else [0; 0; 0; 0; 0]), S e).

(** A stop predicate that never fires. *)
Definition stopNever (e : nat) : bool * nat := (false, e).

(** The configuration of the tests with a negative maximal rpm, and the
    motor that [makeMotor] builds from it. *)
Definition backwardConfig : Config := set_MaxRPM testConfig (of_Z (-500)).

Definition backwardMotor : Motor :=
  {| index := 1;
     stepsPerRev := 200 * uSteps;
     homeRPM := of_Z 125;
     maxRPM := of_Z (-500);
     maxAcc := of_Z 500;
     fClk := of_Z baseClk;
     powerPct := zero;
     motorName := "motor1";
     rampParams := mkRamp (Some 1) (Some 10) (Some 4294425003) (Some 5384) (Some 5384)
                          (Some 4294425003) (Some 5384) (Some 5384) |}.

(** ** Vocabulary of the properties *)

(** *** Rounding to binary64 *)

(** Where the remainder [r] of a division by [B] lies in its interval:
    on the lower bound, below, at or above the middle. *)
Definition loc (r B : Z) : location :=
  if r =? 0 then loc_Exact else loc_Inexact (2 * r ?= B).

(** The quotient [A / B] with the round and sticky bits of its remainder. *)
Definition rec_of (A B : Z) : shr_record :=
  shr_record_of_loc (A / B) (loc (A mod B) B).

(** [A / B] rounded to the nearest integer, ties to even. *)
Definition rne (A B : Z) : Z := round_nearest_even (A / B) (loc (A mod B) B).

(** The float with significand [m] at exponent [e], for [0 <= m <= 2^53]. *)
Definition encode (s : bool) (m e : Z) : spec_float :=
  if m =? 2 ^ 53 then
    if e + 1 <=? 971 then S754_finite s (Z.to_pos (2 ^ 52)) (e + 1) else S754_infinity s
  else
    match m with
    | Z0 => S754_zero s
    | Zpos p => if e <=? 971 then S754_finite s p e else S754_infinity s
    | Zneg _ => S754_nan
    end.

(** A non-negative float as an integer: its value in units of [2^-1074],
    the smallest positive float; [+inf] sits at [TOP], above every finite
    float. *)
Definition TOP : Z := 2 ^ 2098.

Definition ival (x : spec_float) : Z :=
  match x with
  | S754_zero _ => 0
  | S754_finite _ m e => Zpos m * 2 ^ (e + 1074)
  | S754_infinity _ => TOP
  | S754_nan => 0
  end.

(** Zero of either sign, a positive finite float or [+inf]. *)
Definition nonneg (x : spec_float) : Prop :=
  match x with
  | S754_zero _ => True
  | S754_finite s _ _ => s = false
  | S754_infinity s => s = false
  | S754_nan => False
  end.

(** A genuine non-negative float64. *)
Definition nn (x : spec_float) : Prop := valid_binary prec emax x = true /\ nonneg x.

(** The fraction [P / Q], in units of [2^-1074], rounded to 53
    significant bits. *)
Definition G (P Q : Z) : Z :=
  let g := Z.max (Zdigits2 (P / Q) - 53) 0 in
  rne P (Q * 2 ^ g) * 2 ^ g.

(** A genuine positive finite float64. *)
Definition fin_pos (c : spec_float) : Prop :=
  exists m e, c = S754_finite false m e /\ valid_binary prec emax c = true.

(** *** Ranges of the ramp parameters *)

(** The documented inclusive range of each field, in the order of the
    checks. *)
Definition rampRanges (rp : rampParameters) : list (string * option Z * Z * Z) :=
  [ ("v_start"%string, VStart rp, 0, 2 ^ 18 - 1);
    ("v_stop"%string, VStop rp, 1, 2 ^ 18 - 1);
    ("v1"%string, V1 rp, 0, 2 ^ 20 - 1);
    ("a1"%string, A1 rp, 0, 2 ^ 16 - 1);
    ("d1"%string, D1 rp, 1, 2 ^ 16 - 1);
    ("v_max"%string, VMax rp, 0, 2 ^ 23 - 512);
    ("a_max"%string, AMax rp, 0, 2 ^ 16 - 1);
    ("d_max"%string, DMax rp, 0, 2 ^ 16 - 1) ].

(** A present value outside its range. *)
Definition outside (c : string * option Z * Z * Z) : Prop :=
  let '(_, val, min, max) := c in
  match val with
  | Some v => v < min \/ max < v
  | None => False
  end.

(** The error that names the field, its bounds and its value. *)
Definition rangeError (c : string * option Z * Z * Z) : option error :=
  let '(name, val, min, max) := c in
  match val with
  | Some v => Some (ErrRange name min max v)
  | None => None
  end.

(** *** Frames and the behaviour of the bus *)

(** A write frame: the address with the write flag, then the value, most
    significant byte first. *)
Definition writeFrame (addr value : Z) : list Z :=
  [ Z.lor addr 0x80;
    (value / 2 ^ 24) mod 256;
    (value / 2 ^ 16) mod 256;
    (value / 2 ^ 8) mod 256;
    value mod 256 ].

(** A read frame: the address and an empty payload. *)
Definition readFrame (addr : Z) : list Z := [addr; 0; 0; 0; 0].

(** Four bytes, most significant first, as a signed 32-bit integer. *)
Definition be_int32 (b1 b2 b3 b4 : Z) : Z :=
  int32 (b1 * 2 ^ 24 + b2 * 2 ^ 16 + b3 * 2 ^ 8 + b4).

(** An element of a [[]byte]. *)
Definition is_byte (b : Z) : Prop := 0 <= b < 256.

(** The bus hands out a handle whenever it is asked. *)
Definition opens : Prop := forall e, fst (OpenHandle e) = None.


(** *** The unit converter *)

(** The float [speed] that [rpmToV] converts, for an rpm that is not
    clamped. *)
Definition speedOf (rpm fClk : float64) (stepsPerRev : Z) : float64 :=
  div (mul (div rpm (of_Z 60)) (of_Z stepsPerRev)) (div fClk pow2_24).

(** The seven writes of [applyRampParameters], in their order. *)
Definition rampFrames (m : Motor) (va1 vaMax vd1 vdMax vvStart vvStop vv1 : Z)
  : list (list Z) :=
  [ writeFrame (shiftAddr m a1) (int32 va1);
    writeFrame (shiftAddr m aMax) (int32 vaMax);
    writeFrame (shiftAddr m d1) (int32 vd1);
    writeFrame (shiftAddr m dMax) (int32 vdMax);
    writeFrame (shiftAddr m vStart) (int32 vvStart);
    writeFrame (shiftAddr m vStop) (int32 vvStop);
    writeFrame (shiftAddr m v1) (int32 vv1) ].

(** *** Homing *)

(** Commands that only add frames of one kind to the bus. *)
Definition emits {A : Type} (P : list Z -> Prop) (c : M A) : Prop :=
  forall w, exists r w' fs, c w = (r, w') /\ w_bus w' = w_bus w ++ fs /\ Forall P fs.

(** The frames of the body: status polls and the write that enables
    stallguard. *)
Definition bodyFrame (m : Motor) (f : list Z) : Prop :=
  f = readFrame (shiftAddr m rampStat) \/ f = writeFrame (shiftAddr m swMode) 0x400.

(** The frames of the cleanup: stallguard off, then a zero-velocity jog. *)
Definition cleanupFrames (m : Motor) : list (list Z) :=
  [ writeFrame (shiftAddr m swMode) 0;
    writeFrame (shiftAddr m rampMode) modeVelPos;
    writeFrame (shiftAddr m vMax) (Motor_rpmToV m zero) ].

(** The first [rounds] rounds of the first loop of [goTillStop], started
    in the world [w]: in each the context is alive, the stop predicate,
    when there is one, says no, and the poll succeeds and does not
    observe "target velocity reached". *)
Fixpoint slow_start (m : Motor) (stopFunc : option (env -> bool * env)) (rounds : nat)
    (w : world env) : Prop :=
  match rounds with
  | O => True
  | S rounds =>
      exists w1 w2 w3,
        selectContextOrWait w = (Ret true, w1) /\
        callStopFunc stopFunc w1 = (Ret false, w2) /\
        AtVelocity m w2 = (Ret (false, None), w3) /\
        slow_start m stopFunc rounds w3
  end.

(** The frames of [k] polls of the ramp status: two read frames each. *)
Definition pollFrames (m : Motor) (k : nat) : list (list Z) :=
  List.concat (repeat [readFrame (shiftAddr m rampStat); readFrame (shiftAddr m rampStat)] k).

(** *** Registers of one motor *)

(** The addresses that exist once per motor: the three ranges that
    [shiftAddr] moves. *)
Definition perMotor (addr : Z) : Prop :=
  0x10 <= addr <= 0x11 \/ 0x20 <= addr <= 0x3C \/ 0x6A <= addr <= 0x6F.

(** *** Ramp parameters in use *)

(** Every field is set. *)
Definition complete (rp : rampParameters) : Prop :=
  VStart rp <> None /\ VStop rp <> None /\ V1 rp <> None /\ A1 rp <> None /\
  D1 rp <> None /\ VMax rp <> None /\ AMax rp <> None /\ DMax rp <> None.

Definition valueOf (p : option Z) : Z :=
  match p with
  | Some v => v
  | None => 0
  end.

(** The seven writes of [applyRampParameters] for complete parameters. *)
Definition applyFrames (m : Motor) (rp : rampParameters) : list (list Z) :=
  rampFrames m (valueOf (A1 rp)) (valueOf (AMax rp)) (valueOf (D1 rp)) (valueOf (DMax rp))
             (valueOf (VStart rp)) (valueOf (VStop rp)) (valueOf (V1 rp)).

(** The keys of a ramp parameter map and the values that count as
    numbers. *)
Definition rampKeys : list string :=
  [ "v_start"; "v_stop"; "v1"; "a1"; "d1"; "v_max"; "a_max"; "d_max" ]%string.

Definition numeric (v : option value) : bool :=
  match v with
  | Some (VUint32 _) | Some (VInt _) | Some (VInt64 _) | Some (VFloat64 _) => true
  | _ => false
  end.

Definition is_map (v : value) : bool :=
  match v with
  | VMap _ => true
  | _ => false
  end.

(** The parameters a call works with: those of the motor, overridden by
    the ramp parameters of [extra] when it has any. *)
Definition overridden (m : Motor) (extra : option (list (string * value))) : rampParameters :=
  match parseRampParametersFromExtra extra with
  | (Some o, None) => mergeRampParameters (rampParams m) o
  | _ => rampParams m
  end.

(** [math.IsNaN] *)
Definition IsNaN (x : float64) : bool :=
  match x with
  | S754_nan => true
  | _ => false
  end.

(** *** Behaviour of the chip and of the context *)

(** The context of the caller is done. *)
Definition ctx_done : Prop := forall e, fst (SelectContextOrWait e) = false.




(** The two writes of a jog. *)
Definition jogFrames (m : Motor) (rpm : float64) : list (list Z) :=
  [ writeFrame (shiftAddr m rampMode) (if ltb rpm zero then modeVelNeg else modeVelPos);
    writeFrame (shiftAddr m vMax) (Motor_rpmToV m (Abs rpm)) ].

(** *** Construction *)

(** The fourteen writes that set the chip up. *)
Definition setupFrames (m : Motor) (c : Config) : list (list Z) :=
  [ writeFrame (shiftAddr m chopConf) 0x000100C3;
    writeFrame (shiftAddr m iHoldIRun) (iCfg c);
    writeFrame (shiftAddr m coolConf) (coolConfig c) ] ++
  applyFrames m (rampParams m) ++
  [ writeFrame (shiftAddr m vCoolThres) (Motor_rpmToV m (div (maxRPM m) (of_Z 20)));
    writeFrame (shiftAddr m vMax) (int32 (valueOf (VMax (rampParams m))));
    writeFrame (shiftAddr m rampMode) modeVelPos;
    writeFrame (shiftAddr m xActual) 0 ].

(** The configuration as [makeMotor] uses it: its own copy after the
    defaults, the homing speed and the limits. *)
Definition normalized (c : Config) : Config :=
  withCurrents (withSGThresh (withHomeRPM (withDefaults c))).

(** Commands that return after they have put exactly the frames [fs] on
    the bus. *)
Definition writes {A : Type} (fs : list (list Z)) (c : M A) : Prop :=
  forall w, exists r w', c w = (Ret r, w') /\ w_bus w' = w_bus w ++ fs.

(** The float that [rpmsToA] converts. *)
Definition accOf (acc fClk : float64) (stepsPerRev : Z) : float64 :=
  mul (mul (div acc (of_Z 60)) (of_Z stepsPerRev)) (div pow2_41 (Pow2 fClk)).


(** * Properties *)

(** ** Facts on binary64 arithmetic *)

(** *** Number of binary digits *)

Lemma digits2_pos_size (p : positive) : digits2_pos p = Pos.size p.
Proof. induction p; simpl; congruence. Qed.

Lemma Zdigits2_log2 (m : Z) : 0 < m -> Zdigits2 m = Z.log2 m + 1.
Proof.
  destruct m as [|p|p]; try lia. intros _. simpl.
  rewrite digits2_pos_size. destruct p; simpl; lia.
Qed.

Lemma Zdigits2_bounds (m : Z) :
  0 < m -> 2 ^ (Zdigits2 m - 1) <= m < 2 ^ Zdigits2 m.
Proof.
  intros H. rewrite Zdigits2_log2 by exact H.
  replace (Z.log2 m + 1 - 1) with (Z.log2 m) by lia.
  pose proof (Z.log2_spec m H). unfold Z.succ in *. lia.
Qed.

Lemma Zdigits2_nonneg (m : Z) : 0 <= Zdigits2 m.
Proof. destruct m; simpl; lia. Qed.

Lemma Zdigits2_pos (m : Z) : 0 < m -> 0 < Zdigits2 m.
Proof. destruct m; simpl; lia. Qed.

Lemma Zdigits2_unique (m d : Z) :
  2 ^ (d - 1) <= m < 2 ^ d -> 0 < m -> Zdigits2 m = d.
Proof.
  intros H Hm. rewrite Zdigits2_log2 by exact Hm.
  assert (0 < d).
  { destruct (Z.ltb_spec 0 d); [assumption|].
    destruct (Z.eqb_spec d 0) as [->|Hd]; [simpl in H; lia|].
    rewrite (Z.pow_neg_r 2 d) in H by lia. lia. }
  enough (Z.log2 m = d - 1) by lia.
  apply Z.log2_unique; [lia|]. unfold Z.succ.
  replace (d - 1 + 1) with d by lia. exact H.
Qed.

Lemma Zdigits2_le (a b : Z) : 0 <= a <= b -> Zdigits2 a <= Zdigits2 b.
Proof.
  intros H. destruct (Z.eqb_spec a 0) as [->|Ha].
  - apply Zdigits2_nonneg.
  - rewrite !Zdigits2_log2 by lia. pose proof (Z.log2_le_mono a b). lia.
Qed.

Lemma Zdigits2_lt_pow (m d : Z) : 0 <= d -> 0 <= m < 2 ^ d -> Zdigits2 m <= d.
Proof.
  intros Hd H. destruct (Z.eqb_spec m 0) as [->|Hm]; [simpl; lia|].
  pose proof (Zdigits2_bounds m ltac:(lia)) as B.
  destruct (Z.le_gt_cases (Zdigits2 m) d) as [|G]; [assumption|].
  assert (2 ^ d <= 2 ^ (Zdigits2 m - 1)) by (apply Z.pow_le_mono_r; lia). lia.
Qed.

Lemma Zdigits2_ge_pow (m d : Z) : 0 <= d -> 2 ^ d <= m -> d + 1 <= Zdigits2 m.
Proof.
  intros Hd H. assert (0 < m) by (pose proof (Z.pow_pos_nonneg 2 d); lia).
  pose proof (Zdigits2_bounds m ltac:(lia)) as B.
  destruct (Z.le_gt_cases (d + 1) (Zdigits2 m)) as [|G]; [assumption|].
  assert (2 ^ Zdigits2 m <= 2 ^ d) by (apply Z.pow_le_mono_r; lia). lia.
Qed.

(** *** Locations and right shifts

    [A / B] with the position of the remainder in its interval. *)

Lemma shr_m_rec_of (A B : Z) : shr_m (rec_of A B) = A / B.
Proof.
  unfold rec_of, loc, shr_record_of_loc.
  destruct (A mod B =? 0); [reflexivity|].
  destruct (2 * (A mod B) ?= B); reflexivity.
Qed.

Lemma loc_rec_of (A B : Z) : loc_of_shr_record (rec_of A B) = loc (A mod B) B.
Proof.
  unfold rec_of, loc, shr_record_of_loc.
  destruct (A mod B =? 0); [reflexivity|].
  destruct (2 * (A mod B) ?= B); reflexivity.
Qed.

Lemma rec_of_exact (m : Z) : Build_shr_record m false false = rec_of m 1.
Proof.
  unfold rec_of, loc. rewrite Z.mod_1_r, Z.div_1_r. reflexivity.
Qed.

Lemma shr_1_rec_of (A B : Z) :
  0 <= A -> 0 < B -> shr_1 (rec_of A B) = rec_of A (2 * B).
Proof.
  intros HA HB.
  pose proof (Z.div_mod A B ltac:(lia)) as E.
  pose proof (Z.mod_pos_bound A B HB) as R.
  pose proof (Z.div_pos A B HA HB) as Q.
  assert (D : A / (2 * B) = (A / B) / 2).
  { rewrite (Z.mul_comm 2 B). rewrite Z.div_div by lia. reflexivity. }
  assert (Md : A mod (2 * B) = ((A / B) mod 2) * B + A mod B).
  { rewrite (Z.mul_comm 2 B). rewrite Z.rem_mul_r by lia. lia. }
  pose proof (Z.div_mod (A / B) 2 ltac:(lia)) as E2.
  pose proof (Z.mod_pos_bound (A / B) 2 ltac:(lia)) as R2.
  unfold rec_of at 2. rewrite D, Md.
  unfold rec_of, loc, shr_record_of_loc.
  destruct (A / B) as [|p|p] eqn:Eq; [| |lia].
  - (* quotient 0 *)
    change (0 / 2) with 0. change (0 mod 2) with 0. simpl (0 * B + _).
    destruct (Z.eqb_spec (A mod B) 0) as [Z0|N0]; [reflexivity|].
    destruct (Z.compare_spec (2 * (A mod B)) B);
      destruct (Z.compare_spec (2 * (A mod B)) (2 * B)); try lia; reflexivity.
  - destruct p as [p|p|].
    + (* odd *)
      assert (Zpos p~1 / 2 = Zpos p) by (rewrite Pos2Z.inj_xI; Z.div_mod_to_equations; lia).
      assert (Zpos p~1 mod 2 = 1) by (rewrite Pos2Z.inj_xI; Z.div_mod_to_equations; lia).
      rewrite H, H0.
      destruct (Z.eqb_spec (A mod B) 0) as [Z0|N0].
      * rewrite Z0. simpl shr_1.
        destruct (Z.eqb_spec (1 * B + 0) 0); [lia|].
        destruct (Z.compare_spec (2 * (1 * B + 0)) (2 * B)); try lia. reflexivity.
      * destruct (Z.eqb_spec (1 * B + A mod B) 0); [lia|].
        destruct (Z.compare_spec (2 * (1 * B + A mod B)) (2 * B)); try lia.
        destruct (2 * (A mod B) ?= B); reflexivity.
    + (* even *)
      assert (Zpos p~0 / 2 = Zpos p) by (rewrite Pos2Z.inj_xO; Z.div_mod_to_equations; lia).
      assert (Zpos p~0 mod 2 = 0) by (rewrite Pos2Z.inj_xO; Z.div_mod_to_equations; lia).
      rewrite H, H0. simpl (0 * B + _).
      destruct (Z.eqb_spec (A mod B) 0) as [Z0|N0]; [reflexivity|].
      destruct (Z.compare_spec (2 * (A mod B)) (2 * B)); try lia.
      destruct (2 * (A mod B) ?= B); reflexivity.
    + change (1 / 2) with 0. change (1 mod 2) with 1.
      destruct (Z.eqb_spec (A mod B) 0) as [Z0|N0].
      * rewrite Z0. simpl shr_1.
        destruct (Z.eqb_spec (1 * B + 0) 0); [lia|].
        destruct (Z.compare_spec (2 * (1 * B + 0)) (2 * B)); try lia. reflexivity.
      * destruct (Z.eqb_spec (1 * B + A mod B) 0); [lia|].
        destruct (Z.compare_spec (2 * (1 * B + A mod B)) (2 * B)); try lia.
        destruct (2 * (A mod B) ?= B); reflexivity.
Qed.

Lemma iter_pos_shr_1 (p : positive) (A B : Z) :
  0 <= A -> 0 < B ->
  iter_pos shr_1 p (rec_of A B) = rec_of A (B * 2 ^ Zpos p).
Proof.
  intros HA. revert B. induction p as [p IH|p IH|]; intros B HB; simpl iter_pos.
  - rewrite shr_1_rec_of by assumption.
    assert (0 < 2 ^ Zpos p) by (apply Z.pow_pos_nonneg; lia).
    rewrite IH by lia. rewrite IH by (apply Z.mul_pos_pos; lia).
    f_equal. replace (Zpos p~1) with (Zpos p + Zpos p + 1) by lia.
    rewrite !Z.pow_add_r by lia. change (2 ^ 1) with 2. ring.
  - assert (0 < 2 ^ Zpos p) by (apply Z.pow_pos_nonneg; lia).
    rewrite IH by lia. rewrite IH by (apply Z.mul_pos_pos; lia).
    f_equal. replace (Zpos p~0) with (Zpos p + Zpos p) by lia.
    rewrite !Z.pow_add_r by lia. ring.
  - rewrite shr_1_rec_of by assumption. f_equal. change (2 ^ 1) with 2. ring.
Qed.

Lemma shr_rec_of (A B e n : Z) :
  0 <= A -> 0 < B -> 0 <= n ->
  shr (rec_of A B) e n = (rec_of A (B * 2 ^ n), e + n).
Proof.
  intros HA HB Hn. unfold shr. destruct n as [|p|p]; [| |lia].
  - rewrite Z.mul_1_r, Z.add_0_r. reflexivity.
  - rewrite iter_pos_shr_1 by assumption. reflexivity.
Qed.

(** *** Rounding a quotient to the nearest integer, ties to even *)

Lemma rne_cases (A B : Z) :
  0 < B ->
  let q := A / B in
  let r := A mod B in
  (2 * r < B /\ rne A B = q) \/
  (2 * r = B /\ Z.even q = true /\ rne A B = q) \/
  (2 * r = B /\ Z.even q = false /\ rne A B = q + 1) \/
  (B < 2 * r /\ rne A B = q + 1).
Proof.
  intros HB q r. unfold rne, loc, round_nearest_even. fold q r.
  pose proof (Z.mod_pos_bound A B HB) as R. fold r in R.
  destruct (Z.eqb_spec r 0) as [Z0|N0]; [left; lia|].
  destruct (Z.compare_spec (2 * r) B).
  - destruct (Z.even q) eqn:Ev; [right; left|right; right; left]; auto.
  - left; auto.
  - right; right; right; auto.
Qed.

Lemma rne_exact (k B : Z) : 0 < B -> rne (k * B) B = k.
Proof.
  intros HB. unfold rne, loc. rewrite Z.mod_mul, Z.div_mul by lia. reflexivity.
Qed.

Lemma rne_scale (c A B : Z) : 0 < c -> 0 < B -> rne (c * A) (c * B) = rne A B.
Proof.
  intros Hc HB. unfold rne, loc.
  rewrite Z.div_mul_cancel_l by lia. rewrite Z.mul_mod_distr_l by lia.
  destruct (Z.eqb_spec (A mod B) 0) as [->|N].
  - rewrite Z.mul_0_r. reflexivity.
  - destruct (Z.eqb_spec (c * (A mod B)) 0); [nia|].
    replace (2 * (c * (A mod B))) with (c * (2 * (A mod B))) by ring.
    rewrite <- Zmult_compare_compat_l by lia. reflexivity.
Qed.

Lemma rne_le (A1 A2 B : Z) : 0 < B -> A1 <= A2 -> rne A1 B <= rne A2 B.
Proof.
  intros HB H.
  pose proof (Z.div_mod A1 B ltac:(lia)) as E1.
  pose proof (Z.div_mod A2 B ltac:(lia)) as E2.
  pose proof (Z.mod_pos_bound A1 B HB) as R1.
  pose proof (Z.mod_pos_bound A2 B HB) as R2.
  pose proof (Z.div_le_mono A1 A2 B HB H) as Q.
  destruct (Z.eqb_spec (A1 / B) (A2 / B)) as [Eq|Ne].
  - assert (A1 mod B <= A2 mod B) by nia.
    destruct (rne_cases A1 B HB) as [C1|[C1|[C1|C1]]];
      destruct (rne_cases A2 B HB) as [C2|[C2|[C2|C2]]]; try lia.
    + destruct C1 as (_ & Ev1 & _), C2 as (_ & Ev2 & _). rewrite Eq in Ev1. congruence.
  - destruct (rne_cases A1 B HB) as [C1|[C1|[C1|C1]]];
      destruct (rne_cases A2 B HB) as [C2|[C2|[C2|C2]]]; lia.
Qed.

Lemma rne_le_frac (A1 B1 A2 B2 : Z) :
  0 < B1 -> 0 < B2 -> A1 * B2 <= A2 * B1 -> rne A1 B1 <= rne A2 B2.
Proof.
  intros H1 H2 H.
  rewrite <- (rne_scale B2 A1 B1) by assumption.
  rewrite <- (rne_scale B1 A2 B2) by assumption.
  rewrite (Z.mul_comm B1 B2). apply rne_le; nia.
Qed.

Lemma rne_nonneg (A B : Z) : 0 <= A -> 0 < B -> A / B <= rne A B <= A / B + 1.
Proof.
  intros HA HB. destruct (rne_cases A B HB) as [C|[C|[C|C]]]; lia.
Qed.

(** *** Rounding to binary64 *)

Lemma fexp_eq (e : Z) : fexp prec emax e = Z.max (e - 53) (-1074).
Proof. reflexivity. Qed.

Lemma div_pow2_lt (m n d : Z) :
  0 <= n -> 0 <= d -> 0 <= m < 2 ^ (n + d) -> m / 2 ^ n < 2 ^ d.
Proof.
  intros Hn Hd H. apply Z.div_lt_upper_bound; [apply Z.pow_pos_nonneg; lia|].
  rewrite <- Z.pow_add_r by lia. lia.
Qed.

Lemma div_pow2_ge (m n d : Z) :
  0 <= n -> 0 <= d -> 2 ^ (n + d) <= m -> 2 ^ d <= m / 2 ^ n.
Proof.
  intros Hn Hd H. apply Z.div_le_lower_bound; [apply Z.pow_pos_nonneg; lia|].
  rewrite <- Z.pow_add_r by lia. lia.
Qed.

(** [binary_round_aux] on a quotient [A / B] located at exponent [ex]
    rounds it at the exponent of its format. *)
Lemma binary_round_aux_quotient (s : bool) (A B ex : Z) :
  0 <= A -> 0 < B ->
  let e1 := fexp prec emax (Zdigits2 (A / B) + ex) in
  ex <= e1 ->
  let m1 := rne A (B * 2 ^ (e1 - ex)) in
  binary_round_aux prec emax s (A / B) ex (loc (A mod B) B) = encode s m1 e1 /\
  0 <= m1 <= 2 ^ 53 /\
  (-1074 < e1 -> 2 ^ 52 <= m1) /\
  -1074 <= e1.
Proof.
  intros HA HB e1 Hex m1.
  assert (He1 : -1074 <= e1) by (unfold e1; rewrite fexp_eq; lia).
  assert (Hn : 0 <= e1 - ex) by lia.
  assert (HP : 0 < 2 ^ (e1 - ex)) by (apply Z.pow_pos_nonneg; lia).
  assert (HB' : 0 < B * 2 ^ (e1 - ex)) by (apply Z.mul_pos_pos; lia).
  assert (Q : A / (B * 2 ^ (e1 - ex)) = (A / B) / 2 ^ (e1 - ex)) by (rewrite Z.div_div by lia; reflexivity).
  assert (Hmx : 0 <= A / B) by (apply Z.div_pos; lia).
  pose proof (Zdigits2_nonneg (A / B)) as Hd.
  assert (Hlt : A / (B * 2 ^ (e1 - ex)) < 2 ^ 53).
  { rewrite Q. destruct (Z.eqb_spec (A / B) 0) as [->|N].
    - rewrite Z.div_0_l by lia. lia.
    - apply div_pow2_lt; try lia.
      pose proof (Zdigits2_bounds (A / B) ltac:(lia)) as Bd.
      assert (2 ^ Zdigits2 (A / B) <= 2 ^ (e1 - ex + 53)).
      { apply Z.pow_le_mono_r; [lia|]. unfold e1. rewrite fexp_eq. lia. }
      lia. }
  assert (Hge : -1074 < e1 -> 2 ^ 52 <= A / (B * 2 ^ (e1 - ex))).
  { intros G. rewrite Q.
    assert (E : e1 = Zdigits2 (A / B) + ex - 53) by (unfold e1 in *; rewrite fexp_eq in *; lia).
    assert (0 < A / B).
    { destruct (Z.eqb_spec (A / B) 0) as [Z0|N]; [|lia].
      rewrite Z0 in E. simpl in E. lia. }
    apply div_pow2_ge; try lia.
    pose proof (Zdigits2_bounds (A / B) ltac:(lia)) as Bd.
    replace (e1 - ex + 52) with (Zdigits2 (A / B) - 1) by lia. lia. }
  pose proof (rne_nonneg A (B * 2 ^ (e1 - ex)) HA HB') as Hr. fold m1 in Hr.
  assert (Hq0 : 0 <= A / (B * 2 ^ (e1 - ex))) by (apply Z.div_pos; lia).
  split; [|repeat split; lia].
  unfold binary_round_aux, shr_fexp. fold e1.
  change (shr_record_of_loc (A / B) (loc (A mod B) B)) with (rec_of A B).
  rewrite shr_rec_of by lia.
  rewrite shr_m_rec_of, loc_rec_of.
  change (round_nearest_even (A / (B * 2 ^ (e1 - ex))) (loc (A mod (B * 2 ^ (e1 - ex))) (B * 2 ^ (e1 - ex))))
    with m1.
  replace (ex + (e1 - ex)) with e1 by lia.
  cbn [shr_record_of_loc]. rewrite rec_of_exact.
  unfold encode. destruct (Z.eqb_spec m1 (2 ^ 53)) as [E53|N53].
  - rewrite E53. change (Zdigits2 (2 ^ 53)) with 54.
    rewrite fexp_eq. replace (Z.max (54 + e1 - 53) (-1074) - e1) with 1 by lia.
    rewrite shr_rec_of by lia. rewrite shr_m_rec_of.
    change (2 ^ 53 / (1 * 2 ^ 1)) with (2 ^ 52).
    change (2 ^ 52) with (Zpos (Z.to_pos (2 ^ 52))) at 1.
    cbv iota beta. reflexivity.
  - assert (Hd1 : Zdigits2 m1 <= 53) by (apply Zdigits2_lt_pow; lia).
    rewrite fexp_eq.
    assert (Hn2 : Z.max (Zdigits2 m1 + e1 - 53) (-1074) - e1 <= 0) by lia.
    unfold shr.
    destruct (Z.max (Zdigits2 m1 + e1 - 53) (-1074) - e1) as [|p|p] eqn:En; try lia;
      rewrite shr_m_rec_of, Z.div_1_r; destruct m1; try lia; reflexivity.
Qed.

(** *** Values

    A non-negative float as an integer: its value in units of [2^-1074],
    the smallest positive float; [+inf] sits above every finite float. *)

Lemma valid_finite (s : bool) (m : positive) (e : Z) :
  valid_binary prec emax (S754_finite s m e) = true <->
  Z.max (Zdigits2 (Zpos m) + e - 53) (-1074) = e /\ e <= 971.
Proof.
  unfold valid_binary, bounded, canonical_mantissa. rewrite fexp_eq.
  change (emax - prec) with 971. simpl Zdigits2. lia.
Qed.

Lemma valid_finite_bounds (s : bool) (m : positive) (e : Z) :
  valid_binary prec emax (S754_finite s m e) = true ->
  -1074 <= e <= 971 /\ Zpos m < 2 ^ 53 /\ (-1074 < e -> 2 ^ 52 <= Zpos m).
Proof.
  intros H. apply valid_finite in H. destruct H as [H1 H2].
  pose proof (Zdigits2_bounds (Zpos m) ltac:(lia)) as B.
  pose proof (Zdigits2_pos (Zpos m) ltac:(lia)) as P.
  assert (Zdigits2 (Zpos m) <= 53) by lia.
  split; [lia|]. split.
  - assert (2 ^ Zdigits2 (Zpos m) <= 2 ^ 53) by (apply Z.pow_le_mono_r; lia). lia.
  - intros G. assert (E : Zdigits2 (Zpos m) = 53) by lia. rewrite E in B.
    change (53 - 1) with 52 in B. lia.
Qed.

Lemma pow2_pos (k : Z) : 0 <= k -> 0 < 2 ^ k.
Proof. intros. apply Z.pow_pos_nonneg; lia. Qed.

Lemma encode_valid (s : bool) (m e : Z) :
  0 <= m <= 2 ^ 53 -> (-1074 < e -> 2 ^ 52 <= m) -> -1074 <= e ->
  valid_binary prec emax (encode s m e) = true.
Proof.
  intros Hm Hn He. unfold encode.
  destruct (Z.eqb_spec m (2 ^ 53)) as [E|N].
  - destruct (Z.leb_spec (e + 1) 971); [|reflexivity].
    apply valid_finite. change (Zpos (Z.to_pos (2 ^ 52))) with (2 ^ 52).
    change (Zdigits2 (2 ^ 52)) with 53. lia.
  - destruct m as [|p|p]; [reflexivity| |lia].
    destruct (Z.leb_spec e 971); [|reflexivity].
    apply valid_finite.
    assert (Hd : Zdigits2 (Zpos p) <= 53) by (apply Zdigits2_lt_pow; lia).
    pose proof (Zdigits2_pos (Zpos p) ltac:(lia)).
    destruct (Z.eqb_spec e (-1074)) as [->|Ne]; [lia|].
    assert (52 + 1 <= Zdigits2 (Zpos p)) by (apply Zdigits2_ge_pow; lia).
    lia.
Qed.

Lemma encode_nonneg (m e : Z) : 0 <= m -> nonneg (encode false m e).
Proof.
  intros Hm. unfold encode.
  destruct (m =? 2 ^ 53); [destruct (e + 1 <=? 971); reflexivity|].
  destruct m; [exact I| |lia]. destruct (e <=? 971); reflexivity.
Qed.

Lemma encode_ival (s : bool) (m e : Z) :
  0 <= m <= 2 ^ 53 -> (-1074 < e -> 2 ^ 52 <= m) -> -1074 <= e ->
  ival (encode s m e) = Z.min TOP (m * 2 ^ (e + 1074)).
Proof.
  intros Hm Hn He. unfold encode, TOP.
  assert (HP : 0 < 2 ^ (e + 1074)) by (apply pow2_pos; lia).
  destruct (Z.eqb_spec m (2 ^ 53)) as [E|N].
  - subst m. rewrite <- Z.pow_add_r by lia.
    destruct (Z.leb_spec (e + 1) 971).
    + unfold ival. change (Zpos (Z.to_pos (2 ^ 52))) with (2 ^ 52).
      rewrite <- Z.pow_add_r by lia. replace (52 + (e + 1 + 1074)) with (53 + (e + 1074)) by lia.
      assert (2 ^ (53 + (e + 1074)) <= 2 ^ 2098) by (apply Z.pow_le_mono_r; lia). lia.
    + unfold ival, TOP.
      assert (2 ^ 2098 <= 2 ^ (53 + (e + 1074))) by (apply Z.pow_le_mono_r; lia). lia.
  - destruct m as [|p|p]; [simpl; lia| |lia].
    destruct (Z.leb_spec e 971).
    + unfold ival.
      assert (2 ^ (e + 1074) <= 2 ^ 2045) by (apply Z.pow_le_mono_r; lia).
      assert (2 ^ 53 * 2 ^ 2045 = 2 ^ 2098) by (rewrite <- Z.pow_add_r by lia; reflexivity).
      nia.
    + unfold ival, TOP.
      assert (2 ^ 2046 <= 2 ^ (e + 1074)) by (apply Z.pow_le_mono_r; lia).
      assert (2 ^ 52 * 2 ^ 2046 = 2 ^ 2098) by (rewrite <- Z.pow_add_r by lia; reflexivity).
      assert (2 ^ 52 <= Zpos p) by lia.
      nia.
Qed.

Lemma nn_ival_bounds (x : spec_float) : nn x -> 0 <= ival x <= TOP.
Proof.
  intros [V N]. unfold TOP.
  destruct x as [s|s| |s m e]; cbn [ival]; [lia|unfold TOP; lia|destruct N|].
  apply valid_finite_bounds in V. destruct V as (He & Hm & _).
  assert (HP : 0 < 2 ^ (e + 1074)) by (apply pow2_pos; lia).
  assert (2 ^ (e + 1074) <= 2 ^ 2045) by (apply Z.pow_le_mono_r; lia).
  assert (2 ^ 53 * 2 ^ 2045 = 2 ^ 2098) by (rewrite <- Z.pow_add_r by lia; reflexivity).
  nia.
Qed.

Lemma nn_finite_lt_TOP (s : bool) (m : positive) (e : Z) :
  valid_binary prec emax (S754_finite s m e) = true -> 0 < ival (S754_finite s m e) < TOP.
Proof.
  intros V. unfold TOP, ival.
  apply valid_finite_bounds in V. destruct V as (He & Hm & _).
  assert (HP : 0 < 2 ^ (e + 1074)) by (apply pow2_pos; lia).
  assert (2 ^ (e + 1074) <= 2 ^ 2045) by (apply Z.pow_le_mono_r; lia).
  assert (2 ^ 53 * 2 ^ 2045 = 2 ^ 2098) by (rewrite <- Z.pow_add_r by lia; reflexivity).
  nia.
Qed.

(** *** The rounding function on fractions

    [G P Q] is the fraction [P / Q], in units of [2^-1074], rounded to
    53 significant bits. *)

Lemma div_le_frac (P1 Q1 P2 Q2 : Z) :
  0 < Q1 -> 0 < Q2 -> P1 * Q2 <= P2 * Q1 -> P1 / Q1 <= P2 / Q2.
Proof.
  intros H1 H2 H.
  apply Z.div_le_lower_bound; [lia|].
  pose proof (Z.mul_div_le P1 Q1 H1).
  assert (Q1 * (Q2 * (P1 / Q1)) <= Q1 * P2) by nia.
  apply Z.mul_le_mono_pos_l in H3; lia.
Qed.

Lemma G_le (P1 Q1 P2 Q2 : Z) :
  0 <= P1 -> 0 < Q1 -> 0 < Q2 -> P1 * Q2 <= P2 * Q1 -> G P1 Q1 <= G P2 Q2.
Proof.
  intros HP1 HQ1 HQ2 H. unfold G.
  assert (HP2 : 0 <= P2) by nia.
  pose proof (div_le_frac _ _ _ _ HQ1 HQ2 H) as F.
  assert (F1 : 0 <= P1 / Q1) by (apply Z.div_pos; lia).
  pose proof (Zdigits2_le (P1 / Q1) (P2 / Q2) ltac:(lia)) as D.
  set (g1 := Z.max (Zdigits2 (P1 / Q1) - 53) 0).
  set (g2 := Z.max (Zdigits2 (P2 / Q2) - 53) 0).
  assert (Hg1 : 0 <= g1) by lia. assert (Hg2 : 0 <= g2) by lia.
  pose proof (pow2_pos g1 Hg1) as T1. pose proof (pow2_pos g2 Hg2) as T2.
  destruct (Z.eqb_spec g1 g2) as [E|N].
  - rewrite <- E. apply Z.mul_le_mono_nonneg_r; [lia|].
    apply rne_le_frac; nia.
  - assert (Hlt : g1 < g2) by lia.
    set (d2 := Zdigits2 (P2 / Q2)) in *.
    assert (Hd2 : g2 = d2 - 53) by lia.
    assert (F2 : 0 < P2 / Q2).
    { destruct (Z.eqb_spec (P2 / Q2) 0) as [Z0|]; [|lia].
      unfold d2 in Hd2. rewrite Z0 in Hd2. simpl in Hd2. lia. }
    pose proof (Zdigits2_bounds (P2 / Q2) F2) as B2. fold d2 in B2.
    set (Y := 2 ^ (d2 - 1)) in *.
    assert (HY1 : Y = 2 ^ (d2 - 1 - g1) * 2 ^ g1)
      by (unfold Y; rewrite <- Z.pow_add_r by lia; f_equal; lia).
    assert (HY2 : Y = 2 ^ 52 * 2 ^ g2)
      by (unfold Y; rewrite <- Z.pow_add_r by lia; f_equal; lia).
    (* the left side is at most the pivot *)
    assert (L : rne P1 (Q1 * 2 ^ g1) * 2 ^ g1 <= Y).
    { assert (P1 / Q1 < Y).
      { destruct (Z.eqb_spec (P1 / Q1) 0) as [Z0|N0].
        - rewrite Z0. unfold Y. apply pow2_pos. lia.
        - pose proof (Zdigits2_bounds (P1 / Q1) ltac:(lia)) as B1.
          assert (2 ^ Zdigits2 (P1 / Q1) <= Y) by (apply Z.pow_le_mono_r; lia).
          lia. }
      assert (P1 < Y * Q1).
      { destruct (Z.lt_ge_cases P1 (Y * Q1)) as [|G1]; [assumption|].
        assert (Y <= P1 / Q1) by (apply Z.div_le_lower_bound; lia). lia. }
      rewrite HY1. apply Z.mul_le_mono_nonneg_r; [lia|].
      rewrite <- (rne_exact (2 ^ (d2 - 1 - g1)) (Q1 * 2 ^ g1)) by nia.
      apply rne_le; [nia|]. rewrite HY1 in H1. nia. }
    (* the right side is at least the pivot *)
    assert (R : Y <= rne P2 (Q2 * 2 ^ g2) * 2 ^ g2).
    { assert (Y * Q2 <= P2).
      { pose proof (Z.mul_div_le P2 Q2 HQ2). nia. }
      rewrite HY2. apply Z.mul_le_mono_nonneg_r; [lia|].
      rewrite <- (rne_exact (2 ^ 52) (Q2 * 2 ^ g2)) by nia.
      apply rne_le; [nia|]. rewrite HY2 in H0. nia. }
    lia.
Qed.

Lemma G_frac_eq (P1 Q1 P2 Q2 : Z) :
  0 <= P1 -> 0 <= P2 -> 0 < Q1 -> 0 < Q2 -> P1 * Q2 = P2 * Q1 -> G P1 Q1 = G P2 Q2.
Proof.
  intros. apply Z.le_antisymm; apply G_le; lia.
Qed.

Lemma G_0 (Q : Z) : 0 < Q -> G 0 Q = 0.
Proof.
  intros HQ. unfold G. rewrite Z.div_0_l by lia. simpl Zdigits2.
  change (Z.max (0 - 53) 0) with 0. change (2 ^ 0) with 1. rewrite !Z.mul_1_r.
  exact (rne_exact 0 Q HQ).
Qed.

Lemma G_pos (P Q : Z) : 0 < Q -> Q <= P -> 0 < G P Q.
Proof.
  intros HQ H. unfold G.
  set (g := Z.max (Zdigits2 (P / Q) - 53) 0).
  assert (Hg : 0 <= g) by lia. pose proof (pow2_pos g Hg) as T.
  apply Z.mul_pos_pos; [|lia].
  assert (1 <= P / Q) by (apply Z.div_le_lower_bound; lia).
  pose proof (Zdigits2_bounds (P / Q) ltac:(lia)) as B.
  pose proof (rne_nonneg P (Q * 2 ^ g) ltac:(lia) ltac:(nia)) as Rn.
  enough (1 <= P / (Q * 2 ^ g)) by lia.
  rewrite <- Z.div_div by lia.
  destruct (Z.eqb_spec g 0) as [->|Ng].
  - change (2 ^ 0) with 1. rewrite Z.div_1_r. lia.
  - assert (2 ^ 0 <= P / Q / 2 ^ g); [|simpl in *; lia].
    apply div_pow2_ge; try lia.
    assert (2 ^ (g + 0) <= 2 ^ (Zdigits2 (P / Q) - 1)) by (apply Z.pow_le_mono_r; lia).
    lia.
Qed.

Lemma Zdigits2_mul_pow2_div (A B j : Z) :
  0 < B -> 0 <= j -> 0 < A / B ->
  Zdigits2 ((A * 2 ^ j) / B) = Zdigits2 (A / B) + j.
Proof.
  intros HB Hj Hq.
  pose proof (Zdigits2_bounds (A / B) Hq) as Bd.
  pose proof (Zdigits2_pos (A / B) Hq) as Pd.
  set (d := Zdigits2 (A / B)) in *.
  pose proof (pow2_pos j Hj) as Tj.
  pose proof (pow2_pos (d - 1) ltac:(lia)) as Td.
  assert (L : 2 ^ (d - 1) * B <= A).
  { pose proof (Z.mul_div_le A B HB). nia. }
  assert (U : A < 2 ^ d * B).
  { destruct (Z.lt_ge_cases A (2 ^ d * B)) as [|G1]; [assumption|].
    assert (2 ^ d <= A / B) by (apply Z.div_le_lower_bound; lia). lia. }
  assert (E1 : 2 ^ (d + j - 1) = 2 ^ (d - 1) * 2 ^ j)
    by (rewrite <- Z.pow_add_r by lia; f_equal; lia).
  assert (E2 : 2 ^ (d + j) = 2 ^ d * 2 ^ j) by (rewrite <- Z.pow_add_r by lia; reflexivity).
  assert (L' : 2 ^ (d + j - 1) <= A * 2 ^ j / B).
  { apply Z.div_le_lower_bound; [lia|]. rewrite E1. nia. }
  assert (U' : A * 2 ^ j / B < 2 ^ (d + j)).
  { apply Z.div_lt_upper_bound; [lia|]. rewrite E2. nia. }
  apply Zdigits2_unique; [lia|].
  pose proof (pow2_pos (d + j - 1) ltac:(lia)). lia.
Qed.

Lemma Zdigits2_div_pow2 (m k : Z) :
  0 <= m -> 0 <= k -> Zdigits2 (m / 2 ^ k) = Z.max (Zdigits2 m - k) 0.
Proof.
  intros Hm Hk. pose proof (pow2_pos k Hk) as Tk.
  destruct (Z.eqb_spec m 0) as [->|N].
  - rewrite Z.div_0_l by lia. simpl. lia.
  - pose proof (Zdigits2_bounds m ltac:(lia)) as Bd.
    pose proof (Zdigits2_pos m ltac:(lia)) as Pd.
    set (d := Zdigits2 m) in *.
    destruct (Z.le_gt_cases d k) as [Le|Gt].
    + assert (2 ^ d <= 2 ^ k) by (apply Z.pow_le_mono_r; lia).
      rewrite Z.div_small by lia. simpl. lia.
    + replace (Z.max (d - k) 0) with (d - k) by lia.
      assert (E1 : 2 ^ (d - 1) = 2 ^ (d - k - 1) * 2 ^ k)
        by (rewrite <- Z.pow_add_r by lia; f_equal; lia).
      assert (E2 : 2 ^ d = 2 ^ (d - k) * 2 ^ k)
        by (rewrite <- Z.pow_add_r by lia; f_equal; lia).
      pose proof (pow2_pos (d - k - 1) ltac:(lia)).
      assert (2 ^ (d - k - 1) <= m / 2 ^ k) by (apply Z.div_le_lower_bound; lia).
      assert (m / 2 ^ k < 2 ^ (d - k)) by (apply Z.div_lt_upper_bound; lia).
      apply Zdigits2_unique; lia.
Qed.

(** Rounding at the exponent of the format is [G] on the scaled fraction. *)
Lemma rne_G (A B ex : Z) :
  0 <= A -> 0 < B ->
  let e1 := fexp prec emax (Zdigits2 (A / B) + ex) in
  ex <= e1 ->
  rne A (B * 2 ^ (e1 - ex)) * 2 ^ (e1 + 1074) =
  G (A * 2 ^ Z.max (ex + 1074) 0) (B * 2 ^ Z.max (- (ex + 1074)) 0).
Proof.
  intros HA HB e1 Hex. unfold G.
  assert (He1 : e1 = Z.max (Zdigits2 (A / B) + ex - 53) (-1074))
    by (unfold e1; rewrite fexp_eq; reflexivity).
  assert (Hq : 0 <= A / B) by (apply Z.div_pos; lia).
  pose proof (Zdigits2_nonneg (A / B)) as Hd.
  destruct (Z.le_gt_cases 0 (ex + 1074)) as [Hj|Hj].
  - replace (Z.max (ex + 1074) 0) with (ex + 1074) by lia.
    replace (Z.max (- (ex + 1074)) 0) with 0 by lia.
    change (2 ^ 0) with 1. rewrite !Z.mul_1_r.
    pose proof (pow2_pos (ex + 1074) Hj) as Tj.
    assert (Dg : Z.max (Zdigits2 (A * 2 ^ (ex + 1074) / B) - 53) 0 = e1 + 1074).
    { destruct (Z.eqb_spec (A / B) 0) as [Z0|N0].
      - rewrite Z0 in He1. simpl in He1.
        assert (ex = -1074) by lia. subst ex. change (2 ^ (-1074 + 1074)) with 1.
        rewrite Z.mul_1_r, Z0. simpl. lia.
      - rewrite Zdigits2_mul_pow2_div by lia. lia. }
    rewrite Dg.
    replace (2 ^ (e1 + 1074)) with (2 ^ (ex + 1074) * 2 ^ (e1 - ex))
      by (rewrite <- Z.pow_add_r by lia; f_equal; lia).
    rewrite (Z.mul_comm A), (Z.mul_assoc B), (Z.mul_comm B (2 ^ (ex + 1074))), <- Z.mul_assoc.
    rewrite rne_scale; [reflexivity|lia|].
    apply Z.mul_pos_pos; [lia|apply pow2_pos; lia].
  - replace (Z.max (ex + 1074) 0) with 0 by lia.
    replace (Z.max (- (ex + 1074)) 0) with (- (ex + 1074)) by lia.
    change (2 ^ 0) with 1. rewrite !Z.mul_1_r.
    pose proof (pow2_pos (- (ex + 1074)) ltac:(lia)) as Tj.
    rewrite <- Z.div_div by lia.
    rewrite Zdigits2_div_pow2 by lia.
    replace (Z.max (Z.max (Zdigits2 (A / B) - - (ex + 1074)) 0 - 53) 0) with (e1 + 1074) by lia.
    rewrite <- Z.mul_assoc, <- Z.pow_add_r by lia.
    replace (- (ex + 1074) + (e1 + 1074)) with (e1 - ex) by lia.
    reflexivity.
Qed.

(** What [binary_round_aux] returns for a non-negative quotient. *)
Lemma binary_round_aux_G (A B ex : Z) :
  0 <= A -> 0 < B ->
  ex <= fexp prec emax (Zdigits2 (A / B) + ex) ->
  let r := binary_round_aux prec emax false (A / B) ex (loc (A mod B) B) in
  nn r /\
  ival r = Z.min TOP (G (A * 2 ^ Z.max (ex + 1074) 0) (B * 2 ^ Z.max (- (ex + 1074)) 0)).
Proof.
  intros HA HB Hex r.
  destruct (binary_round_aux_quotient false A B ex HA HB Hex) as (E & Hm & Hn & He).
  unfold r. rewrite E. split; [split|].
  - apply encode_valid; assumption.
  - apply encode_nonneg; lia.
  - rewrite encode_ival by assumption. f_equal. apply rne_G; assumption.
Qed.

Lemma new_location_loc (B r : Z) : 0 < B -> 0 <= r < B -> new_location B r = loc r B.
Proof.
  intros HB Hr. unfold new_location, new_location_even, new_location_odd, loc.
  destruct (Z.even B) eqn:Ev; [reflexivity|].
  destruct (Z.eqb_spec r 0); [reflexivity|]. f_equal.
  assert (Od : Z.odd B = true) by (rewrite <- Z.negb_even, Ev; reflexivity).
  apply Z.odd_spec in Od. destruct Od as [k Hk].
  destruct (Z.compare_spec (2 * r + 1) B); destruct (Z.compare_spec (2 * r) B);
    try reflexivity; lia.
Qed.

(** *** Division and multiplication of non-negative floats *)

Lemma pow2_eq (a b : Z) : a = b -> 2 ^ a = 2 ^ b.
Proof. intros ->. reflexivity. Qed.

Lemma SFdiv_finite_G (ma mc : positive) (ea ec : Z) :
  valid_binary prec emax (S754_finite false ma ea) = true ->
  valid_binary prec emax (S754_finite false mc ec) = true ->
  let r := SFdiv prec emax (S754_finite false ma ea) (S754_finite false mc ec) in
  nn r /\
  ival r = Z.min TOP (G (ival (S754_finite false ma ea) * 2 ^ 1074)
                        (ival (S754_finite false mc ec))).
Proof.
  intros Va Vc r.
  apply valid_finite_bounds in Va, Vc.
  destruct Va as (Hea & _ & _), Vc as (Hec & _ & _).
  unfold r, SFdiv, SFdiv_core_binary. cbn [xorb].
  set (d1 := Zdigits2 (Zpos ma)). set (d2 := Zdigits2 (Zpos mc)).
  set (e' := Z.min (fexp prec emax (d1 + ea - (d2 + ec))) (ea - ec)).
  set (s := ea - ec - e').
  assert (Hs : 0 <= s) by (unfold s, e'; lia).
  pose proof (pow2_pos s Hs) as Ts.
  set (A := Zpos ma * 2 ^ s).
  assert (Em : match s with Z.pos _ => Z.shiftl (Zpos ma) s | 0 => Zpos ma | Z.neg _ => 0 end = A).
  { unfold A. destruct s as [|p|p] eqn:Es; [change (2 ^ 0) with 1; lia| |lia].
    rewrite Z.shiftl_mul_pow2 by lia. reflexivity. }
  rewrite Em.
  assert (HA : 0 < A) by (unfold A; nia).
  assert (Ed : Z.div_eucl A (Zpos mc) = (A / Zpos mc, A mod Zpos mc)).
  { unfold Z.div, Z.modulo. destruct (Z.div_eucl A (Zpos mc)). reflexivity. }
  rewrite Ed.
  pose proof (Z.mod_pos_bound A (Zpos mc) ltac:(lia)) as Rm.
  rewrite new_location_loc by lia.
  (* the quotient has enough digits *)
  pose proof (Zdigits2_bounds (Zpos ma) ltac:(lia)) as B1. fold d1 in B1.
  pose proof (Zdigits2_bounds (Zpos mc) ltac:(lia)) as B2. fold d2 in B2.
  pose proof (Zdigits2_pos (Zpos ma) ltac:(lia)) as P1. fold d1 in P1.
  pose proof (Zdigits2_pos (Zpos mc) ltac:(lia)) as P2. fold d2 in P2.
  assert (Hq : 0 <= A / Zpos mc) by (apply Z.div_pos; lia).
  assert (Dq : d1 + s - d2 <= Zdigits2 (A / Zpos mc)).
  { pose proof (Zdigits2_nonneg (A / Zpos mc)).
    destruct (Z.le_gt_cases (d1 + s - d2) 0) as [|Gt]; [lia|].
    replace (d1 + s - d2) with (d1 + s - d2 - 1 + 1) by lia.
    apply Zdigits2_ge_pow; [lia|].
    apply Z.div_le_lower_bound; [lia|].
    pose proof (pow2_pos (d1 + s - d2 - 1) ltac:(lia)).
    assert (2 ^ (d1 - 1) * 2 ^ s = 2 ^ (d1 + s - d2 - 1) * 2 ^ d2)
      by (rewrite <- !Z.pow_add_r by lia; apply pow2_eq; lia).
    unfold A. nia. }
  assert (Hex : e' <= fexp prec emax (Zdigits2 (A / Zpos mc) + e')).
  { rewrite fexp_eq. unfold e' at 1. rewrite fexp_eq. unfold s in Dq. lia. }
  destruct (binary_round_aux_G A (Zpos mc) e' ltac:(lia) ltac:(lia) Hex) as [N I].
  split; [exact N|]. rewrite I. f_equal.
  pose proof (pow2_pos (Z.max (e' + 1074) 0) ltac:(lia)).
  pose proof (pow2_pos (Z.max (- (e' + 1074)) 0) ltac:(lia)).
  pose proof (pow2_pos (ea + 1074) ltac:(lia)).
  pose proof (pow2_pos (ec + 1074) ltac:(lia)).
  apply G_frac_eq; unfold ival; try nia.
  unfold A.
  assert (Pw : 2 ^ s * 2 ^ Z.max (e' + 1074) 0 * 2 ^ (ec + 1074) =
               2 ^ (ea + 1074) * 2 ^ 1074 * 2 ^ Z.max (- (e' + 1074)) 0).
  { rewrite <- !Z.pow_add_r by lia. apply pow2_eq. unfold s. lia. }
  transitivity (Zpos ma * Zpos mc * (2 ^ s * 2 ^ Z.max (e' + 1074) 0 * 2 ^ (ec + 1074))); [ring|].
  rewrite Pw. ring.
Qed.

Lemma Zdigits2_mul (a b : Z) :
  0 < a -> 0 < b -> Zdigits2 a + Zdigits2 b - 1 <= Zdigits2 (a * b).
Proof.
  intros Ha Hb.
  pose proof (Zdigits2_bounds a Ha) as Ba. pose proof (Zdigits2_bounds b Hb) as Bb.
  pose proof (Zdigits2_pos a Ha). pose proof (Zdigits2_pos b Hb).
  replace (Zdigits2 a + Zdigits2 b - 1) with (Zdigits2 a - 1 + (Zdigits2 b - 1) + 1) by lia.
  apply Zdigits2_ge_pow; [lia|].
  rewrite Z.pow_add_r by lia.
  pose proof (pow2_pos (Zdigits2 a - 1) ltac:(lia)).
  pose proof (pow2_pos (Zdigits2 b - 1) ltac:(lia)). nia.
Qed.

Lemma SFmul_finite_G (ma mc : positive) (ea ec : Z) :
  valid_binary prec emax (S754_finite false ma ea) = true ->
  valid_binary prec emax (S754_finite false mc ec) = true ->
  let r := SFmul prec emax (S754_finite false ma ea) (S754_finite false mc ec) in
  nn r /\
  ival r = Z.min TOP (G (ival (S754_finite false ma ea) * ival (S754_finite false mc ec))
                        (2 ^ 1074)).
Proof.
  intros Va Vc r.
  pose proof (proj1 (valid_finite _ _ _) Va) as [Ca _].
  pose proof (proj1 (valid_finite _ _ _) Vc) as [Cc _].
  apply valid_finite_bounds in Va, Vc.
  destruct Va as (Hea & _ & _), Vc as (Hec & _ & _).
  unfold r, SFmul. cbn [xorb].
  set (A := Zpos (ma * mc)).
  assert (HA : 0 < A) by (unfold A; lia).
  pose proof (Zdigits2_mul (Zpos ma) (Zpos mc) ltac:(lia) ltac:(lia)) as Dm.
  pose proof (Zdigits2_pos (Zpos ma) ltac:(lia)) as P1.
  pose proof (Zdigits2_pos (Zpos mc) ltac:(lia)) as P2.
  change (Zpos ma * Zpos mc) with A in Dm.
  assert (E1 : A / 1 = A) by apply Z.div_1_r.
  assert (Hex : ea + ec <= fexp prec emax (Zdigits2 (A / 1) + (ea + ec))).
  { rewrite E1, fexp_eq. lia. }
  pose proof (binary_round_aux_G A 1 (ea + ec) ltac:(lia) ltac:(lia) Hex) as H.
  rewrite E1, Z.mod_1_r in H. change (loc 0 1) with loc_Exact in H.
  destruct H as [N I]. split; [exact N|]. rewrite I. f_equal.
  pose proof (pow2_pos (Z.max (ea + ec + 1074) 0) ltac:(lia)).
  pose proof (pow2_pos (Z.max (- (ea + ec + 1074)) 0) ltac:(lia)).
  pose proof (pow2_pos (ea + 1074) ltac:(lia)).
  pose proof (pow2_pos (ec + 1074) ltac:(lia)).
  apply G_frac_eq; unfold ival; try nia.
  unfold A. rewrite Pos2Z.inj_mul.
  assert (Pw : 2 ^ Z.max (ea + ec + 1074) 0 * 2 ^ 1074 =
               2 ^ (ea + 1074) * 2 ^ (ec + 1074) * 2 ^ Z.max (- (ea + ec + 1074)) 0).
  { rewrite <- !Z.pow_add_r by lia. apply pow2_eq. lia. }
  transitivity (Zpos ma * Zpos mc * (2 ^ Z.max (ea + ec + 1074) 0 * 2 ^ 1074)); [ring|].
  rewrite Pw. ring.
Qed.

Lemma fin_pos_ival (c : spec_float) : fin_pos c -> 0 < ival c < TOP.
Proof.
  intros (m & e & -> & V). now apply nn_finite_lt_TOP.
Qed.

Lemma nn_cases (x : spec_float) :
  nn x ->
  (exists s, x = S754_zero s) \/ fin_pos x \/ x = S754_infinity false.
Proof.
  intros [V N]. destruct x as [s|s| |s m e]; simpl in N.
  - left. now exists s.
  - subst. right; right; reflexivity.
  - destruct N.
  - subst. right; left. now exists m, e.
Qed.

Lemma nn_of_ival (x : spec_float) : nn x -> 0 < ival x < TOP -> fin_pos x.
Proof.
  intros N H. destruct (nn_cases x N) as [[s ->]|[F| ->]]; [simpl in H; lia|exact F|].
  simpl in H. lia.
Qed.

Lemma div_nn (a c : spec_float) :
  nn a -> fin_pos c ->
  nn (div a c) /\
  ival (div a c) =
    match a with
    | S754_infinity _ => TOP
    | _ => Z.min TOP (G (ival a * 2 ^ 1074) (ival c))
    end.
Proof.
  intros Na Fc. pose proof (fin_pos_ival c Fc) as Ic.
  destruct Fc as (mc & ec & -> & Vc).
  destruct (nn_cases a Na) as [[s ->]|[(ma & ea & -> & Va)| ->]].
  - unfold div, SFdiv. split; [split; [reflexivity|exact I]|].
    cbn [ival] in *. rewrite Z.mul_0_l, G_0 by lia. unfold TOP. lia.
  - apply SFdiv_finite_G; assumption.
  - unfold div, SFdiv. cbn [xorb]. split; [split; reflexivity|reflexivity].
Qed.

Lemma mul_nn (a c : spec_float) :
  nn a -> fin_pos c ->
  nn (mul a c) /\
  ival (mul a c) =
    match a with
    | S754_infinity _ => TOP
    | _ => Z.min TOP (G (ival a * ival c) (2 ^ 1074))
    end.
Proof.
  intros Na Fc. pose proof (fin_pos_ival c Fc) as Ic.
  destruct Fc as (mc & ec & -> & Vc).
  destruct (nn_cases a Na) as [[s ->]|[(ma & ea & -> & Va)| ->]].
  - unfold mul, SFmul. split; [split; [reflexivity|exact I]|].
    cbn [ival] in *. rewrite Z.mul_0_l, G_0 by lia. unfold TOP. lia.
  - apply SFmul_finite_G; assumption.
  - unfold mul, SFmul. cbn [xorb]. split; [split; reflexivity|reflexivity].
Qed.

Lemma ival_inf_or_lt (a : spec_float) :
  nn a -> (exists s, a = S754_infinity s) \/ (ival a < TOP /\ forall s, a <> S754_infinity s).
Proof.
  intros N. destruct (nn_cases a N) as [[s ->]|[F| ->]].
  - right. split; [unfold TOP; simpl; lia|discriminate].
  - right. split; [apply (fin_pos_ival a F)|]. destruct F as (m & e & -> & _). discriminate.
  - left. now exists false.
Qed.

(** Division and multiplication by a positive finite float are monotone on
    the non-negative floats. *)
Lemma div_le (a b c : spec_float) :
  nn a -> nn b -> fin_pos c -> ival a <= ival b -> ival (div a c) <= ival (div b c).
Proof.
  intros Na Nb Fc H.
  destruct (div_nn a c Na Fc) as [Nra Ia], (div_nn b c Nb Fc) as [Nrb Ib].
  pose proof (fin_pos_ival c Fc) as Ic.
  pose proof (nn_ival_bounds a Na) as Ba.
  destruct (ival_inf_or_lt b Nb) as [[s ->]|[Lb Nib]].
  - rewrite Ib. apply (nn_ival_bounds _ Nra).
  - destruct (ival_inf_or_lt a Na) as [[s ->]|[La Nia]]; [simpl in H; lia|].
    assert (Ea : ival (div a c) = Z.min TOP (G (ival a * 2 ^ 1074) (ival c)))
      by (rewrite Ia; destruct a; try reflexivity; exfalso; eapply Nia; reflexivity).
    assert (Eb : ival (div b c) = Z.min TOP (G (ival b * 2 ^ 1074) (ival c)))
      by (rewrite Ib; destruct b; try reflexivity; exfalso; eapply Nib; reflexivity).
    rewrite Ea, Eb. apply Z.min_le_compat_l.
    apply G_le; try lia. pose proof (pow2_pos 1074 ltac:(lia)). nia.
Qed.

Lemma mul_le (a b c : spec_float) :
  nn a -> nn b -> fin_pos c -> ival a <= ival b -> ival (mul a c) <= ival (mul b c).
Proof.
  intros Na Nb Fc H.
  destruct (mul_nn a c Na Fc) as [Nra Ia], (mul_nn b c Nb Fc) as [Nrb Ib].
  pose proof (fin_pos_ival c Fc) as Ic.
  pose proof (nn_ival_bounds a Na) as Ba.
  destruct (ival_inf_or_lt b Nb) as [[s ->]|[Lb Nib]].
  - rewrite Ib. apply (nn_ival_bounds _ Nra).
  - destruct (ival_inf_or_lt a Na) as [[s ->]|[La Nia]]; [simpl in H; lia|].
    assert (Ea : ival (mul a c) = Z.min TOP (G (ival a * ival c) (2 ^ 1074)))
      by (rewrite Ia; destruct a; try reflexivity; exfalso; eapply Nia; reflexivity).
    assert (Eb : ival (mul b c) = Z.min TOP (G (ival b * ival c) (2 ^ 1074)))
      by (rewrite Ib; destruct b; try reflexivity; exfalso; eapply Nib; reflexivity).
    rewrite Ea, Eb. apply Z.min_le_compat_l.
    pose proof (pow2_pos 1074 ltac:(lia)).
    apply G_le; try lia; nia.
Qed.

(** *** Integers as floats *)

Lemma G_pow2 (k : Z) : 0 <= k -> G (2 ^ k) 1 = 2 ^ k.
Proof.
  intros Hk. unfold G. rewrite Z.div_1_r.
  pose proof (pow2_pos k Hk) as Tk.
  assert (D : Zdigits2 (2 ^ k) = k + 1).
  { apply Zdigits2_unique; [|lia]. replace (k + 1 - 1) with k by lia.
    rewrite Z.pow_add_r by lia. change (2 ^ 1) with 2. lia. }
  rewrite D. set (g := Z.max (k + 1 - 53) 0).
  assert (0 <= g <= k) by lia.
  pose proof (pow2_pos g ltac:(lia)).
  replace (2 ^ k) with (2 ^ (k - g) * (1 * 2 ^ g)) at 1
    by (rewrite Z.mul_1_l, <- Z.pow_add_r by lia; apply pow2_eq; lia).
  rewrite rne_exact by lia.
  rewrite <- Z.pow_add_r by lia. apply pow2_eq. lia.
Qed.

Lemma of_Z_G (n : Z) :
  0 < n -> nn (of_Z n) /\ ival (of_Z n) = Z.min TOP (G (n * 2 ^ 1074) 1).
Proof.
  intros Hn. destruct n as [|p|p]; try lia.
  unfold of_Z, binary_normalize, binary_round, shl_align.
  rewrite Z.add_0_r, Z.sub_0_r.
  change (Zpos (digits2_pos p)) with (Zdigits2 (Zpos p)).
  pose proof (Zdigits2_pos (Zpos p) ltac:(lia)) as Pd.
  pose proof (pow2_pos 1074 ltac:(lia)) as T.
  destruct (fexp prec emax (Zdigits2 (Zpos p))) as [|d|d] eqn:Ef.
  - assert (E1 : Zpos p / 1 = Zpos p) by apply Z.div_1_r.
    assert (Hex : 0 <= fexp prec emax (Zdigits2 (Zpos p / 1) + 0)).
    { rewrite E1, Z.add_0_r, Ef. lia. }
    pose proof (binary_round_aux_G (Zpos p) 1 0 ltac:(lia) ltac:(lia) Hex) as H.
    rewrite E1, Z.mod_1_r in H. change (loc 0 1) with loc_Exact in H.
    destruct H as [N I]. split; [exact N|]. rewrite I. reflexivity.
  - assert (E1 : Zpos p / 1 = Zpos p) by apply Z.div_1_r.
    assert (Hex : 0 <= fexp prec emax (Zdigits2 (Zpos p / 1) + 0)).
    { rewrite E1, Z.add_0_r, Ef. lia. }
    pose proof (binary_round_aux_G (Zpos p) 1 0 ltac:(lia) ltac:(lia) Hex) as H.
    rewrite E1, Z.mod_1_r in H. change (loc 0 1) with loc_Exact in H.
    destruct H as [N I]. split; [exact N|]. rewrite I. reflexivity.
  - change (Pos.iter xO p d) with (shift_pos d p).
    assert (Es : Zpos (shift_pos d p) = Zpos p * 2 ^ Zpos d).
    { rewrite shift_pos_correct, Z.pow_pos_fold. ring. }
    pose proof (pow2_pos (Zpos d) ltac:(lia)) as Td.
    set (A := Zpos (shift_pos d p)) in *.
    assert (E1 : A / 1 = A) by apply Z.div_1_r.
    assert (Dg : Zdigits2 A = Zdigits2 (Zpos p) + Zpos d).
    { rewrite Es. rewrite <- (Z.div_1_r (Zpos p * 2 ^ Zpos d)).
      rewrite Zdigits2_mul_pow2_div by (rewrite ?Z.div_1_r; lia).
      rewrite Z.div_1_r. reflexivity. }
    assert (Hex : Zneg d <= fexp prec emax (Zdigits2 (A / 1) + Zneg d)).
    { rewrite E1, Dg. replace (Zdigits2 (Zpos p) + Zpos d + Zneg d) with (Zdigits2 (Zpos p)) by lia.
      rewrite Ef. lia. }
    pose proof (binary_round_aux_G A 1 (Zneg d) ltac:(lia) ltac:(lia) Hex) as H.
    rewrite E1, Z.mod_1_r in H. change (loc 0 1) with loc_Exact in H.
    destruct H as [N I]. split; [exact N|]. rewrite I. f_equal.
    assert (Hd : Zpos d <= 1074) by (rewrite fexp_eq in Ef; lia).
    pose proof (pow2_pos (Z.max (Zneg d + 1074) 0) ltac:(lia)).
    pose proof (pow2_pos (Z.max (- (Zneg d + 1074)) 0) ltac:(lia)).
    apply G_frac_eq; try nia.
    rewrite Es.
    replace (Z.max (- (Zneg d + 1074)) 0) with 0 by lia.
    replace (Z.max (Zneg d + 1074) 0) with (1074 - Zpos d) by lia.
    change (2 ^ 0) with 1.
    replace (2 ^ 1074) with (2 ^ Zpos d * 2 ^ (1074 - Zpos d))
      by (rewrite <- Z.pow_add_r by lia; apply pow2_eq; lia).
    ring.
Qed.

Lemma of_Z_fin_pos (n : Z) : 0 < n < 2 ^ 63 -> fin_pos (of_Z n).
Proof.
  intros Hn. destruct (of_Z_G n ltac:(lia)) as [N I].
  apply nn_of_ival; [exact N|]. rewrite I.
  pose proof (pow2_pos 1074 ltac:(lia)) as T.
  assert (0 < G (n * 2 ^ 1074) 1) by (apply G_pos; nia).
  assert (G (n * 2 ^ 1074) 1 <= G (2 ^ (63 + 1074)) 1).
  { apply G_le; try lia; rewrite Z.pow_add_r by lia; nia. }
  rewrite G_pow2 in H0 by lia.
  assert (2 ^ (63 + 1074) < TOP) by (unfold TOP; apply Z.pow_lt_mono_r; lia).
  lia.
Qed.

(** *** Truncation and comparison *)

Lemma trunc_ival (x : spec_float) :
  nn x -> (forall s, x <> S754_infinity s) -> trunc x = Some (ival x / 2 ^ 1074).
Proof.
  intros N Ninf. pose proof (pow2_pos 1074 ltac:(lia)) as T.
  destruct (nn_cases x N) as [[s ->]|[(m & e & -> & V)| ->]].
  - reflexivity.
  - apply valid_finite_bounds in V. destruct V as (He & _ & _).
    unfold trunc, ival. f_equal. destruct e as [|k|k].
    + rewrite Z.shiftl_0_r. change (0 + 1074) with 1074. now rewrite Z.div_mul by lia.
    + rewrite Z.shiftl_mul_pow2 by lia. rewrite Z.pow_add_r by lia.
      rewrite Z.mul_assoc. now rewrite Z.div_mul by lia.
    + rewrite Z.shiftr_div_pow2 by lia.
      replace (2 ^ 1074) with (2 ^ Zpos k * 2 ^ (Zneg k + 1074))
        by (rewrite <- Z.pow_add_r by lia; apply pow2_eq; lia).
      pose proof (pow2_pos (Zneg k + 1074) ltac:(lia)).
      pose proof (pow2_pos (Zpos k) ltac:(lia)).
      rewrite Z.div_mul_cancel_r by lia. reflexivity.
  - exfalso. eapply Ninf. reflexivity.
Qed.

Lemma finite_lt_exp (m1 m2 : positive) (e1 e2 : Z) :
  valid_binary prec emax (S754_finite false m1 e1) = true ->
  valid_binary prec emax (S754_finite false m2 e2) = true ->
  e1 < e2 ->
  ival (S754_finite false m1 e1) < ival (S754_finite false m2 e2).
Proof.
  intros V1 V2 H. apply valid_finite_bounds in V1, V2.
  destruct V1 as (He1 & Hm1 & _), V2 as (He2 & _ & Hn2).
  unfold ival. specialize (Hn2 ltac:(lia)).
  pose proof (pow2_pos (e1 + 1074) ltac:(lia)).
  pose proof (pow2_pos (e2 + 1074) ltac:(lia)).
  assert (2 ^ (e1 + 1074 + 1) <= 2 ^ (e2 + 1074)) by (apply Z.pow_le_mono_r; lia).
  rewrite Z.pow_add_r in H2 by lia. change (2 ^ 1) with 2 in H2.
  change (2 ^ 53) with (2 * 2 ^ 52) in Hm1.
  pose proof (pow2_pos 52 ltac:(lia)). nia.
Qed.

Lemma leb_ival (x y : spec_float) :
  nn x -> nn y -> leb x y = true -> ival x <= ival y.
Proof.
  intros Nx Ny H.
  pose proof (nn_ival_bounds x Nx). pose proof (nn_ival_bounds y Ny).
  destruct (nn_cases x Nx) as [[s ->]|[(m1 & e1 & -> & V1)| ->]];
    destruct (nn_cases y Ny) as [[s' ->]|[(m2 & e2 & -> & V2)| ->]];
    cbn [ival] in *; try lia; try discriminate.
  unfold leb, SFleb, SFcompare in H.
  destruct (Z.compare_spec e1 e2).
  - subst. destruct (Pos.compare_cont Eq m1 m2) eqn:C; try discriminate.
    + apply Pos.compare_eq in C. subst. lia.
    + change (Pos.compare_cont Eq m1 m2) with (Pos.compare m1 m2) in C.
      rewrite Pos.compare_lt_iff in C.
      apply valid_finite_bounds in V1.
      pose proof (pow2_pos (e2 + 1074) ltac:(lia)).
      apply Z.mul_le_mono_nonneg_r; lia.
  - pose proof (finite_lt_exp m1 m2 e1 e2 V1 V2 H2). cbn [ival] in *. lia.
  - discriminate.
Qed.

Lemma ltb_ival (x y : spec_float) :
  nn x -> nn y -> ltb x y = true -> ival x < ival y.
Proof.
  intros Nx Ny H.
  destruct (nn_cases x Nx) as [[s ->]|[(m1 & e1 & -> & V1)| ->]];
    destruct (nn_cases y Ny) as [[s' ->]|[(m2 & e2 & -> & V2)| ->]];
    try discriminate.
  - apply (nn_finite_lt_TOP _ _ _ V2).
  - cbn [ival]. unfold TOP. apply pow2_pos. lia.
  - unfold ltb, SFltb, SFcompare in H.
    destruct (Z.compare_spec e1 e2); try discriminate.
    + subst. change (Pos.compare_cont Eq m1 m2) with (Pos.compare m1 m2) in H.
      destruct (Pos.compare m1 m2) eqn:C; try discriminate.
      rewrite Pos.compare_lt_iff in C.
      apply valid_finite_bounds in V1.
      pose proof (pow2_pos (e2 + 1074) ltac:(lia)). cbn [ival].
      apply Z.mul_lt_mono_pos_r; lia.
    + apply finite_lt_exp; assumption.
  - apply (nn_finite_lt_TOP _ _ _ V1).
Qed.

Lemma leb_nn (x y : spec_float) :
  nn x -> valid_binary prec emax y = true -> leb x y = true -> nn y.
Proof.
  intros Nx Vy H. split; [exact Vy|].
  destruct (nn_cases x Nx) as [[s ->]|[(m1 & e1 & -> & V1)| ->]];
    destruct y as [s'|s'| |s' m2 e2]; try discriminate; try exact I;
    destruct s'; try reflexivity; discriminate.
Qed.

(** ** Machine integers *)

Lemma int32_id (z : Z) : is_int32 z -> int32 z = z.
Proof.
  unfold is_int32, int32. intros H.
  rewrite Z.mod_small; lia.
Qed.

Lemma int32_range (z : Z) : is_int32 (int32 z).
Proof.
  unfold is_int32, int32.
  pose proof (Z.mod_pos_bound (z + 2 ^ 31) (2 ^ 32) ltac:(lia)). lia.
Qed.

Lemma in_int32_true (z : Z) : in_int32 z = true <-> is_int32 z.
Proof. unfold in_int32, is_int32. lia. Qed.

(** Storing an [int32] in a [uint32] cell and reading it back as [int32]
    gives the value again. *)
Lemma int32_uint32 (z : Z) : is_int32 z -> int32 (uint32 z) = z.
Proof.
  unfold is_int32, int32, uint32. intros H.
  rewrite Zplus_mod_idemp_l. rewrite Z.mod_small; lia.
Qed.

Lemma int32_of_float64_range (x : float64) : is_int32 (int32_of_float64 x).
Proof.
  unfold int32_of_float64.
  destruct (trunc x) as [z|]; [destruct (in_int32 z) eqn:E|];
    auto using int32_range.
  now apply in_int32_true.
Qed.

(** ** shiftAddr *)

(** C6: for a driver with channel index 2, addresses in [0x10,0x11] are
    shifted by +0x08, addresses in [0x20,0x3C] by +0x20 and addresses in
    [0x6A,0x6F] by +0x10, every other address is unchanged; for channel
    index 1 every address is unchanged. *)
Theorem shiftAddr_channels (m : Motor) (addr : Z) :
  (index m = 2 ->
     (0x10 <= addr <= 0x11 -> shiftAddr m addr = addr + 0x08) /\
     (0x20 <= addr <= 0x3C -> shiftAddr m addr = addr + 0x20) /\
     (0x6A <= addr <= 0x6F -> shiftAddr m addr = addr + 0x10) /\
     (~ 0x10 <= addr <= 0x11 -> ~ 0x20 <= addr <= 0x3C -> ~ 0x6A <= addr <= 0x6F ->
      shiftAddr m addr = addr)) /\
  (index m = 1 -> shiftAddr m addr = addr).
Proof.
  unfold shiftAddr, uint8. split.
  - intros ->. rewrite Z.eqb_refl.
    repeat split; intros;
      repeat match goal with
             | |- context [if ?b then _ else _] => destruct b eqn:?
             end; try lia; rewrite Z.mod_small; lia.
  - intros ->. reflexivity.
Qed.

(** A shifted register address of the register map stays below [0x80],
    the write flag. *)
Lemma shiftAddr_small (m : Motor) (addr : Z) :
  0 <= addr <= 0x6F -> 0 <= shiftAddr m addr < 0x80.
Proof.
  unfold shiftAddr, uint8. intros H.
  repeat match goal with
         | |- context [if ?b then _ else _] => destruct b eqn:?
         end; try lia; rewrite Z.mod_small; lia.
Qed.

(** ** mergeRampParameters *)

Lemma mergeRampParameters_fields (b o : rampParameters) :
  mergeRampParameters b o =
  mkRamp (match VStart o with Some v => Some v | None => VStart b end)
         (match VStop o with Some v => Some v | None => VStop b end)
         (match V1 o with Some v => Some v | None => V1 b end)
         (match A1 o with Some v => Some v | None => A1 b end)
         (match D1 o with Some v => Some v | None => D1 b end)
         (match VMax o with Some v => Some v | None => VMax b end)
         (match AMax o with Some v => Some v | None => AMax b end)
         (match DMax o with Some v => Some v | None => DMax b end).
Proof.
  destruct b as [b1 b2 b3 b4 b5 b6 b7 b8], o as [[?|] [?|] [?|] [?|] [?|] [?|] [?|] [?|]];
    reflexivity.
Qed.

(** C7: merging is idempotent, the empty override is a right identity, and
    the body never assigns to its [base] (nor to its [override]). *)
Theorem mergeRampParameters_idempotent_identity :
  (forall b o, mergeRampParameters (mergeRampParameters b o) o = mergeRampParameters b o) /\
  (forall b, mergeRampParameters b emptyRamp = b) /\
  (forall f, base (mergeBody f) = base f /\ override (mergeBody f) = override f).
Proof.
  split; [|split].
  - intros b o. rewrite !mergeRampParameters_fields.
    destruct o as [[?|] [?|] [?|] [?|] [?|] [?|] [?|] [?|]]; reflexivity.
  - intros b. rewrite mergeRampParameters_fields. now destruct b.
  - intros f.
    destruct f as [b [[?|] [?|] [?|] [?|] [?|] [?|] [?|] [?|]] r]; split; reflexivity.
Qed.

(** ** validate *)

Lemma checkRange_None (name : string) (val : option Z) (min max : Z) :
  checkRange name val min max = None <-> ~ outside (name, val, min, max).
Proof.
  unfold checkRange, outside. destruct val as [v|]; [|tauto].
  destruct ((v >? max) || (v <? min)) eqn:E; split; intros H; try discriminate; try lia.
  reflexivity.
Qed.

Lemma checkRange_Some (name : string) (val : option Z) (min max : Z) (e : error) :
  checkRange name val min max = Some e ->
  outside (name, val, min, max) /\ rangeError (name, val, min, max) = Some e.
Proof.
  unfold checkRange, outside, rangeError. destruct val as [v|]; [|discriminate].
  destruct ((v >? max) || (v <? min)) eqn:E; intros H; inversion H; subst.
  split; [lia|reflexivity].
Qed.

(** C9: [validate] returns a range error exactly when a present field lies
    outside its inclusive range, whose lower bound is 1 for [v_stop] and
    [d1] and 0 for the other six fields; the error names such a field, its
    bounds and its value.  So 0 passes for [v_start], [v1], [v_max], [a1],
    [a_max] and [d_max] and is refused for [v_stop] and for [d1]. *)
Theorem validate_ranges (rp : rampParameters) :
  (validate (Some rp) = None <-> Forall (fun c => ~ outside c) (rampRanges rp)) /\
  (forall e, validate (Some rp) = Some e ->
     exists c, In c (rampRanges rp) /\ outside c /\ rangeError c = Some e) /\
  validate (Some (mkRamp (Some 0) None (Some 0) (Some 0) None (Some 0) (Some 0) (Some 0))) = None /\
  validate (Some (set_VStop emptyRamp (Some 0))) = Some (ErrRange "v_stop" 1 (2 ^ 18 - 1) 0) /\
  validate (Some (set_D1 emptyRamp (Some 0))) = Some (ErrRange "d1" 1 (2 ^ 16 - 1) 0).
Proof.
  split; [|split; [|repeat split]].
  - unfold validate, rampRanges. split.
    + intros H.
      repeat match type of H with
             | match checkRange ?n ?v ?lo ?hi with _ => _ end = None =>
                 let E := fresh "E" in
                 destruct (checkRange n v lo hi) eqn:E; [discriminate|];
                 apply checkRange_None in E
             end.
      repeat constructor; assumption.
    + intros H.
      repeat match type of H with
             | Forall _ (_ :: _) =>
                 let a := fresh "a" in
                 let H' := fresh "H" in
                 apply Forall_cons_iff in H; destruct H as [a H];
                 apply checkRange_None in a; rewrite a
             end.
      reflexivity.
  - intros e H. unfold validate in H. unfold rampRanges.
    repeat match type of H with
           | match checkRange ?n ?v ?lo ?hi with _ => _ end = Some _ =>
               let E := fresh "E" in
               destruct (checkRange n v lo hi) eqn:E;
               [ inversion H; subst; apply checkRange_Some in E; destruct E;
                 eexists; split; [|split; eassumption]; simpl; tauto
               | ]
           end.
    discriminate.
Qed.

(** ** Frames on the bus *)

Lemma land_255 (z : Z) : Z.land 0xFF z = z mod 256.
Proof.
  rewrite Z.land_comm. change 0xFF with (Z.ones 8).
  rewrite Z.land_ones by lia. reflexivity.
Qed.

Lemma writeReg_buf (v : Z) (k : Z) :
  0 <= k -> Z.land 0xFF (byte_of (Z.shiftr v k)) = (v / 2 ^ k) mod 256.
Proof.
  intros Hk. rewrite land_255. unfold byte_of.
  rewrite Z.shiftr_div_pow2 by lia. now rewrite Z.mod_mod by lia.
Qed.

Lemma lor_low_byte (k b : Z) : is_byte b -> Z.lor (k * 256) b = k * 256 + b.
Proof.
  intros Hb.
  assert (E : Z.land (k * 256) b = 0).
  { apply Z.bits_inj'. intros n Hn.
    rewrite Z.land_spec, Z.bits_0.
    destruct (Z.ltb_spec n 8).
    - change 256 with (2 ^ 8). rewrite Z.mul_pow2_bits_low by lia. reflexivity.
    - replace b with (b mod 2 ^ 8) by (apply Z.mod_small; exact Hb).
      rewrite Z.mod_pow2_bits_high by lia. apply andb_false_r. }
  rewrite <- Z.lxor_lor by exact E.
  symmetry. apply Z.add_nocarry_lxor. exact E.
Qed.

Lemma int32_mul_256 (x : Z) : exists k, int32 (x * 256) = k * 256.
Proof.
  unfold int32.
  exists (x - 2 ^ 24 * ((x * 256 + 2 ^ 31) / 2 ^ 32)).
  rewrite Z.mod_eq by lia. lia.
Qed.

(** The shifts and ors of [readReg] compute the big-endian signed value. *)
Lemma decode_be_int32 (b1 b2 b3 b4 : Z) :
  is_byte b1 -> is_byte b2 -> is_byte b3 -> is_byte b4 ->
  decode b1 b2 b3 b4 = be_int32 b1 b2 b3 b4.
Proof.
  unfold is_byte. intros H1 H2 H3 H4. unfold decode, be_int32.
  rewrite !Z.shiftl_mul_pow2 by lia. change (2 ^ 8) with 256.
  rewrite (int32_id b1), (int32_id b2), (int32_id b3), (int32_id b4)
    by (unfold is_int32; lia).
  rewrite (int32_id (b1 * 256)) by (unfold is_int32; lia).
  rewrite lor_low_byte by exact H2.
  rewrite (int32_id ((b1 * 256 + b2) * 256)) by (unfold is_int32; lia).
  rewrite lor_low_byte by exact H3.
  destruct (int32_mul_256 ((b1 * 256 + b2) * 256 + b3)) as [k Hk].
  rewrite Hk, lor_low_byte by exact H4. rewrite <- Hk.
  unfold int32. Z.div_mod_to_equations. lia.
Qed.

(** ** The register protocol on the bus *)

Lemma writeReg_frame (addr v : Z) :
  [ Z.lor addr 0x80;
    Z.land 0xFF (byte_of (Z.shiftr v 24));
    Z.land 0xFF (byte_of (Z.shiftr v 16));
    Z.land 0xFF (byte_of (Z.shiftr v 8));
    Z.land 0xFF (byte_of v) ] = writeFrame addr v.
Proof.
  unfold writeFrame. rewrite !writeReg_buf by lia.
  rewrite land_255. unfold byte_of. now rewrite Z.mod_mod by lia.
Qed.

Lemma writeReg_bus (m : Motor) (addr v : Z) (w : world env) :
  opens ->
  exists r w',
    writeReg m addr v w = (Ret r, w') /\
    w_bus w' = w_bus w ++ [writeFrame (shiftAddr m addr) v].
Proof.
  intros Ho. unfold writeReg. cbv zeta. rewrite writeReg_frame.
  unfold bind, openHandle, defer, xfer, closeHandle, ret.
  pose proof (Ho (w_env w)) as E.
  destruct (OpenHandle (w_env w)) as [o e1]. cbn [fst] in E. subst o.
  cbn [w_env w_bus].
  destruct (Xfer (writeFrame (shiftAddr m addr) v) e1) as [[rx|err] e2];
    cbn [w_env w_bus]; destruct (Close e2) as [c e3]; eexists; eexists; split; reflexivity.
Qed.

(** A register read puts one or two read frames on the bus, two when it
    returns a value. *)
Lemma readReg_bus (m : Motor) (addr : Z) (w : world env) :
  opens ->
  exists r w',
    readReg m addr w = (r, w') /\
    (w_bus w' = w_bus w ++ [readFrame (shiftAddr m addr)] \/
     w_bus w' = w_bus w ++ [readFrame (shiftAddr m addr); readFrame (shiftAddr m addr)]) /\
    (forall v, r = Ret (v, None) ->
       w_bus w' = w_bus w ++ [readFrame (shiftAddr m addr); readFrame (shiftAddr m addr)]).
Proof.
  intros Ho. unfold readReg, bind, openHandle, defer, xfer, closeHandle, ret, panic.
  pose proof (Ho (w_env w)) as E.
  destruct (OpenHandle (w_env w)) as [o e1]. cbn [fst] in E. subst o. simpl.
  fold (readFrame (shiftAddr m addr)).
  destruct (Xfer (readFrame (shiftAddr m addr)) e1) as [[rx1|err1] e2]; simpl.
  - destruct (Xfer (readFrame (shiftAddr m addr)) e2) as [[rx2|err2] e3]; simpl.
    + destruct rx2 as [|b0 [|b1 [|b2 [|b3 [|b4 rest]]]]]; simpl;
        destruct (Close e3) as [c e4]; simpl; rewrite <- app_assoc; simpl;
        eexists; eexists; (split; [reflexivity|split; [right; reflexivity|]]);
        intros; reflexivity.
    + destruct (Close e3) as [c e4]; simpl; rewrite <- app_assoc; simpl.
      eexists; eexists; (split; [reflexivity|split; [right; reflexivity|]]).
      intros; reflexivity.
  - destruct (Close e2) as [c e3]; simpl.
    eexists; eexists; (split; [reflexivity|split; [left; reflexivity|]]).
    intros v H. discriminate.
Qed.

(** C2: when the handle opens and both transfers succeed, [readReg] puts
    exactly two frames on the bus, both the shifted address followed by
    four zero bytes, and returns the four payload bytes of the second reply
    as a big-endian signed 32-bit integer, whatever the first reply is. *)
Theorem readReg_two_transfers (m : Motor) (addr : Z) (w : world env)
    (e1 e2 e3 : env) (rx1 rest : list Z) (b0 b1 b2 b3 b4 : Z) :
  OpenHandle (w_env w) = (None, e1) ->
  Xfer [shiftAddr m addr; 0; 0; 0; 0] e1 = (inl rx1, e2) ->
  Xfer [shiftAddr m addr; 0; 0; 0; 0] e2 = (inl (b0 :: b1 :: b2 :: b3 :: b4 :: rest), e3) ->
  is_byte b1 -> is_byte b2 -> is_byte b3 -> is_byte b4 ->
  exists w',
    readReg m addr w = (Ret (be_int32 b1 b2 b3 b4, None), w') /\
    w_bus w' = w_bus w ++ [[shiftAddr m addr; 0; 0; 0; 0]; [shiftAddr m addr; 0; 0; 0; 0]].
Proof.
  intros Ho X1 X2 B1 B2 B3 B4.
  unfold readReg, bind, openHandle, defer, xfer, closeHandle, ret.
  rewrite Ho. simpl. rewrite X1. simpl. rewrite X2. simpl.
  destruct (Close e3) as [c e4]. simpl.
  rewrite decode_be_int32 by assumption.
  rewrite <- app_assoc. eexists. split; reflexivity.
Qed.

(** ** The unit converter *)

Lemma fin_pos_60 : fin_pos (of_Z 60).
Proof. eexists; eexists; split; reflexivity. Qed.

Lemma fin_pos_pow2_24 : fin_pos pow2_24.
Proof. eexists; eexists; split; reflexivity. Qed.

Lemma nn_zero (s : bool) : nn (S754_zero s).
Proof. split; [reflexivity|exact I]. Qed.

Lemma ltb_leb (x y : float64) : ltb x y = true -> leb x y = true.
Proof.
  unfold ltb, leb, SFltb, SFleb. destruct (SFcompare x y) as [[| |]|]; auto.
Qed.

Lemma trunc_not_inf (x : float64) (z : Z) :
  trunc x = Some z -> forall s, x <> S754_infinity s.
Proof. intros H s ->. discriminate. Qed.

(** The speed is monotone on the non-negative floats as long as it can be
    truncated at all. *)
Lemma speedOf_le (a b fClk : float64) (stepsPerRev zb : Z) :
  nn a -> nn b -> ival a <= ival b -> nn fClk -> 0 < stepsPerRev < 2 ^ 63 ->
  trunc (speedOf b fClk stepsPerRev) = Some zb ->
  exists za, trunc (speedOf a fClk stepsPerRev) = Some za /\ 0 <= za <= zb.
Proof.
  intros Na Nb Hab Nf Hs Hb. unfold speedOf in *.
  pose proof (of_Z_fin_pos stepsPerRev Hs) as FS.
  destruct (div_nn a (of_Z 60) Na fin_pos_60) as [Nua _].
  destruct (div_nn b (of_Z 60) Nb fin_pos_60) as [Nub _].
  pose proof (div_le a b (of_Z 60) Na Nb fin_pos_60 Hab) as Hu.
  destruct (mul_nn _ (of_Z stepsPerRev) Nua FS) as [Nwa _].
  destruct (mul_nn _ (of_Z stepsPerRev) Nub FS) as [Nwb _].
  pose proof (mul_le _ _ (of_Z stepsPerRev) Nua Nub FS Hu) as Hw.
  destruct (div_nn fClk pow2_24 Nf fin_pos_pow2_24) as [NT _].
  remember (mul (div a (of_Z 60)) (of_Z stepsPerRev)) as wa eqn:Ewa.
  remember (mul (div b (of_Z 60)) (of_Z stepsPerRev)) as wb eqn:Ewb.
  remember (div fClk pow2_24) as T eqn:ET'.
  clear Ewa Ewb ET'.
  pose proof (pow2_pos 1074 ltac:(lia)) as P.
  destruct (nn_cases T NT) as [[s ET]|[FT|ET]].
  - (* a zero time constant: the speed is infinite or not a number *)
    rewrite ET in Hb.
    destruct (nn_cases wb Nwb) as [[s' E]|[(m & e & E & _)|E]]; rewrite E in Hb; discriminate.
  - destruct (div_nn wa T Nwa FT) as [Nza _].
    destruct (div_nn wb T Nwb FT) as [Nzb _].
    pose proof (div_le wa wb T Nwa Nwb FT Hw) as Hz.
    pose proof (trunc_not_inf _ _ Hb) as Ninf.
    rewrite (trunc_ival _ Nzb Ninf) in Hb. inversion Hb as [Ezb].
    destruct (ival_inf_or_lt _ Nzb) as [[s E]|[Lb _]]; [exfalso; eapply Ninf; exact E|].
    assert (Na' : forall s, div wa T <> S754_infinity s).
    { intros s E. rewrite E in Hz. cbn [ival] in Hz. lia. }
    rewrite (trunc_ival _ Nza Na'). eexists. split; [reflexivity|].
    pose proof (nn_ival_bounds _ Nza).
    split; [apply Z.div_pos; lia|apply Z.div_le_mono; lia].
  - (* an infinite time constant: the speed is zero *)
    rewrite ET in *.
    destruct (nn_cases wb Nwb) as [[s' E]|[(m & e & E & V)|E]]; rewrite E in *;
      [| |discriminate]; inversion Hb; subst zb.
    + destruct (nn_cases wa Nwa) as [[s'' Ea]|[(ma & ea & Ea & Va)|Ea]]; rewrite Ea in *.
      * exists 0. split; [reflexivity|lia].
      * pose proof (nn_finite_lt_TOP _ _ _ Va). cbn [ival] in *. lia.
      * cbn [ival] in Hw. unfold TOP in Hw. lia.
    + pose proof (nn_finite_lt_TOP _ _ _ V) as Lb.
      destruct (nn_cases wa Nwa) as [[s'' Ea]|[(ma & ea & Ea & Va)|Ea]]; rewrite Ea in *.
      * exists 0. split; [reflexivity|lia].
      * exists 0. split; [reflexivity|lia].
      * cbn [ival] in Hw, Lb. lia.
Qed.

(** C8: for genuine floats with [0 <= rpm1 <= rpm2 <= maxRPM], a positive
    clock, a positive number of steps and a maximal speed that an [int32]
    holds, [rpmToV rpm1 <= rpmToV rpm2]. *)
Theorem rpmToV_monotone (rpm1 rpm2 maxRPM fClk : float64) (stepsPerRev zmax : Z) :
  valid_binary prec emax rpm1 = true ->
  valid_binary prec emax rpm2 = true ->
  valid_binary prec emax maxRPM = true ->
  valid_binary prec emax fClk = true ->
  leb zero rpm1 = true -> leb rpm1 rpm2 = true -> leb rpm2 maxRPM = true ->
  ltb zero fClk = true ->
  0 < stepsPerRev < 2 ^ 63 ->
  trunc (speedOf maxRPM fClk stepsPerRev) = Some zmax -> zmax <= 2 ^ 31 - 1 ->
  rpmToV rpm1 maxRPM fClk stepsPerRev <= rpmToV rpm2 maxRPM fClk stepsPerRev.
Proof.
  intros V1 V2 Vm Vf H01 H12 H2m Hf Hs Hmax Hz.
  pose proof (leb_nn _ _ (nn_zero false) V1 H01) as N1.
  pose proof (leb_nn _ _ N1 V2 H12) as N2.
  pose proof (leb_nn _ _ N2 Vm H2m) as Nm.
  pose proof (leb_nn _ _ (nn_zero false) Vf (ltb_leb _ _ Hf)) as Nf.
  pose proof (leb_ival _ _ N1 N2 H12) as I12.
  pose proof (leb_ival _ _ N2 Nm H2m) as I2m.
  assert (G1 : gtb rpm1 maxRPM = false).
  { destruct (gtb rpm1 maxRPM) eqn:E; [|reflexivity].
    pose proof (ltb_ival _ _ Nm N1 E). lia. }
  assert (G2 : gtb rpm2 maxRPM = false).
  { destruct (gtb rpm2 maxRPM) eqn:E; [|reflexivity].
    pose proof (ltb_ival _ _ Nm N2 E). lia. }
  unfold rpmToV. rewrite G1, G2. cbv zeta.
  fold (speedOf rpm1 fClk stepsPerRev). fold (speedOf rpm2 fClk stepsPerRev).
  destruct (speedOf_le rpm2 maxRPM fClk stepsPerRev zmax N2 Nm I2m Nf Hs Hmax)
    as (z2 & T2 & B2).
  destruct (speedOf_le rpm1 rpm2 fClk stepsPerRev z2 N1 N2 I12 Nf Hs T2)
    as (z1 & T1 & B1).
  unfold int32_of_float64. rewrite T1, T2.
  assert (in_int32 z1 = true) by (apply in_int32_true; unfold is_int32; lia).
  assert (in_int32 z2 = true) by (apply in_int32_true; unfold is_int32; lia).
  rewrite H, H0. lia.
Qed.

(** A speed of zero converts to the register value 0 whenever the maximum
    is not negative and the time constant [fClk / 2^24] is positive. *)
Lemma zero_speed (maxRPM fClk : float64) (stepsPerRev : Z) :
  ltb zero (div fClk pow2_24) = true ->
  ltb maxRPM zero = false ->
  0 < stepsPerRev < 2 ^ 63 ->
  rpmToV zero maxRPM fClk stepsPerRev = 0.
Proof.
  intros HT Hm Hs. unfold rpmToV.
  change (gtb zero maxRPM) with (ltb maxRPM zero). rewrite Hm. cbv zeta.
  destruct (of_Z_fin_pos stepsPerRev Hs) as (ms & es & ES & _).
  rewrite ES. change (div zero (of_Z 60)) with zero.
  change (mul zero (S754_finite false ms es)) with zero.
  destruct (div fClk pow2_24) as [s|s| |s mt et]; try discriminate;
    destruct s; try discriminate; reflexivity.
Qed.

Lemma Motor_rpmToV_eq (m : Motor) (rpm : float64) :
  Motor_rpmToV m rpm = rpmToV rpm (maxRPM m) (fClk m) (stepsPerRev m).
Proof. reflexivity. Qed.

(** ** initRampParameters *)

(** C1, as the code has it: start velocity 1, stop velocity 10, phase-1
    velocity the conversion of [maxRPM/4], the four accelerations and
    decelerations the conversion of [maxAcc], and max velocity the
    conversion of 0 rpm, not of [maxRPM]; read back as [int32] each field
    is the conversion itself, and the max velocity is the register value
    0 for a maximum that is not negative and a positive time constant. *)
Theorem initRampParameters_defaults (maxRPM maxAcc fClk : float64) (stepsPerRev : Z) :
  let rp := initRampParameters maxRPM maxAcc fClk stepsPerRev in
  VStart rp = Some 1 /\
  VStop rp = Some 10 /\
  V1 rp = Some (uint32 (rpmToV (div maxRPM (of_Z 4)) maxRPM fClk stepsPerRev)) /\
  A1 rp = Some (uint32 (rpmsToA maxAcc fClk stepsPerRev)) /\
  AMax rp = Some (uint32 (rpmsToA maxAcc fClk stepsPerRev)) /\
  D1 rp = Some (uint32 (rpmsToA maxAcc fClk stepsPerRev)) /\
  DMax rp = Some (uint32 (rpmsToA maxAcc fClk stepsPerRev)) /\
  VMax rp = Some (uint32 (rpmToV (of_Z 0) maxRPM fClk stepsPerRev)) /\
  int32 (uint32 (rpmToV (div maxRPM (of_Z 4)) maxRPM fClk stepsPerRev)) =
    rpmToV (div maxRPM (of_Z 4)) maxRPM fClk stepsPerRev /\
  int32 (uint32 (rpmsToA maxAcc fClk stepsPerRev)) = rpmsToA maxAcc fClk stepsPerRev /\
  (ltb zero (div fClk pow2_24) = true ->
   ltb maxRPM zero = false ->
   0 < stepsPerRev < 2 ^ 63 ->
   VMax rp = Some 0).
Proof.
  intros rp. repeat (split; [reflexivity|]).
  split; [apply int32_uint32, int32_of_float64_range|].
  split; [apply int32_uint32, int32_of_float64_range|].
  intros HT Hm Hs. unfold rp, initRampParameters. cbn [VMax].
  change (of_Z 0) with zero. rewrite zero_speed by assumption. reflexivity.
Qed.

(** ** The motion controller on the bus *)

Lemma doJog_bus (m : Motor) (rpm : float64) (w : world env) :
  opens ->
  exists r w',
    doJog m rpm w = (Ret r, w') /\
    w_bus w' = w_bus w ++
      [ writeFrame (shiftAddr m rampMode) (if ltb rpm zero then modeVelNeg else modeVelPos);
        writeFrame (shiftAddr m vMax) (Motor_rpmToV m (Abs rpm)) ].
Proof.
  intros Ho. unfold doJog. destruct (CheckSpeed rpm (maxRPM m)) as [warning err].
  destruct (writeReg_bus m rampMode (if ltb rpm zero then modeVelNeg else modeVelPos) w Ho)
    as (r1 & w1 & E1 & T1).
  destruct (writeReg_bus m vMax (Motor_rpmToV m (Abs rpm)) w1 Ho) as (r2 & w2 & E2 & T2).
  unfold bind. rewrite E1, E2. unfold ret.
  eexists; eexists; split; [reflexivity|].
  rewrite T2, T1, <- app_assoc. reflexivity.
Qed.

Lemma binary_round_aux_opp (mx ex : Z) (lx : location) :
  binary_round_aux prec emax true mx ex lx = SFopp (binary_round_aux prec emax false mx ex lx).
Proof.
  unfold binary_round_aux.
  destruct (shr_fexp prec emax mx ex lx) as [mrs' e'].
  destruct (shr_fexp prec emax _ e' loc_Exact) as [mrs'' e''].
  destruct (shr_m mrs'') as [|p|p]; try reflexivity.
  destruct (e'' <=? emax - prec); reflexivity.
Qed.

Lemma of_Z_neg (p : positive) : of_Z (Zneg p) = SFopp (of_Z (Zpos p)).
Proof.
  unfold of_Z, binary_normalize, binary_round.
  destruct (shl_align p 0 (fexp prec emax (Zpos (digits2_pos p) + 0))) as [mz ez].
  apply binary_round_aux_opp.
Qed.

(** The float of a 64-bit integer is a zero or finite. *)
Lemma of_Z_int64 (n : Z) :
  - 2 ^ 63 <= n < 2 ^ 63 ->
  match of_Z n with
  | S754_zero _ | S754_finite _ _ _ => True
  | _ => False
  end.
Proof.
  intros Hn. destruct n as [|p|p].
  - exact I.
  - destruct (of_Z_fin_pos (Zpos p) ltac:(lia)) as (ms & es & E & _). rewrite E. exact I.
  - rewrite of_Z_neg. destruct (Z.eq_dec (Zpos p) (2 ^ 63)) as [E|N].
    + rewrite E. vm_compute. exact I.
    + destruct (of_Z_fin_pos (Zpos p) ltac:(lia)) as (ms & es & E & _). rewrite E. exact I.
Qed.

(** A speed of zero converts to the register value 0 whenever the maximum
    is not negative and the time constant [fClk / 2^24] is a number other
    than zero. *)
Lemma zero_speed_any (maxRPM fClk : float64) (stepsPerRev : Z) :
  ltb zero (div fClk pow2_24) || ltb (div fClk pow2_24) zero = true ->
  ltb maxRPM zero = false ->
  - 2 ^ 63 <= stepsPerRev < 2 ^ 63 ->
  rpmToV zero maxRPM fClk stepsPerRev = 0.
Proof.
  intros HT Hm Hs. unfold rpmToV.
  change (gtb zero maxRPM) with (ltb maxRPM zero). rewrite Hm. cbv zeta.
  change (div zero (of_Z 60)) with zero.
  pose proof (of_Z_int64 stepsPerRev Hs) as HS.
  destruct (of_Z stepsPerRev) as [s|s| |s ms es]; try contradiction;
    destruct (div fClk pow2_24) as [st|st| |st mt et]; try discriminate HT;
    destruct s, st; try discriminate HT; reflexivity.
Qed.

(** C10, as the code has it: on a bus that hands out its handle, for a
    motor whose maximal rpm is not negative and whose time constant
    [fClk / 2^24] is a number other than zero, [Stop] puts exactly two
    frames on the bus, whatever the chip is doing: ramp mode set to
    velocity-forward (1), then max velocity set to 0. *)
Theorem Stop_two_writes (m : Motor) (w : world env) :
  opens ->
  ltb zero (div (fClk m) pow2_24) || ltb (div (fClk m) pow2_24) zero = true ->
  ltb (maxRPM m) zero = false ->
  - 2 ^ 63 <= stepsPerRev m < 2 ^ 63 ->
  exists r w',
    Stop m w = (Ret r, w') /\
    w_bus w' = w_bus w ++
      [ writeFrame (shiftAddr m rampMode) 1; writeFrame (shiftAddr m vMax) 0 ].
Proof.
  intros Ho HT Hm Hs. unfold Stop.
  destruct (doJog_bus m zero w Ho) as (r & w' & E & T).
  exists r, w'. split; [exact E|]. rewrite T.
  change (Abs zero) with zero. rewrite Motor_rpmToV_eq, zero_speed_any by assumption.
  reflexivity.
Qed.

(** C5: when the speed check answers a speed of exactly zero with the
    zero-rpm error, [GoFor] returns that error, which is no range or
    parsing error, and leaves the bus and the environment as they are. *)
Theorem GoFor_zero_rpm (fuel : nat) (m : Motor) (rpm rotations : float64)
    (extra : option (list (string * value))) (w : world env) :
  (forall r max, eqb r zero = true -> snd (CheckSpeed r max) = Some ErrZeroRPM) ->
  eqb rpm zero = true ->
  GoFor fuel m rpm rotations extra w = (Ret (Some ErrZeroRPM), w) /\
  (forall name min max val, ErrZeroRPM <> ErrRange name min max val) /\
  ErrZeroRPM <> ErrRampParamsNotMap.
Proof.
  intros HC Hz. split; [|split; [intros; discriminate|discriminate]].
  unfold GoFor. specialize (HC rpm (maxRPM m) Hz).
  destruct (CheckSpeed rpm (maxRPM m)) as [warning err]. simpl in HC. subst err.
  reflexivity.
Qed.

(** *** ResetZeroPosition *)

Lemma applyRampParameters_bus (m : Motor) (w : world env)
    (vvStart vvStop vv1 va1 vd1 vvMax vaMax vdMax : Z) :
  opens ->
  exists r w',
    applyRampParameters m
      (mkRamp (Some vvStart) (Some vvStop) (Some vv1) (Some va1) (Some vd1)
              (Some vvMax) (Some vaMax) (Some vdMax)) w = (Ret r, w') /\
    w_bus w' = w_bus w ++ rampFrames m va1 vaMax vd1 vdMax vvStart vvStop vv1.
Proof.
  intros Ho. unfold applyRampParameters, writeField. cbn [A1 AMax D1 DMax VStart VStop V1].
  destruct (writeReg_bus m a1 (int32 va1) w Ho) as (r1 & w1 & E1 & T1).
  destruct (writeReg_bus m aMax (int32 vaMax) w1 Ho) as (r2 & w2 & E2 & T2).
  destruct (writeReg_bus m d1 (int32 vd1) w2 Ho) as (r3 & w3 & E3 & T3).
  destruct (writeReg_bus m dMax (int32 vdMax) w3 Ho) as (r4 & w4 & E4 & T4).
  destruct (writeReg_bus m vStart (int32 vvStart) w4 Ho) as (r5 & w5 & E5 & T5).
  destruct (writeReg_bus m vStop (int32 vvStop) w5 Ho) as (r6 & w6 & E6 & T6).
  destruct (writeReg_bus m v1 (int32 vv1) w6 Ho) as (r7 & w7 & E7 & T7).
  unfold bind. rewrite E1, E2, E3, E4, E5, E6, E7. unfold ret.
  eexists; eexists; split; [reflexivity|].
  rewrite T7, T6, T5, T4, T3, T2, T1. unfold rampFrames.
  repeat rewrite <- app_assoc. reflexivity.
Qed.

Lemma IsPowered_bus (m : Motor) (w w1 : world env) (on : bool) (pct : float64) :
  opens ->
  IsPowered m w = (Ret (on, pct, None), w1) ->
  w_bus w1 = w_bus w ++ [readFrame (shiftAddr m rampStat); readFrame (shiftAddr m rampStat)].
Proof.
  intros Ho H.
  destruct (readReg_bus m rampStat w Ho) as (r & w' & E & _ & T).
  unfold IsPowered, IsMoving, IsStopped, bind in H. rewrite E in H.
  destruct r as [[stat [e|]]| |]; unfold ret in H; cbn in H; try discriminate.
  inversion H; subst. apply (T stat). reflexivity.
Qed.

(** C4, as the code has it: when the motor reports moving, the call fails
    with the state error after the two read frames of the status, no
    write frame; when it reports not moving, the call sets ramp mode to
    Hold, rewrites the seven ramp registers, and writes target and actual
    position both to [-1 * offset * stepsPerRev] converted to [int32],
    that is truncated toward zero. *)
Theorem ResetZeroPosition_writes (m : Motor) (offset : float64) (w w1 : world env)
    (on : bool) (pct : float64)
    (vvStart vvStop vv1 va1 vd1 vvMax vaMax vdMax : Z) :
  opens ->
  rampParams m = mkRamp (Some vvStart) (Some vvStop) (Some vv1) (Some va1) (Some vd1)
                        (Some vvMax) (Some vaMax) (Some vdMax) ->
  IsPowered m w = (Ret (on, pct, None), w1) ->
  let pos := int32_of_float64 (mul (mul (of_Z (-1)) offset) (of_Z (stepsPerRev m))) in
  w_bus w1 = w_bus w ++ [readFrame (shiftAddr m rampStat); readFrame (shiftAddr m rampStat)] /\
  0 <= shiftAddr m rampStat < 0x80 /\
  (on = true ->
     ResetZeroPosition m offset w = (Ret (Some (ErrMoving (motorName m))), w1)) /\
  (on = false ->
     exists r w',
       ResetZeroPosition m offset w = (Ret r, w') /\
       w_bus w' = w_bus w1 ++
         [writeFrame (shiftAddr m rampMode) modeHold] ++
         rampFrames m va1 vaMax vd1 vdMax vvStart vvStop vv1 ++
         [writeFrame (shiftAddr m xTarget) pos; writeFrame (shiftAddr m xActual) pos]) /\
  (forall z, trunc (mul (mul (of_Z (-1)) offset) (of_Z (stepsPerRev m))) = Some z ->
             is_int32 z -> pos = z).
Proof.
  intros Ho Hr Hp pos.
  split; [exact (IsPowered_bus m w w1 on pct Ho Hp)|].
  split; [apply shiftAddr_small; unfold rampStat; lia|].
  split; [|split].
  - intros ->. unfold ResetZeroPosition, bind. rewrite Hp. reflexivity.
  - intros ->. unfold ResetZeroPosition. unfold bind at 1. rewrite Hp. cbv iota beta.
    rewrite Hr. fold pos.
    destruct (writeReg_bus m rampMode modeHold w1 Ho) as (r1 & w2 & E1 & T1).
    destruct (applyRampParameters_bus m w2 vvStart vvStop vv1 va1 vd1 vvMax vaMax vdMax Ho)
      as (r2 & w3 & E2 & T2).
    destruct (writeReg_bus m xTarget pos w3 Ho) as (r3 & w4 & E3 & T3).
    destruct (writeReg_bus m xActual pos w4 Ho) as (r4 & w5 & E4 & T4).
    unfold bind. rewrite E1, E2, E3, E4. unfold ret.
    eexists; eexists; split; [reflexivity|].
    rewrite T4, T3, T2, T1. repeat rewrite <- app_assoc. reflexivity.
  - intros z Hz Hi. unfold pos, int32_of_float64. rewrite Hz.
    apply in_int32_true in Hi. rewrite Hi. reflexivity.
Qed.

(** ** Homing *)

Lemma emits_ret {A : Type} (P : list Z -> Prop) (a : A) : emits P (ret a).
Proof.
  intros w. exists (Ret a), w, []. rewrite app_nil_r. repeat split. constructor.
Qed.

Lemma emits_bind {A B : Type} (P : list Z -> Prop) (c : M A) (k : A -> M B) :
  emits P c -> (forall a, emits P (k a)) -> emits P (bind c k).
Proof.
  intros Hc Hk w. destruct (Hc w) as (r & w1 & fs & E & T & F).
  unfold bind. rewrite E. destruct r as [a| |].
  - destruct (Hk a w1) as (r2 & w2 & fs2 & E2 & T2 & F2).
    exists r2, w2, (fs ++ fs2). rewrite E2, T2, T, app_assoc.
    repeat split. apply Forall_app. split; assumption.
  - exists Panic, w1, fs. auto.
  - exists Polling, w1, fs. auto.
Qed.

Lemma emits_select (P : list Z -> Prop) : emits P selectContextOrWait.
Proof.
  intros w. unfold selectContextOrWait.
  destruct (SelectContextOrWait (w_env w)) as [b v].
  eexists; eexists; exists []. rewrite app_nil_r. repeat split. constructor.
Qed.

Lemma emits_callStopFunc (P : list Z -> Prop) (stopFunc : option (env -> bool * env)) :
  emits P (callStopFunc stopFunc).
Proof.
  destruct stopFunc as [f|]; [|apply emits_ret].
  intros w. unfold callStopFunc. destruct (f (w_env w)) as [b v].
  eexists; eexists; exists []. rewrite app_nil_r. repeat split. constructor.
Qed.

Lemma emits_readReg (m : Motor) (addr : Z) :
  opens -> emits (eq (readFrame (shiftAddr m addr))) (readReg m addr).
Proof.
  intros Ho w. destruct (readReg_bus m addr w Ho) as (r & w' & E & [T|T] & _);
    eexists; eexists; eexists; (split; [exact E|split; [exact T|]]);
    repeat constructor.
Qed.

Lemma emits_writeReg (m : Motor) (addr v : Z) :
  opens -> emits (eq (writeFrame (shiftAddr m addr) v)) (writeReg m addr v).
Proof.
  intros Ho w. destruct (writeReg_bus m addr v w Ho) as (r & w' & E & T).
  eexists; eexists; eexists; (split; [exact E|split; [exact T|]]).
  repeat constructor.
Qed.

Lemma emits_weaken {A : Type} (P Q : list Z -> Prop) (c : M A) :
  (forall f, P f -> Q f) -> emits P c -> emits Q c.
Proof.
  intros HPQ Hc w. destruct (Hc w) as (r & w' & fs & E & T & F).
  exists r, w', fs. repeat split; try assumption.
  eapply Forall_impl; eassumption.
Qed.

Lemma emits_AtVelocity (m : Motor) :
  opens -> emits (eq (readFrame (shiftAddr m rampStat))) (AtVelocity m).
Proof.
  intros Ho. unfold AtVelocity. apply emits_bind; [now apply emits_readReg|].
  intros [stat [e|]]; apply emits_ret.
Qed.

Lemma emits_IsStopped (m : Motor) :
  opens -> emits (eq (readFrame (shiftAddr m rampStat))) (IsStopped m).
Proof.
  intros Ho. unfold IsStopped. apply emits_bind; [now apply emits_readReg|].
  intros [stat [e|]]; apply emits_ret.
Qed.

Lemma emits_upToSpeed (m : Motor) (stopFunc : option (env -> bool * env)) (n : nat) :
  opens -> emits (eq (readFrame (shiftAddr m rampStat))) (upToSpeed m stopFunc n).
Proof.
  intros Ho. induction n as [|n IH]; cbn [upToSpeed];
    (apply emits_bind; [apply emits_select|]); intros alive;
    (destruct alive; cbn [negb]; [|apply emits_ret]);
    (apply emits_bind; [apply emits_callStopFunc|]); intros stop;
    (destruct stop; [apply emits_ret|]);
    (apply emits_bind; [now apply emits_AtVelocity|]); intros [ready [e|]];
    try apply emits_ret; destruct ready; try apply emits_ret; exact IH.
Qed.

Lemma emits_toEndstop (m : Motor) (stopFunc : option (env -> bool * env)) (n : nat) :
  opens -> emits (eq (readFrame (shiftAddr m rampStat))) (toEndstop m stopFunc n).
Proof.
  intros Ho. induction n as [|n IH]; cbn [toEndstop];
    (apply emits_bind; [apply emits_select|]); intros alive;
    (destruct alive; cbn [negb]; [|apply emits_ret]);
    (apply emits_bind; [apply emits_callStopFunc|]); intros stop;
    (destruct stop; [apply emits_ret|]);
    (apply emits_bind; [now apply emits_IsStopped|]); intros [stopped [e|]];
    try apply emits_ret; destruct stopped; try apply emits_ret; exact IH.
Qed.

Lemma emits_goTillStopBody (m : Motor) (stopFunc : option (env -> bool * env)) :
  opens -> emits (bodyFrame m) (goTillStopBody m stopFunc).
Proof.
  intros Ho. unfold goTillStopBody.
  apply emits_bind.
  { eapply emits_weaken; [|now apply emits_upToSpeed]. intros f <-. now left. }
  intros [|err]; [|apply emits_ret].
  apply emits_bind.
  { eapply emits_weaken; [|now apply emits_writeReg]. intros f <-. now right. }
  intros [e|]; [apply emits_ret|].
  apply emits_bind.
  { eapply emits_weaken; [|now apply emits_toEndstop]. intros f <-. now left. }
  intros [|err]; apply emits_ret.
Qed.

Lemma cleanup_bus (m : Motor) (w : world env) :
  opens -> exists w', cleanup m w = (Ret tt, w') /\ w_bus w' = w_bus w ++ cleanupFrames m.
Proof.
  intros Ho. unfold cleanup.
  destruct (writeReg_bus m swMode 0 w Ho) as (r1 & w1 & E1 & T1).
  destruct (doJog_bus m zero w1 Ho) as (r2 & w2 & E2 & T2).
  unfold bind. rewrite E1, E2. unfold ret. eexists. split; [reflexivity|].
  rewrite T2, T1, <- app_assoc. reflexivity.
Qed.

Lemma cleanup_frame_fresh (m : Motor) (f : list Z) :
  bodyFrame m f -> f <> writeFrame (shiftAddr m swMode) 0.
Proof.
  unfold bodyFrame, shiftAddr. destruct (index m =? 2); vm_compute; intros [->| ->]; discriminate.
Qed.

(** *** A motor that does not get up to speed *)

Lemma select_bus (w w1 : world env) (b : bool) :
  selectContextOrWait w = (Ret b, w1) -> w_bus w1 = w_bus w.
Proof.
  unfold selectContextOrWait. destruct (SelectContextOrWait (w_env w)) as [b' v].
  intros H. inversion H. reflexivity.
Qed.

Lemma callStopFunc_bus (stopFunc : option (env -> bool * env)) (w w1 : world env) (b : bool) :
  callStopFunc stopFunc w = (Ret b, w1) -> w_bus w1 = w_bus w.
Proof.
  unfold callStopFunc, ret. destruct stopFunc as [f|].
  - destruct (f (w_env w)) as [b' v]. intros H. inversion H. reflexivity.
  - intros H. inversion H. reflexivity.
Qed.

Lemma AtVelocity_bus (m : Motor) (w w' : world env) (ready : bool) :
  opens -> AtVelocity m w = (Ret (ready, None), w') ->
  w_bus w' = w_bus w ++ pollFrames m 1.
Proof.
  intros Ho. destruct (readReg_bus m rampStat w Ho) as (r & w1 & E & _ & H).
  unfold AtVelocity, bind, ret. rewrite E.
  destruct r as [[stat [e|]]| |]; intros X; inversion X; subst.
  exact (H stat eq_refl).
Qed.

Lemma upToSpeed_slow (m : Motor) (stopFunc : option (env -> bool * env)) (n : nat)
    (w : world env) :
  opens -> slow_start m stopFunc (S n) w ->
  exists w', upToSpeed m stopFunc n w = (Ret (Return (Some ErrOver500)), w') /\
             w_bus w' = w_bus w ++ pollFrames m (S n).
Proof.
  intros Ho. revert w. induction n as [|n IH]; intros w (w1 & w2 & w3 & S1 & S2 & S3 & R);
    cbn [upToSpeed]; unfold bind at 1; rewrite S1; cbn [negb];
    unfold bind at 1; rewrite S2; unfold bind at 1; rewrite S3;
    pose proof (select_bus _ _ _ S1) as B1;
    pose proof (callStopFunc_bus _ _ _ _ S2) as B2;
    pose proof (AtVelocity_bus _ _ _ _ Ho S3) as B3.
  - eexists. split; [reflexivity|]. rewrite B3, B2, B1. reflexivity.
  - destruct (IH w3 R) as (w4 & E4 & T4). rewrite E4. eexists. split; [reflexivity|].
    rewrite T4, B3, B2, B1. rewrite <- app_assoc. reflexivity.
Qed.

(** C3, as the code has it.  On a bus that hands out its handle:
    - after a first jog that succeeded, when in each of the first 501
      rounds of the first loop the context is alive, the stop predicate
      (if there is one) does not fire and the poll succeeds without
      observing "target velocity reached", whatever the chip does later,
      [goTillStop] gives up with the "over 500 failures" error after
      those 501 polls, and the cleanup frames follow the polls once;
    - on every exit path after the first jog succeeded, the body puts only
      status polls and the stallguard-enable write on the bus, never the
      stallguard-disable frame, and the three cleanup frames come last;
    - when the first jog fails, its error is returned and nothing
      follows. *)
Theorem goTillStop_cleanup (m : Motor) (rpm : float64) :
  opens ->
  (forall stopFunc w wj,
     Jog m rpm w = (Ret None, wj) ->
     slow_start m stopFunc 501 wj ->
     exists w',
       goTillStop m rpm stopFunc w = (Ret (Some ErrOver500), w') /\
       w_bus w' = w_bus w ++
         [ writeFrame (shiftAddr m rampMode) (if ltb rpm zero then modeVelNeg else modeVelPos);
           writeFrame (shiftAddr m vMax) (Motor_rpmToV m (Abs rpm)) ] ++
         pollFrames m 501 ++ cleanupFrames m) /\
  (forall stopFunc w wj,
     Jog m rpm w = (Ret None, wj) ->
     exists r wb w' mid,
       goTillStopBody m stopFunc wj = (r, wb) /\
       goTillStop m rpm stopFunc w = (r, w') /\
       w_bus wb = w_bus wj ++ mid /\
       Forall (bodyFrame m) mid /\
       ~ In (writeFrame (shiftAddr m swMode) 0) mid /\
       w_bus w' = w_bus wb ++ cleanupFrames m) /\
  (forall stopFunc w r wj,
     Jog m rpm w = (r, wj) -> r <> Ret None ->
     goTillStop m rpm stopFunc w = (r, wj)).
Proof.
  intros Ho. split; [|split].
  - intros stopFunc w wj HJ HS.
    destruct (doJog_bus m rpm w Ho) as (rj & wj' & EJ & TJ).
    unfold Jog in HJ. rewrite HJ in EJ. inversion EJ. subst rj wj'.
    destruct (upToSpeed_slow m stopFunc 500 wj Ho HS) as (w3 & E3 & T3).
    destruct (cleanup_bus m w3 Ho) as (w4 & E4 & T4).
    exists w4. unfold goTillStop, Jog, bind at 1. rewrite HJ.
    unfold defer, goTillStopBody. unfold bind at 1. rewrite E3.
    unfold ret at 1. rewrite E4. split; [reflexivity|].
    rewrite T4, T3, TJ. repeat rewrite <- app_assoc. reflexivity.
  - intros stopFunc w wj HJ.
    destruct (emits_goTillStopBody m stopFunc Ho wj) as (r & wb & mid & EB & TB & FB).
    destruct (cleanup_bus m wb Ho) as (w' & EC & TC).
    exists r, wb, w', mid. split; [exact EB|].
    split; [|split; [exact TB|split; [exact FB|split; [|exact TC]]]].
    + unfold goTillStop, bind. rewrite HJ. unfold defer. rewrite EB, EC. reflexivity.
    + intros Hin. rewrite Forall_forall in FB.
      exact (cleanup_frame_fresh m _ (FB _ Hin) eq_refl).
  - intros stopFunc w r wj HJ Hr. unfold goTillStop, bind. rewrite HJ.
    destruct r as [[e|]| |]; try reflexivity. now destruct Hr.
Qed.

(** ** More on the register protocol *)

Lemma lor_write_flag (a : Z) : 0 <= a < 0x80 -> Z.lor a 0x80 = a + 0x80.
Proof.
  intros Ha.
  assert (E : Z.land a 0x80 = 0).
  { apply Z.bits_inj'. intros n Hn.
    rewrite Z.land_spec, Z.bits_0.
    destruct (Z.eq_dec n 7) as [->|Hn7].
    - replace a with (a mod 2 ^ 7) by (apply Z.mod_small; exact Ha).
      rewrite Z.mod_pow2_bits_high by lia. reflexivity.
    - change 0x80 with (2 ^ 7). rewrite Z.pow2_bits_false by lia.
      apply andb_false_r. }
  rewrite <- Z.lxor_lor by exact E.
  symmetry. apply Z.add_nocarry_lxor. exact E.
Qed.

Lemma bytes_of_int32 (v : Z) :
  is_int32 v ->
  int32 ((v / 2 ^ 24) mod 256 * 2 ^ 24 + (v / 2 ^ 16) mod 256 * 2 ^ 16 +
         (v / 2 ^ 8) mod 256 * 2 ^ 8 + v mod 256) = v.
Proof.
  intros Hv. unfold is_int32 in Hv. unfold int32.
  assert (E16 : v / 2 ^ 16 = v / 2 ^ 8 / 2 ^ 8)
    by (rewrite Z.div_div by lia; reflexivity).
  assert (E24 : v / 2 ^ 24 = v / 2 ^ 16 / 2 ^ 8)
    by (rewrite Z.div_div by lia; reflexivity).
  rewrite E24, E16.
  change (2 ^ 8) with 256. change (2 ^ 16) with 65536. change (2 ^ 24) with 16777216.
  change (2 ^ 31) with 2147483648 in *. change (2 ^ 32) with 4294967296.
  Z.div_mod_to_equations. lia.
Qed.

(** X1: what [writeReg] encodes, [readReg] decodes.  When the handle
    opens, a write of an [int32] value to a register of the map puts one
    frame on the bus: the shifted address plus the write flag [0x80],
    then four bytes which the decoding of [readReg] turns back into the
    value. *)
Theorem writeReg_decode_round_trip (m : Motor) (addr v : Z) (w : world env) :
  opens -> is_int32 v -> 0 <= addr <= 0x6F ->
  exists r w' b1 b2 b3 b4,
    writeReg m addr v w = (Ret r, w') /\
    w_bus w' = w_bus w ++ [[shiftAddr m addr + 0x80; b1; b2; b3; b4]] /\
    is_byte b1 /\ is_byte b2 /\ is_byte b3 /\ is_byte b4 /\
    decode b1 b2 b3 b4 = v.
Proof.
  intros Ho Hv Ha.
  destruct (writeReg_bus m addr v w Ho) as (r & w' & E & B).
  exists r, w', ((v / 2 ^ 24) mod 256), ((v / 2 ^ 16) mod 256),
    ((v / 2 ^ 8) mod 256), (v mod 256).
  assert (B1 : is_byte ((v / 2 ^ 24) mod 256)) by (apply Z.mod_pos_bound; lia).
  assert (B2 : is_byte ((v / 2 ^ 16) mod 256)) by (apply Z.mod_pos_bound; lia).
  assert (B3 : is_byte ((v / 2 ^ 8) mod 256)) by (apply Z.mod_pos_bound; lia).
  assert (B4 : is_byte (v mod 256)) by (apply Z.mod_pos_bound; lia).
  split; [exact E|].
  split.
  { rewrite B. unfold writeFrame.
    rewrite lor_write_flag by (apply shiftAddr_small; exact Ha). reflexivity. }
  repeat (split; [assumption|]).
  rewrite decode_be_int32 by assumption. unfold be_int32.
  apply bytes_of_int32. exact Hv.
Qed.

(** X2: without a handle there is no transfer.  When [OpenHandle] fails,
    [writeReg] and [readReg] return its error as it is, [readReg] with
    the value 0, and the bus sees no frame. *)
Theorem no_handle_no_transfer (m : Motor) (addr v : Z) (w : world env)
    (err : error) (e1 : env) :
  OpenHandle (w_env w) = (Some err, e1) ->
  writeReg m addr v w = (Ret (Some err), mkWorld e1 (w_bus w)) /\
  readReg m addr w = (Ret (0, Some err), mkWorld e1 (w_bus w)).
Proof.
  intros Ho. unfold writeReg, readReg, bind, openHandle, ret. cbv zeta.
  rewrite Ho. split; reflexivity.
Qed.

(** X3: a failed first transfer ends a read.  [readReg] returns the error
    of the transfer as it is with the value 0, the second transfer is not
    made, and the handle is closed. *)
Theorem readReg_first_transfer_fails (m : Motor) (addr : Z) (w : world env)
    (err : error) (c : option error) (e1 e2 e3 : env) :
  OpenHandle (w_env w) = (None, e1) ->
  Xfer [shiftAddr m addr; 0; 0; 0; 0] e1 = (inr err, e2) ->
  Close e2 = (c, e3) ->
  readReg m addr w =
    (Ret (0, Some err), mkWorld e3 (w_bus w ++ [[shiftAddr m addr; 0; 0; 0; 0]])).
Proof.
  intros Ho X1 C.
  unfold readReg, bind, openHandle, defer, xfer, closeHandle, ret. cbv zeta.
  rewrite Ho. cbn [w_env w_bus]. rewrite X1. cbn [w_env w_bus]. rewrite C.
  reflexivity.
Qed.

(** X4: a short reply is a panic.  When the second reply has fewer than
    five bytes, [readReg] panics on the index, after both transfers, and
    the deferred close still runs. *)
Theorem readReg_short_reply (m : Motor) (addr : Z) (w : world env)
    (rx1 rx2 : list Z) (c : option error) (e1 e2 e3 e4 : env) :
  OpenHandle (w_env w) = (None, e1) ->
  Xfer [shiftAddr m addr; 0; 0; 0; 0] e1 = (inl rx1, e2) ->
  Xfer [shiftAddr m addr; 0; 0; 0; 0] e2 = (inl rx2, e3) ->
  Close e3 = (c, e4) ->
  (List.length rx2 < 5)%nat ->
  readReg m addr w =
    (Panic, mkWorld e4 (w_bus w ++ [[shiftAddr m addr; 0; 0; 0; 0];
                                    [shiftAddr m addr; 0; 0; 0; 0]])).
Proof.
  intros Ho X1 X2 C L.
  unfold readReg, bind, openHandle, defer, xfer, closeHandle, ret, panic. cbv zeta.
  rewrite Ho. cbn [w_env w_bus]. rewrite X1. cbn [w_env w_bus]. rewrite X2.
  rewrite <- app_assoc. cbn [app].
  destruct rx2 as [|b0 [|b1 [|b2 [|b3 [|b4 rest]]]]];
    cbn [List.length] in L; try lia; cbn [w_env w_bus]; rewrite C; reflexivity.
Qed.

(** X5: the two motors of a chip share no register.  For addresses of
    the per-motor ranges, the address of motor 2 differs from every
    address of a motor that is not motor 2, differs from the address of
    every other register of motor 2, and leaves the write flag clear. *)
Theorem shiftAddr_separates (m1 m2 : Motor) (a b : Z) :
  index m1 <> 2 -> index m2 = 2 -> perMotor a -> perMotor b ->
  shiftAddr m2 a <> shiftAddr m1 b /\
  (a <> b -> shiftAddr m2 a <> shiftAddr m2 b) /\
  0 <= shiftAddr m2 a < 0x80.
Proof.
  intros H1 H2 Pa Pb. unfold shiftAddr, uint8, perMotor in *.
  rewrite H2. replace (index m1 =? 2) with false by (symmetry; apply Z.eqb_neq; exact H1).
  change (2 =? 2) with true. cbv iota.
  destruct (Z.geb_spec a 0x10), (Z.leb_spec a 0x11), (Z.geb_spec a 0x20),
    (Z.leb_spec a 0x3C), (Z.geb_spec a 0x6A), (Z.leb_spec a 0x6F);
    cbn [andb]; try lia;
    destruct (Z.geb_spec b 0x10), (Z.leb_spec b 0x11), (Z.geb_spec b 0x20),
      (Z.leb_spec b 0x3C), (Z.geb_spec b 0x6A), (Z.leb_spec b 0x6F);
    cbn [andb]; try lia;
    repeat match goal with
           | |- context [(?x + ?k) mod 256] => rewrite (Z.mod_small (x + k) 256) by lia
           end; lia.
Qed.

(** X6: the StallGuard reading has ten bits.  [GetSG] returns the low
    ten bits of the driver status, a value from 0 to 1023 also for a
    negative status word, with as many transfers as the read; after a
    failed read it returns 0 and the error as it is. *)
Theorem GetSG_low_ten_bits (m : Motor) (w w' : world env) (raw : Z) (err : option error) :
  readReg m drvStatus w = (Ret (raw, err), w') ->
  (err = None ->
     GetSG m w = (Ret (raw mod 1024, None), w') /\ 0 <= raw mod 1024 <= 1023) /\
  (err <> None -> GetSG m w = (Ret (0, err), w')).
Proof.
  intros R. unfold GetSG, bind, ret. rewrite R. split.
  - intros ->. change 1023 with (Z.ones 10) at 1.
    rewrite Z.land_ones by lia. change (2 ^ 10) with 1024.
    split; [reflexivity|]. pose proof (Z.mod_pos_bound raw 1024). lia.
  - intros N. destruct err; [reflexivity|congruence].
Qed.

(** ** More on the ramp parameters *)

Lemma validate_None (rp : rampParameters) :
  validate (Some rp) = None <->
  checkRange "v_start" (VStart rp) 0 (2 ^ 18 - 1) = None /\
  checkRange "v_stop" (VStop rp) 1 (2 ^ 18 - 1) = None /\
  checkRange "v1" (V1 rp) 0 (2 ^ 20 - 1) = None /\
  checkRange "a1" (A1 rp) 0 (2 ^ 16 - 1) = None /\
  checkRange "d1" (D1 rp) 1 (2 ^ 16 - 1) = None /\
  checkRange "v_max" (VMax rp) 0 (2 ^ 23 - 512) = None /\
  checkRange "a_max" (AMax rp) 0 (2 ^ 16 - 1) = None /\
  checkRange "d_max" (DMax rp) 0 (2 ^ 16 - 1) = None.
Proof.
  unfold validate. split.
  - intros H.
    repeat match type of H with
           | match ?c with Some _ => _ | None => _ end = None =>
               destruct c eqn:?; [discriminate|]
           end.
    repeat split; reflexivity.
  - intros (H1 & H2 & H3 & H4 & H5 & H6 & H7 & H8).
    rewrite H1, H2, H3, H4, H5, H6, H7, H8. reflexivity.
Qed.

Lemma checkRange_merge (name : string) (b o : option Z) (min max : Z) :
  checkRange name b min max = None -> checkRange name o min max = None ->
  checkRange name (match o with Some v => Some v | None => b end) min max = None.
Proof. intros Hb Ho. destruct o; assumption. Qed.

(** X7: merging keeps the ranges.  When the base and the override both
    pass [validate], so does their merge. *)
Theorem mergeRampParameters_valid (b o : rampParameters) :
  validate (Some b) = None -> validate (Some o) = None ->
  validate (Some (mergeRampParameters b o)) = None.
Proof.
  intros Hb Ho. rewrite validate_None in *.
  rewrite mergeRampParameters_fields. cbn [VStart VStop V1 A1 D1 VMax AMax DMax].
  destruct Hb as (B1 & B2 & B3 & B4 & B5 & B6 & B7 & B8).
  destruct Ho as (O1 & O2 & O3 & O4 & O5 & O6 & O7 & O8).
  repeat split; apply checkRange_merge; assumption.
Qed.

Lemma mergeRampParameters_complete (b o : rampParameters) :
  complete b -> complete (mergeRampParameters b o).
Proof.
  unfold complete. intros (H1 & H2 & H3 & H4 & H5 & H6 & H7 & H8).
  rewrite mergeRampParameters_fields. cbn [VStart VStop V1 A1 D1 VMax AMax DMax].
  destruct o as [o1 o2 o3 o4 o5 o6 o7 o8]. cbn [VStart VStop V1 A1 D1 VMax AMax DMax].
  repeat split;
    match goal with
    | |- match ?x with Some _ => _ | None => _ end <> None => destruct x
    end; try assumption; discriminate.
Qed.

Lemma initRampParameters_complete (maxRPM maxAcc fClk : float64) (stepsPerRev : Z) :
  complete (initRampParameters maxRPM maxAcc fClk stepsPerRev).
Proof. unfold complete, initRampParameters. repeat split; discriminate. Qed.

Lemma overridden_complete (m : Motor) (extra : option (list (string * value))) :
  complete (rampParams m) -> complete (overridden m extra).
Proof.
  intros H. unfold overridden.
  destruct (parseRampParametersFromExtra extra) as [[o|] [e|]]; try assumption.
  now apply mergeRampParameters_complete.
Qed.

Lemma field_not_numeric (kv : list (string * value)) (k : string) :
  numeric (lookup k kv) = false -> field kv k = None.
Proof.
  unfold field, toUint32, numeric.
  destruct (lookup k kv) as [[n|n|n|x|kv'|]|]; intros H; try discriminate; reflexivity.
Qed.

Lemma parse_not_numeric (kv inner : list (string * value)) :
  lookup "ramp_parameters" kv = Some (VMap inner) ->
  (forall k, In k rampKeys -> numeric (lookup k inner) = false) ->
  parseRampParametersFromExtra (Some kv) = (Some emptyRamp, None).
Proof.
  intros L N. unfold parseRampParametersFromExtra. rewrite L.
  rewrite !field_not_numeric by (apply N; unfold rampKeys; cbn [In]; tauto).
  reflexivity.
Qed.

Lemma merge_emptyRamp (b : rampParameters) : mergeRampParameters b emptyRamp = b.
Proof. destruct b. reflexivity. Qed.

(** X8: entries that are no numbers are dropped, not refused.  When
    [extra] has a ramp parameter map in which no key of the eight holds a
    [uint32], [int], [int64] or [float64] (the key is missing or holds
    something else), [SetRPM] and [GoTo] do exactly what they do with no
    [extra] at all. *)
Theorem overrides_not_numeric_are_ignored (fuel : nat) (m : Motor) (rpm pos : float64)
    (kv inner : list (string * value)) (w : world env) :
  lookup "ramp_parameters" kv = Some (VMap inner) ->
  (forall k, In k rampKeys -> numeric (lookup k inner) = false) ->
  SetRPM m rpm (Some kv) w = SetRPM m rpm None w /\
  GoTo fuel m rpm pos (Some kv) w = GoTo fuel m rpm pos None w.
Proof.
  intros L N. unfold SetRPM, GoTo.
  rewrite (parse_not_numeric kv inner L N). cbv iota beta zeta.
  rewrite merge_emptyRamp. split; reflexivity.
Qed.

(** X9: ramp parameters that are no map stop the call before the bus.
    When the key [ramp_parameters] of [extra] holds anything but a map,
    [SetRPM] and [GoTo] return the parsing error wrapped with the name of
    the method, and the bus and the environment are as before. *)
Theorem ramp_parameters_not_a_map (fuel : nat) (m : Motor) (rpm pos : float64)
    (kv : list (string * value)) (v : value) (w : world env) :
  lookup "ramp_parameters" kv = Some v ->
  is_map v = false ->
  SetRPM m rpm (Some kv) w =
    (Ret (Some (ErrWrap "error parsing ramp_parameters in SetRPM from motor"
                        ErrRampParamsNotMap)), w) /\
  GoTo fuel m rpm pos (Some kv) w =
    (Ret (Some (ErrWrap "error parsing ramp_parameters in GoTo from motor"
                        ErrRampParamsNotMap)), w).
Proof.
  intros L N. unfold SetRPM, GoTo, parseRampParametersFromExtra. rewrite L.
  destruct v; try discriminate; split; reflexivity.
Qed.

(** ** More on the unit converter *)

Lemma valid_Abs (x : float64) :
  valid_binary prec emax x = true -> IsNaN x = false -> nn (Abs x).
Proof.
  destruct x as [s|s| |s m e]; intros V N; try discriminate; split; try exact I;
    try reflexivity; exact V.
Qed.

(** On the non-negative floats the order is total. *)
Lemma not_ltb_leb (x y : float64) : nn x -> nn y -> ltb y x = false -> leb x y = true.
Proof.
  intros [_ Nx] [_ Ny].
  destruct x as [sx|sx| |sx mx ex], y as [sy|sy| |sy my ey]; cbn [nonneg] in Nx, Ny;
    try contradiction; subst; unfold ltb, leb, SFltb, SFleb, SFcompare;
    try reflexivity; try discriminate.
  rewrite (Z.compare_antisym ex ey).
  destruct (ex ?= ey); cbn [CompOpp]; try reflexivity; try discriminate.
  change (Pos.compare_cont Eq my mx) with (my ?= mx)%positive.
  change (Pos.compare_cont Eq mx my) with (mx ?= my)%positive.
  rewrite (Pos.compare_antisym mx my).
  destruct (mx ?= my)%positive; cbn [CompOpp]; try reflexivity; discriminate.
Qed.

Lemma ltb_irrefl (x : float64) : nn x -> ltb x x = false.
Proof.
  intros N. destruct (ltb x x) eqn:E; [|reflexivity].
  pose proof (ltb_ival x x N N E). lia.
Qed.

(** X20: no speed above the maximum.  For an rpm of either sign and of
    any size that is a genuine float and a number, infinite or not, with
    a maximum that is not negative, a positive clock, a positive number
    of steps and a maximal speed that an [int32] holds, the register
    value of the absolute rpm lies between 0 and the register value of
    the maximum, which is the truncated speed of the maximum. *)
Theorem rpmToV_never_exceeds_max (rpm maxRPM fClk : float64) (stepsPerRev zmax : Z) :
  valid_binary prec emax rpm = true -> IsNaN rpm = false ->
  valid_binary prec emax maxRPM = true ->
  valid_binary prec emax fClk = true ->
  leb zero maxRPM = true -> ltb zero fClk = true ->
  0 < stepsPerRev < 2 ^ 63 ->
  trunc (speedOf maxRPM fClk stepsPerRev) = Some zmax -> zmax <= 2 ^ 31 - 1 ->
  0 <= rpmToV (Abs rpm) maxRPM fClk stepsPerRev <= rpmToV maxRPM maxRPM fClk stepsPerRev /\
  rpmToV maxRPM maxRPM fClk stepsPerRev = zmax.
Proof.
  intros Vr Nr Vm Vf H0m Hf Hs Hmax Hz.
  pose proof (valid_Abs rpm Vr Nr) as Na.
  pose proof (leb_nn _ _ (nn_zero false) Vm H0m) as Nm.
  pose proof (leb_nn _ _ (nn_zero false) Vf (ltb_leb _ _ Hf)) as Nf.
  destruct (speedOf_le maxRPM maxRPM fClk stepsPerRev zmax Nm Nm ltac:(lia) Nf Hs Hmax)
    as (z' & T' & B').
  rewrite Hmax in T'. inversion T'. subst z'.
  assert (Em : rpmToV maxRPM maxRPM fClk stepsPerRev = zmax).
  { unfold rpmToV. change (gtb maxRPM maxRPM) with (ltb maxRPM maxRPM).
    rewrite (ltb_irrefl _ Nm). cbv zeta. fold (speedOf maxRPM fClk stepsPerRev).
    unfold int32_of_float64. rewrite Hmax.
    replace (in_int32 zmax) with true
      by (symmetry; apply in_int32_true; unfold is_int32; lia).
    reflexivity. }
  split; [|exact Em].
  destruct (gtb (Abs rpm) maxRPM) eqn:Eg.
  - assert (E : rpmToV (Abs rpm) maxRPM fClk stepsPerRev =
                rpmToV maxRPM maxRPM fClk stepsPerRev).
    { unfold rpmToV. rewrite Eg. change (gtb maxRPM maxRPM) with (ltb maxRPM maxRPM).
      rewrite (ltb_irrefl _ Nm). reflexivity. }
    rewrite E, Em. lia.
  - pose proof (leb_ival _ _ Na Nm (not_ltb_leb _ _ Na Nm Eg)) as Ile.
    destruct (speedOf_le (Abs rpm) maxRPM fClk stepsPerRev zmax Na Nm Ile Nf Hs Hmax)
      as (za & Ta & Ba).
    rewrite Em. unfold rpmToV. rewrite Eg. cbv zeta.
    fold (speedOf (Abs rpm) fClk stepsPerRev).
    unfold int32_of_float64. rewrite Ta.
    replace (in_int32 za) with true
      by (symmetry; apply in_int32_true; unfold is_int32; lia).
    lia.
Qed.

Lemma fin_pos_pow2_41 : fin_pos pow2_41.
Proof. eexists; eexists; split; reflexivity. Qed.

Lemma fin_pos_nn (c : float64) : fin_pos c -> nn c.
Proof. intros (m & e & -> & V). split; [exact V|reflexivity]. Qed.

(** The time constant of the accelerations is infinite, zero, or a
    positive finite float. *)
Lemma taConst_cases (fClk : float64) :
  nn fClk ->
  let T := div pow2_41 (Pow2 fClk) in
  (exists s, T = S754_infinity s) \/ (exists s, T = S754_zero s) \/ fin_pos T.
Proof.
  intros N T.
  assert (NX : nn (Pow2 fClk)).
  { destruct (nn_cases fClk N) as [[s E]|[F|E]].
    - rewrite E. destruct s; apply nn_zero.
    - exact (proj1 (mul_nn fClk fClk N F)).
    - rewrite E. split; reflexivity. }
  destruct fin_pos_pow2_41 as (m41 & e41 & E41 & V41).
  destruct (nn_cases _ NX) as [[s E]|[F|E]].
  - left. exists (xorb false s). unfold T. rewrite E, E41. reflexivity.
  - destruct (div_nn pow2_41 _ (fin_pos_nn _ fin_pos_pow2_41) F) as [NT _].
    fold T in NT.
    destruct (nn_cases T NT) as [[s E]|[FT|E]].
    + right. left. exists s. exact E.
    + right. right. exact FT.
    + left. exists false. exact E.
  - right. left. exists false. unfold T. rewrite E, E41. reflexivity.
Qed.

(** The acceleration is monotone on the non-negative floats as long as
    it can be truncated at all. *)
Lemma accOf_le (a b fClk : float64) (stepsPerRev zb : Z) :
  nn a -> nn b -> ival a <= ival b -> nn fClk -> 0 < stepsPerRev < 2 ^ 63 ->
  trunc (accOf b fClk stepsPerRev) = Some zb ->
  exists za, trunc (accOf a fClk stepsPerRev) = Some za /\ 0 <= za <= zb.
Proof.
  intros Na Nb Hab Nf Hs Hb. unfold accOf in *.
  pose proof (of_Z_fin_pos stepsPerRev Hs) as FS.
  destruct (div_nn a (of_Z 60) Na fin_pos_60) as [Nua _].
  destruct (div_nn b (of_Z 60) Nb fin_pos_60) as [Nub _].
  pose proof (div_le a b (of_Z 60) Na Nb fin_pos_60 Hab) as Hu.
  destruct (mul_nn _ (of_Z stepsPerRev) Nua FS) as [Nwa _].
  destruct (mul_nn _ (of_Z stepsPerRev) Nub FS) as [Nwb _].
  pose proof (mul_le _ _ (of_Z stepsPerRev) Nua Nub FS Hu) as Hw.
  pose proof (taConst_cases fClk Nf) as HT. cbv zeta in HT.
  remember (mul (div a (of_Z 60)) (of_Z stepsPerRev)) as wa eqn:Ewa.
  remember (mul (div b (of_Z 60)) (of_Z stepsPerRev)) as wb eqn:Ewb.
  remember (div pow2_41 (Pow2 fClk)) as T eqn:ET'.
  clear Ewa Ewb ET'.
  pose proof (pow2_pos 1074 ltac:(lia)) as P.
  destruct HT as [[s ET]|[[s ET]|FT]].
  - (* an infinite time constant: the acceleration is infinite or not a number *)
    rewrite ET in Hb.
    destruct (nn_cases wb Nwb) as [[s' E]|[(m & e & E & _)|E]]; rewrite E in Hb; discriminate.
  - (* a zero time constant: the acceleration is zero *)
    rewrite ET in *.
    destruct (nn_cases wb Nwb) as [[s' E]|[(m & e & E & V)|E]]; rewrite E in *;
      [| |discriminate]; inversion Hb; subst zb.
    + destruct (nn_cases wa Nwa) as [[s'' Ea]|[(ma & ea & Ea & Va)|Ea]]; rewrite Ea in *.
      * exists 0. split; [reflexivity|lia].
      * pose proof (nn_finite_lt_TOP _ _ _ Va). cbn [ival] in *. lia.
      * cbn [ival] in Hw. unfold TOP in Hw. lia.
    + pose proof (nn_finite_lt_TOP _ _ _ V) as Lb.
      destruct (nn_cases wa Nwa) as [[s'' Ea]|[(ma & ea & Ea & Va)|Ea]]; rewrite Ea in *.
      * exists 0. split; [reflexivity|lia].
      * exists 0. split; [reflexivity|lia].
      * cbn [ival] in Hw, Lb. lia.
  - destruct (mul_nn wa T Nwa FT) as [Nza _].
    destruct (mul_nn wb T Nwb FT) as [Nzb _].
    pose proof (mul_le wa wb T Nwa Nwb FT Hw) as Hz.
    pose proof (trunc_not_inf _ _ Hb) as Ninf.
    rewrite (trunc_ival _ Nzb Ninf) in Hb. inversion Hb as [Ezb].
    destruct (ival_inf_or_lt _ Nzb) as [[s E]|[Lb _]]; [exfalso; eapply Ninf; exact E|].
    assert (Na' : forall s, mul wa T <> S754_infinity s).
    { intros s E. rewrite E in Hz. cbn [ival] in Hz. lia. }
    rewrite (trunc_ival _ Nza Na'). eexists. split; [reflexivity|].
    pose proof (nn_ival_bounds _ Nza).
    split; [apply Z.div_pos; lia|apply Z.div_le_mono; lia].
Qed.

(** X21: a larger acceleration never gives a smaller register value.
    For genuine floats with [0 <= acc1 <= acc2], a positive clock, a
    positive number of steps and a larger value that an [int32] holds,
    [rpmsToA acc1 <= rpmsToA acc2], and both values are not negative. *)
Theorem rpmsToA_monotone (acc1 acc2 fClk : float64) (stepsPerRev zmax : Z) :
  valid_binary prec emax acc1 = true ->
  valid_binary prec emax acc2 = true ->
  valid_binary prec emax fClk = true ->
  leb zero acc1 = true -> leb acc1 acc2 = true ->
  ltb zero fClk = true ->
  0 < stepsPerRev < 2 ^ 63 ->
  trunc (accOf acc2 fClk stepsPerRev) = Some zmax -> zmax <= 2 ^ 31 - 1 ->
  0 <= rpmsToA acc1 fClk stepsPerRev <= rpmsToA acc2 fClk stepsPerRev.
Proof.
  intros V1 V2 Vf H01 H12 Hf Hs Hmax Hz.
  pose proof (leb_nn _ _ (nn_zero false) V1 H01) as N1.
  pose proof (leb_nn _ _ N1 V2 H12) as N2.
  pose proof (leb_nn _ _ (nn_zero false) Vf (ltb_leb _ _ Hf)) as Nf.
  pose proof (leb_ival _ _ N1 N2 H12) as I12.
  destruct (accOf_le acc1 acc2 fClk stepsPerRev zmax N1 N2 I12 Nf Hs Hmax)
    as (z1 & T1 & B1).
  unfold rpmsToA. cbv zeta.
  fold (accOf acc1 fClk stepsPerRev). fold (accOf acc2 fClk stepsPerRev).
  unfold int32_of_float64. rewrite T1, Hmax.
  replace (in_int32 z1) with true
    by (symmetry; apply in_int32_true; unfold is_int32; lia).
  replace (in_int32 zmax) with true
    by (symmetry; apply in_int32_true; unfold is_int32; lia).
  lia.
Qed.

(** ** More on the motion controller *)

Lemma writes_ret {A : Type} (a : A) : writes [] (ret a).
Proof. intros w. exists a, w. rewrite app_nil_r. split; reflexivity. Qed.

Lemma writes_bind {A B : Type} (fs1 fs2 : list (list Z)) (c : M A) (k : A -> M B) :
  writes fs1 c -> (forall a, writes fs2 (k a)) -> writes (fs1 ++ fs2) (bind c k).
Proof.
  intros Hc Hk w. destruct (Hc w) as (a & w1 & E1 & T1).
  destruct (Hk a w1) as (b & w2 & E2 & T2).
  exists b, w2. unfold bind. rewrite E1, E2, T2, T1, app_assoc. split; reflexivity.
Qed.

Lemma writes_writeReg (m : Motor) (addr v : Z) :
  opens -> writes [writeFrame (shiftAddr m addr) v] (writeReg m addr v).
Proof. intros Ho w. exact (writeReg_bus m addr v w Ho). Qed.

Lemma writes_applyRampParameters (m : Motor) (rp : rampParameters) :
  opens -> complete rp -> writes (applyFrames m rp) (applyRampParameters m rp).
Proof.
  intros Ho (H1 & H2 & H3 & H4 & H5 & H6 & H7 & H8) w.
  destruct rp as [[a|] [b|] [c|] [d|] [e|] [f|] [g|] [h|]];
    cbn [VStart VStop V1 A1 D1 VMax AMax DMax] in *; try congruence.
  exact (applyRampParameters_bus m w a b c d e f g h Ho).
Qed.

Lemma writes_doJog (m : Motor) (rpm : float64) :
  opens -> writes (jogFrames m rpm) (doJog m rpm).
Proof. intros Ho w. exact (doJog_bus m rpm w Ho). Qed.

Lemma emits_polling {A : Type} (P : list Z -> Prop) : emits P (@polling env A).
Proof.
  intros w. exists Polling, w, []. rewrite app_nil_r. repeat split. constructor.
Qed.

Lemma emits_WaitForSuccess (m : Motor) (fuel : nat) :
  opens ->
  emits (eq (readFrame (shiftAddr m rampStat))) (WaitForSuccess fuel (IsStopped m)).
Proof.
  intros Ho. induction fuel as [|fuel IH]; cbn [WaitForSuccess]; [apply emits_polling|].
  apply emits_bind; [now apply emits_IsStopped|].
  intros [res [e|]]; [apply emits_ret|].
  destruct res; [apply emits_ret|].
  apply emits_bind; [apply emits_select|].
  intros [|]; [exact IH|].
  intros w. exists (Ret (Some (ctxErr (w_env w)))), w, [].
  rewrite app_nil_r. repeat split. constructor.
Qed.

(** X10: [SetRPM] only writes.  On a bus that hands out its handle, for
    a motor with complete ramp parameters and an [extra] that parses,
    [SetRPM] returns after exactly nine writes and no read: the ramp mode
    (velocity-negative for a negative rpm, velocity-forward otherwise), the
    seven ramp registers with the overrides of [extra] applied, then the
    max velocity converted from the absolute rpm. *)
Theorem SetRPM_nine_writes (m : Motor) (rpm : float64)
    (extra : option (list (string * value))) (w : world env) :
  opens -> complete (rampParams m) ->
  snd (parseRampParametersFromExtra extra) = None ->
  exists r w',
    SetRPM m rpm extra w = (Ret r, w') /\
    w_bus w' = w_bus w ++
      [writeFrame (shiftAddr m rampMode) (if ltb rpm zero then modeVelNeg else modeVelPos)] ++
      applyFrames m (overridden m extra) ++
      [writeFrame (shiftAddr m vMax) (Motor_rpmToV m (Abs rpm))].
Proof.
  intros Ho Hc Hp.
  pose proof (overridden_complete m extra Hc) as Hc'.
  assert (W : forall rp, complete rp ->
    writes ([writeFrame (shiftAddr m rampMode) (if ltb rpm zero then modeVelNeg else modeVelPos)] ++
            applyFrames m rp ++ [writeFrame (shiftAddr m vMax) (Motor_rpmToV m (Abs rpm))])
      (let mode := if ltb rpm zero then modeVelNeg else modeVelPos in
       let '(warning, err) := CheckSpeed rpm (maxRPM m) in
       let speed := Motor_rpmToV m (Abs rpm) in
       e1 <- writeReg m rampMode mode ;;
       e2 <- applyRampParameters m rp ;;
       e3 <- writeReg m vMax speed ;;
       ret (Combine [e1; e2; e3]))).
  { intros rp Hrp. cbv zeta. destruct (CheckSpeed rpm (maxRPM m)) as [warning err].
    apply writes_bind; [now apply writes_writeReg|]. intros e1.
    apply writes_bind; [now apply writes_applyRampParameters|]. intros e2.
    rewrite <- (app_nil_r [writeFrame (shiftAddr m vMax) (Motor_rpmToV m (Abs rpm))]).
    apply writes_bind; [now apply writes_writeReg|]. intros e3. apply writes_ret. }
  unfold SetRPM, overridden in *.
  destruct extra as [kv|].
  - destruct (parseRampParametersFromExtra (Some kv)) as [[o|] [e|]];
      cbn [snd] in Hp; try discriminate; exact (W _ Hc' w).
  - cbn [parseRampParametersFromExtra] in Hc'. exact (W _ Hc' w).
Qed.

(** X11: [GoTo] writes, then only polls.  On a bus that hands out its
    handle, for a motor with complete ramp parameters and an [extra] that
    parses, [GoTo] puts ten writes on the bus (position mode, the seven
    ramp registers with the overrides applied, the max velocity of the
    absolute rpm, the target in microsteps) and after them nothing but
    reads of the ramp status, however the call ends. *)
Theorem GoTo_writes_then_polls (fuel : nat) (m : Motor) (rpm pos : float64)
    (extra : option (list (string * value))) (w : world env) :
  opens -> complete (rampParams m) ->
  snd (parseRampParametersFromExtra extra) = None ->
  exists r w' polls,
    GoTo fuel m rpm pos extra w = (r, w') /\
    w_bus w' = w_bus w ++
      [writeFrame (shiftAddr m rampMode) modePosition] ++
      applyFrames m (overridden m extra) ++
      [ writeFrame (shiftAddr m vMax) (Motor_rpmToV m (Abs rpm));
        writeFrame (shiftAddr m xTarget)
          (int32_of_float64 (mul pos (of_Z (stepsPerRev m)))) ] ++
      polls /\
    Forall (eq (readFrame (shiftAddr m rampStat))) polls.
Proof.
  intros Ho Hc Hp.
  pose proof (overridden_complete m extra Hc) as Hc'.
  assert (W : forall rp, complete rp ->
    exists r w' polls,
      (let positionRevolutions := mul pos (of_Z (stepsPerRev m)) in
       let '(warning, err) := CheckSpeed rpm (maxRPM m) in
       e1 <- writeReg m rampMode modePosition ;;
       e2 <- applyRampParameters m rp ;;
       e3 <- writeReg m vMax (Motor_rpmToV m (Abs rpm)) ;;
       e4 <- writeReg m xTarget (int32_of_float64 positionRevolutions) ;;
       match Combine [e1; e2; e3; e4] with
       | Some err => ret (Wrapf (Some err) "error in GoTo from motor")
       | None => WaitForSuccess fuel (IsStopped m)
       end) w = (r, w') /\
      w_bus w' = w_bus w ++
        [writeFrame (shiftAddr m rampMode) modePosition] ++
        applyFrames m rp ++
        [ writeFrame (shiftAddr m vMax) (Motor_rpmToV m (Abs rpm));
          writeFrame (shiftAddr m xTarget)
            (int32_of_float64 (mul pos (of_Z (stepsPerRev m)))) ] ++
        polls /\
      Forall (eq (readFrame (shiftAddr m rampStat))) polls).
  { intros rp Hrp. cbv zeta. destruct (CheckSpeed rpm (maxRPM m)) as [warning err].
    destruct (writes_writeReg m rampMode modePosition Ho w) as (e1 & w1 & E1 & T1).
    destruct (writes_applyRampParameters m rp Ho Hrp w1) as (e2 & w2 & E2 & T2).
    destruct (writes_writeReg m vMax (Motor_rpmToV m (Abs rpm)) Ho w2) as (e3 & w3 & E3 & T3).
    destruct (writes_writeReg m xTarget
                (int32_of_float64 (mul pos (of_Z (stepsPerRev m)))) Ho w3)
      as (e4 & w4 & E4 & T4).
    unfold bind at 1. rewrite E1. unfold bind at 1. rewrite E2.
    unfold bind at 1. rewrite E3. unfold bind at 1. rewrite E4.
    assert (T : w_bus w4 = w_bus w ++
        [writeFrame (shiftAddr m rampMode) modePosition] ++
        applyFrames m rp ++
        [ writeFrame (shiftAddr m vMax) (Motor_rpmToV m (Abs rpm));
          writeFrame (shiftAddr m xTarget)
            (int32_of_float64 (mul pos (of_Z (stepsPerRev m)))) ]).
    { rewrite T4, T3, T2, T1. rewrite <- !app_assoc. reflexivity. }
    destruct (Combine [e1; e2; e3; e4]) as [err'|].
    - eexists; exists w4, []. split; [reflexivity|]. rewrite app_nil_r.
      split; [exact T|constructor].
    - destruct (emits_WaitForSuccess m fuel Ho w4) as (r & w' & fs & E & T' & F).
      exists r, w', fs. split; [exact E|]. split; [|exact F].
      rewrite T', T. rewrite <- !app_assoc. reflexivity. }
  unfold GoTo, overridden in *.
  destruct extra as [kv|].
  - destruct (parseRampParametersFromExtra (Some kv)) as [[o|] [e|]];
      cbn [snd] in Hp; try discriminate; exact (W _ Hc').
  - cbn [parseRampParametersFromExtra] in Hc'. exact (W _ Hc').
Qed.

Lemma Abs_opp (x : float64) : Abs (SFopp x) = Abs x.
Proof. destruct x; reflexivity. Qed.

Lemma Signbit_opp (x : float64) : IsNaN x = false -> Signbit (SFopp x) = negb (Signbit x).
Proof. destruct x; intros H; try discriminate; reflexivity. Qed.

(** X12: only the product of the signs counts.  When the speed check
    does not look at the sign of the rpm, for any rpm and rotations that
    are numbers, [GoFor] with both negated does exactly what it does with
    neither negated (two negatives go forward), and negating the rpm is
    the same as negating the rotations. *)
Theorem GoFor_both_negated (fuel : nat) (m : Motor) (rpm rotations : float64)
    (extra : option (list (string * value))) (w : world env) :
  (forall r max, CheckSpeed (SFopp r) max = CheckSpeed r max) ->
  IsNaN rpm = false -> IsNaN rotations = false ->
  GoFor fuel m (SFopp rpm) (SFopp rotations) extra w = GoFor fuel m rpm rotations extra w /\
  GoFor fuel m (SFopp rpm) rotations extra w = GoFor fuel m rpm (SFopp rotations) extra w.
Proof.
  intros HC Hr Ho. unfold GoFor. rewrite HC.
  rewrite !Abs_opp, !Signbit_opp by assumption.
  destruct (Signbit rotations), (Signbit rpm); split; reflexivity.
Qed.

(** X13: the direction of a jog is in the ramp mode alone.  On a bus that
    hands out its handle, a jog at a positive rpm and a jog at the negated
    rpm write the same max velocity; the first writes the ramp mode
    velocity-forward (1), the second velocity-negative (2). *)
Theorem doJog_direction (m : Motor) (rpm : float64) (w : world env) :
  opens -> ltb zero rpm = true ->
  exists r1 w1 r2 w2 v,
    doJog m rpm w = (Ret r1, w1) /\
    doJog m (SFopp rpm) w = (Ret r2, w2) /\
    w_bus w1 = w_bus w ++
      [writeFrame (shiftAddr m rampMode) modeVelPos; writeFrame (shiftAddr m vMax) v] /\
    w_bus w2 = w_bus w ++
      [writeFrame (shiftAddr m rampMode) modeVelNeg; writeFrame (shiftAddr m vMax) v].
Proof.
  intros Ho Hp.
  destruct (doJog_bus m rpm w Ho) as (r1 & w1 & E1 & T1).
  destruct (doJog_bus m (SFopp rpm) w Ho) as (r2 & w2 & E2 & T2).
  exists r1, w1, r2, w2, (Motor_rpmToV m (Abs rpm)).
  rewrite Abs_opp in T2.
  assert (L1 : ltb rpm zero = false) by (destruct rpm as [s|s| |s p e]; try destruct s; try discriminate; reflexivity).
  assert (L2 : ltb (SFopp rpm) zero = true) by (destruct rpm as [s|s| |s p e]; try destruct s; try discriminate; reflexivity).
  rewrite L1 in T1. rewrite L2 in T2. repeat split; assumption.
Qed.

(** X14: [SetPower] records the power it was given.  The motor after the
    call is the motor before it with the new power, also when a write
    failed; a later [IsPowered] reports that power whatever the chip
    says; and on a bus that hands out its handle the call is a jog at the
    power times the maximal rpm: two writes. *)
Theorem SetPower_records_power (m : Motor) (pct : float64) (w : world env) :
  opens ->
  exists err w1,
    SetPower m pct w = (Ret (set_powerPct m pct, err), w1) /\
    w_bus w1 = w_bus w ++ jogFrames m (mul pct (maxRPM m)) /\
    (forall w2 on p e w3,
       IsPowered (set_powerPct m pct) w2 = (Ret (on, p, e), w3) -> p = pct).
Proof.
  intros Ho. unfold SetPower.
  destruct (doJog_bus (set_powerPct m pct) (mul pct (maxRPM (set_powerPct m pct))) w Ho)
    as (r & w1 & E & T).
  exists r, w1. unfold bind. rewrite E. split; [reflexivity|]. split; [exact T|].
  intros w2 on p e w3. unfold IsPowered, IsMoving, bind, ret.
  destruct (IsStopped (set_powerPct m pct) w2) as [[[stop [e'|]]| |] w4];
    intros H; inversion H; reflexivity.
Qed.

Lemma land_bit (stat k : Z) :
  0 <= k -> (Z.land stat (2 ^ k) =? 2 ^ k) = Z.testbit stat k.
Proof.
  intros Hk. destruct (Z.testbit stat k) eqn:T.
  - apply Z.eqb_eq. apply Z.bits_inj'. intros n Hn.
    rewrite Z.land_spec, Z.pow2_bits_eqb by lia.
    destruct (Z.eqb_spec k n) as [<-|N]; [rewrite T; reflexivity|apply andb_false_r].
  - apply Z.eqb_neq. intros E.
    assert (Z.testbit (Z.land stat (2 ^ k)) k = true)
      by (rewrite E, Z.pow2_bits_true by lia; reflexivity).
    rewrite Z.land_spec, T in H. discriminate H.
Qed.

(** X27: the four status calls read two bits.  When the read of the ramp
    status returns the word [stat], [IsStopped] is bit 10 of it,
    [AtVelocity] is bit 8, [IsMoving] is the negation of bit 10 and
    [IsPowered] is that negation with the recorded power; each call
    makes the transfers of the one read.  When the read fails,
    [AtVelocity] returns the error as it is, [IsStopped] wraps it, and
    [IsMoving] and [IsPowered] report a motor that moves. *)
Theorem status_calls (m : Motor) (w w' : world env) (stat : Z) (err : option error) :
  readReg m rampStat w = (Ret (stat, err), w') ->
  match err with
  | None =>
      IsStopped m w = (Ret (Z.testbit stat 10, None), w') /\
      AtVelocity m w = (Ret (Z.testbit stat 8, None), w') /\
      IsMoving m w = (Ret (negb (Z.testbit stat 10), None), w') /\
      IsPowered m w = (Ret (negb (Z.testbit stat 10), powerPct m, None), w')
  | Some e =>
      IsStopped m w =
        (Ret (false, Some (ErrWrap "error in IsStopped from motor" e)), w') /\
      AtVelocity m w = (Ret (false, Some e), w') /\
      IsMoving m w =
        (Ret (true, Some (ErrWrap "error in IsStopped from motor" e)), w') /\
      IsPowered m w =
        (Ret (true, powerPct m,
              Some (ErrWrap "error in IsPowered from motor"
                      (ErrWrap "error in IsStopped from motor" e))), w')
  end.
Proof.
  intros R. unfold IsPowered, IsMoving, IsStopped, AtVelocity, bind, ret. rewrite R.
  destruct err as [e|].
  - repeat split; reflexivity.
  - change 0x400 with (2 ^ 10). change 0x100 with (2 ^ 8).
    rewrite !land_bit by lia. repeat split; reflexivity.
Qed.

Lemma applyRampParameters_set_VMax (m : Motor) (rp : rampParameters) (v : option Z) :
  applyRampParameters m (set_VMax rp v) = applyRampParameters m rp.
Proof. destruct rp. reflexivity. Qed.

Lemma merge_but_VMax (b o1 o2 : rampParameters) :
  set_VMax o1 None = set_VMax o2 None ->
  set_VMax (mergeRampParameters b o1) None = set_VMax (mergeRampParameters b o2) None.
Proof.
  intros H. rewrite !mergeRampParameters_fields.
  destruct o1, o2. unfold set_VMax in *.
  cbn [VStart VStop V1 A1 D1 VMax AMax DMax] in *.
  inversion H. subst. reflexivity.
Qed.

(** X28: a per-call max velocity is parsed and merged but not applied.
    When two [extra] maps parse to overrides that differ in the max
    velocity at most, [SetRPM] and [GoTo] do exactly the same with
    either: the max-velocity register gets the conversion of the rpm,
    and the seven ramp registers have no max velocity among them. *)
Theorem v_max_override_is_not_applied (fuel : nat) (m : Motor) (rpm pos : float64)
    (e1 e2 : option (list (string * value))) (o1 o2 : rampParameters) (w : world env) :
  parseRampParametersFromExtra e1 = (Some o1, None) ->
  parseRampParametersFromExtra e2 = (Some o2, None) ->
  set_VMax o1 None = set_VMax o2 None ->
  SetRPM m rpm e1 w = SetRPM m rpm e2 w /\
  GoTo fuel m rpm pos e1 w = GoTo fuel m rpm pos e2 w.
Proof.
  intros P1 P2 H.
  assert (E : applyRampParameters m (mergeRampParameters (rampParams m) o1) =
              applyRampParameters m (mergeRampParameters (rampParams m) o2)).
  { rewrite <- (applyRampParameters_set_VMax m (mergeRampParameters (rampParams m) o1) None).
    rewrite <- (applyRampParameters_set_VMax m (mergeRampParameters (rampParams m) o2) None).
    rewrite (merge_but_VMax (rampParams m) o1 o2 H). reflexivity. }
  destruct e1 as [kv1|]; [|discriminate P1].
  destruct e2 as [kv2|]; [|discriminate P2].
  unfold SetRPM, GoTo. rewrite P1, P2. cbv iota beta zeta.
  destruct (CheckSpeed rpm (maxRPM m)) as [warning err].
  rewrite E. split; reflexivity.
Qed.

(** ** More on homing *)

(** *** A chip that answers every transfer *)











(** X15: a context that is done stops homing before the first poll, and
    the cleanup still runs.  After a jog that succeeded, [goTillStop]
    returns the error of the first loop; the stop predicate is not
    called, the status is not read, stallguard is not enabled, and the
    three cleanup frames follow the two frames of the jog. *)
Theorem goTillStop_context_done (m : Motor) (rpm : float64)
    (stopFunc : option (env -> bool * env)) (w wj : world env) :
  opens -> ctx_done ->
  Jog m rpm w = (Ret None, wj) ->
  exists w',
    goTillStop m rpm stopFunc w = (Ret (Some ErrCtxUpToSpeed), w') /\
    w_bus w' = w_bus w ++ jogFrames m rpm ++ cleanupFrames m.
Proof.
  intros Ho Hd HJ.
  destruct (doJog_bus m rpm w Ho) as (r & wj' & EJ & TJ).
  unfold Jog in HJ. rewrite HJ in EJ. inversion EJ. subst r wj'.
  unfold goTillStop, Jog, bind at 1. rewrite HJ. unfold defer, goTillStopBody.
  unfold bind at 1.
  assert (E : exists v, upToSpeed m stopFunc 500 wj =
                        (Ret (Return (Some ErrCtxUpToSpeed)), mkWorld v (w_bus wj))).
  { cbn [upToSpeed]. unfold bind at 1, selectContextOrWait.
    pose proof (Hd (w_env wj)) as E.
    destruct (SelectContextOrWait (w_env wj)) as [b v]; cbn [fst] in E; subst b.
    exists v. reflexivity. }
  destruct E as (v & E). rewrite E. unfold ret at 1.
  destruct (cleanup_bus m (mkWorld v (w_bus wj)) Ho) as (w' & EC & TC). rewrite EC.
  exists w'. split; [reflexivity|]. rewrite TC. cbn [w_bus]. rewrite TJ.
  rewrite <- app_assoc. reflexivity.
Qed.



(** *** home *)





(** *** DoCommand *)

(** X19: what [DoCommand] refuses, it refuses before the bus.  A map
    without the key [command], a command that is not one of the strings
    [home], [jog] and [get_v_actual] (also a value that is no string), a
    jog without the key [rpm], and a jog whose [rpm] is anything but a
    [float64] (an [int] too) each return their own error with no result
    map, and the bus and the environment are as before; a jog with a
    [float64] is [Jog]. *)
Theorem DoCommand_refusals (fuel : nat) (m : Motor) (cmd : list (string * iface))
    (w : world env) :
  (lookupCmd "command" cmd = None ->
   DoCommand fuel m cmd w = (Ret (None, Some ErrMissingCommand), w)) /\
  (forall name,
     lookupCmd "command" cmd = Some name ->
     name <> IString "home" -> name <> IString "jog" -> name <> IString "get_v_actual" ->
     DoCommand fuel m cmd w = (Ret (None, Some (ErrNoSuchCommand name)), w)) /\
  (lookupCmd "command" cmd = Some (IString "jog") ->
   (lookupCmd "rpm" cmd = None ->
    DoCommand fuel m cmd w = (Ret (None, Some ErrNeedRPM), w)) /\
   (forall v, lookupCmd "rpm" cmd = Some v ->
      (forall x, v <> IValue (VFloat64 x)) ->
      DoCommand fuel m cmd w = (Ret (None, Some ErrRPMNotFloat), w)) /\
   (forall x, lookupCmd "rpm" cmd = Some (IValue (VFloat64 x)) ->
      DoCommand fuel m cmd w =
        (err <- Jog m x ;; ret (None, lift err)) w)).
Proof.
  unfold DoCommand. split; [|split].
  - intros ->. reflexivity.
  - intros name -> H1 H2 H3. destruct name as [s|n|v]; try reflexivity.
    destruct (String.eqb_spec s "home") as [->|_]; [congruence|].
    destruct (String.eqb_spec s "jog") as [->|_]; [congruence|].
    destruct (String.eqb_spec s "get_v_actual") as [->|_]; [congruence|].
    reflexivity.
  - intros ->. cbn [String.eqb Ascii.eqb Bool.eqb]. cbv iota. split; [|split].
    + intros ->. reflexivity.
    + intros v -> H. destruct v as [s|n|[n|n|n|x|kv|]]; try reflexivity.
      exfalso. exact (H x eq_refl).
    + intros x ->. reflexivity.
Qed.

(** ** Configuration and construction *)

(** X22: what [Validate] accepts.  A configuration is accepted exactly
    when a board is named if an enable pin is, the SPI bus and the chip
    select are named, the index is 1 or 2, the ticks per rotation are
    positive and the ramp parameters are in their ranges; then the
    dependencies are the board if an enable pin is named and nothing
    otherwise, and there are no optional dependencies.  A configuration
    that is refused has no dependencies. *)
Theorem Validate_accepts (config : Config) (path : string) :
  (snd (Validate config path) = None <->
     (EnablePinLow (Pins config) <> ""%string -> BoardName config <> ""%string) /\
     SPIBus config <> ""%string /\
     ChipSelect config <> ""%string /\
     1 <= Index config <= 2 /\
     0 < TicksPerRotation config /\
     validate (RampParameters config) = None) /\
  (snd (Validate config path) = None ->
     Validate config path =
       (if String.eqb (EnablePinLow (Pins config)) "" then [] else [BoardName config],
        [], None)) /\
  (snd (Validate config path) <> None -> fst (Validate config path) = ([], [])).
Proof.
  unfold Validate.
  destruct (String.eqb_spec (EnablePinLow (Pins config)) "") as [Ep|Ep];
    destruct (String.eqb_spec (BoardName config) "") as [Eb|Eb];
    destruct (String.eqb_spec (SPIBus config) "") as [Es|Es];
    destruct (String.eqb_spec (ChipSelect config) "") as [Ec|Ec];
    destruct (Z.leb_spec (Index config) 0) as [Ei|Ei];
    destruct (Z.gtb_spec (Index config) 2) as [Ej|Ej];
    destruct (Z.leb_spec (TicksPerRotation config) 0) as [Et|Et];
    destruct (validate (RampParameters config)) as [e|] eqn:Ev;
    cbn [negb snd fst app];
    (split; [split; [intros H; try discriminate H; repeat split; try assumption;
                       try lia; try congruence
                    |intros (H1 & H2 & H3 & H4 & H5 & H6); try reflexivity;
                       try congruence; try lia; try (exfalso; apply H1; assumption)]
           |split; [intros H; try discriminate H; reflexivity
                   |intros H; try reflexivity; congruence]]).
Qed.

(** *** The register values of makeMotor *)

Lemma shiftl_lor_bytes (hd rc hc : Z) :
  0 <= hd <= 15 -> 0 <= rc <= 31 -> 0 <= hc <= 31 ->
  Z.lor (Z.lor (int32 (Z.shiftl hd 16)) (int32 (Z.shiftl rc 8))) hc =
  hd * 65536 + rc * 256 + hc.
Proof.
  intros H1 H2 H3. rewrite !Z.shiftl_mul_pow2 by lia.
  rewrite !int32_id by (unfold is_int32; lia).
  change (2 ^ 16) with (256 * 256). change (2 ^ 8) with 256.
  rewrite Z.mul_assoc.
  assert (E : Z.lor (hd * 256 * 256) (rc * 256) = (hd * 256 + rc) * 256).
  { transitivity (Z.shiftl (Z.lor (hd * 256) rc) 8).
    - rewrite Z.shiftl_lor, !Z.shiftl_mul_pow2 by lia. reflexivity.
    - rewrite lor_low_byte by (unfold is_byte; lia).
      rewrite Z.shiftl_mul_pow2 by lia. reflexivity. }
  rewrite E. rewrite lor_low_byte by (unfold is_byte; lia). lia.
Qed.

Ltac break_ifs :=
  repeat (cbn [RunCurrent HoldCurrent HoldDelay SGThresh
               set_RunCurrent set_HoldCurrent set_HoldDelay set_SGThresh] in *;
          match goal with
          | |- context [if ?b then _ else _] =>
              lazymatch b with
              | context [if _ then _ else _] => fail
              | _ => destruct b eqn:?
              end
          end);
  cbn [RunCurrent HoldCurrent HoldDelay SGThresh
       set_RunCurrent set_HoldCurrent set_HoldDelay set_SGThresh] in *.

Ltac to_props :=
  repeat match goal with
         | H : (_ =? _) = true |- _ => apply Z.eqb_eq in H
         | H : (_ =? _) = false |- _ => apply Z.eqb_neq in H
         | H : (_ <? _) = true |- _ => apply Z.ltb_lt in H
         | H : (_ <? _) = false |- _ => apply Z.ltb_ge in H
         | H : (_ >? _) = true |- _ => rewrite Z.gtb_ltb in H; apply Z.ltb_lt in H
         | H : (_ >? _) = false |- _ => rewrite Z.gtb_ltb in H; apply Z.ltb_ge in H
         end.

Lemma int32_pred (n : Z) :
  is_int32 n -> int32 (n - 1) = if n =? - 2 ^ 31 then 2 ^ 31 - 1 else n - 1.
Proof.
  intros Hn. destruct (Z.eqb_spec n (- 2 ^ 31)) as [->|N]; [reflexivity|].
  apply int32_id. unfold is_int32 in *. lia.
Qed.

(** X23: the currents and the hold delay always fit their register
    fields.  Whatever the configuration says, after the limits the run
    and hold currents are from 0 to 31 and the hold delay is from 0 to 15;
    [iCfg] packs them without overlap, delay in bits 16 and up, run
    current in bits 8 to 12, hold current in bits 0 to 4; a current that
    is not set is 15 for running and 8 for holding, a current [n] that is
    set is [n - 1] cut to the field, except that the smallest [int32]
    wraps around to 31; a delay that is not set is 6, a negative delay is
    0. *)
Theorem withCurrents_fields (c : Config) :
  is_int32 (RunCurrent c) -> is_int32 (HoldCurrent c) ->
  let c' := withCurrents c in
  let current := fun (n dflt : Z) =>
    if n =? 0 then dflt
    else if n =? - 2 ^ 31 then 31
    else Z.max 0 (Z.min 31 (n - 1)) in
  RunCurrent c' = current (RunCurrent c) 15 /\
  HoldCurrent c' = current (HoldCurrent c) 8 /\
  HoldDelay c' = (if HoldDelay c =? 0 then 6 else Z.max 0 (Z.min 15 (HoldDelay c))) /\
  0 <= RunCurrent c' <= 31 /\ 0 <= HoldCurrent c' <= 31 /\ 0 <= HoldDelay c' <= 15 /\
  iCfg c' = HoldDelay c' * 65536 + RunCurrent c' * 256 + HoldCurrent c'.
Proof.
  intros Hr Hh c' current.
  assert (R1 : forall c, is_int32 (RunCurrent c) ->
            RunCurrent (withRunCurrent c) = current (RunCurrent c) 15 /\
            HoldCurrent (withRunCurrent c) = HoldCurrent c /\
            HoldDelay (withRunCurrent c) = HoldDelay c).
  { intros c0 H0. unfold current, withRunCurrent. cbv zeta. rewrite !(int32_pred _ H0).
    break_ifs; to_props; repeat split; lia. }
  assert (R2 : forall c, is_int32 (HoldCurrent c) ->
            HoldCurrent (withHoldCurrent c) = current (HoldCurrent c) 8 /\
            RunCurrent (withHoldCurrent c) = RunCurrent c /\
            HoldDelay (withHoldCurrent c) = HoldDelay c).
  { intros c0 H0. unfold current, withHoldCurrent. cbv zeta. rewrite !(int32_pred _ H0).
    break_ifs; to_props; repeat split; lia. }
  assert (R3 : forall c,
            HoldDelay (withHoldDelay c) =
              (if HoldDelay c =? 0 then 6 else Z.max 0 (Z.min 15 (HoldDelay c))) /\
            RunCurrent (withHoldDelay c) = RunCurrent c /\
            HoldCurrent (withHoldDelay c) = HoldCurrent c).
  { intros c0. unfold withHoldDelay. cbv zeta.
    break_ifs; to_props; repeat split; lia. }
  destruct (R1 c Hr) as (A1' & A2 & A3).
  destruct (R2 (withRunCurrent c) ltac:(rewrite A2; exact Hh)) as (B1 & B2 & B3).
  destruct (R3 (withHoldCurrent (withRunCurrent c))) as (C1 & C2 & C3).
  assert (ER : RunCurrent c' = current (RunCurrent c) 15).
  { unfold c', withCurrents. rewrite C2, B2. exact A1'. }
  assert (EH : HoldCurrent c' = current (HoldCurrent c) 8).
  { unfold c', withCurrents. rewrite C3, B1, A2. reflexivity. }
  assert (ED : HoldDelay c' =
               if HoldDelay c =? 0 then 6 else Z.max 0 (Z.min 15 (HoldDelay c))).
  { unfold c', withCurrents. rewrite C1, B3, A3. reflexivity. }
  assert (BR : 0 <= RunCurrent c' <= 31).
  { rewrite ER. unfold current. destruct (RunCurrent c =? 0); [lia|].
    destruct (RunCurrent c =? - 2 ^ 31); lia. }
  assert (BH : 0 <= HoldCurrent c' <= 31).
  { rewrite EH. unfold current. destruct (HoldCurrent c =? 0); [lia|].
    destruct (HoldCurrent c =? - 2 ^ 31); lia. }
  assert (BD : 0 <= HoldDelay c' <= 15).
  { rewrite ED. destruct (HoldDelay c =? 0); lia. }
  repeat (split; [assumption|]).
  unfold iCfg. apply shiftl_lor_bytes; assumption.
Qed.

Lemma sgThresh_table :
  forallb (fun k => int32_of_float64 (add (of_Z 64) (Abs (of_Z (- Z.of_nat k)))) =?
                    64 + Z.of_nat k)
          (seq 1 64) = true.
Proof. vm_compute. reflexivity. Qed.

Lemma sgThresh_negative (x : Z) :
  -64 <= x < 0 -> int32_of_float64 (add (of_Z 64) (Abs (of_Z x))) = 64 - x.
Proof.
  intros Hx. pose proof sgThresh_table as T. rewrite forallb_forall in T.
  specialize (T (Z.to_nat (- x))).
  rewrite Z2Nat.id in T by lia. replace (- - x) with x in T by lia.
  replace (64 - x) with (64 + - x) by lia.
  apply Z.eqb_eq, T, in_seq. lia.
Qed.

(** X24: the stallguard threshold as it is written.  The threshold is
    cut to the range from -64 to 63; a threshold that is not negative is
    written as it is, a negative threshold [-k] is written as [64 + k],
    its magnitude with bit 6 set, so that -64 is 128; [coolConfig] has
    the result in bits 16 and up and nothing else. *)
Theorem withSGThresh_encoding (c : Config) :
  let c' := withSGThresh c in
  SGThresh c' = (if SGThresh c <? 0 then 64 + Z.min 64 (- SGThresh c)
                 else Z.min 63 (SGThresh c)) /\
  0 <= SGThresh c' <= 128 /\
  coolConfig c' = SGThresh c' * 65536.
Proof.
  intros c'.
  assert (E : SGThresh c' = (if SGThresh c <? 0 then 64 + Z.min 64 (- SGThresh c)
                             else Z.min 63 (SGThresh c))).
  { unfold c', withSGThresh. cbv zeta.
    destruct (Z.gtb_spec (SGThresh c) 63) as [G|G]; cbn [SGThresh set_SGThresh].
    - change (63 <? 0) with false. cbv iota. cbn [SGThresh set_SGThresh].
      destruct (Z.ltb_spec (SGThresh c) 0); lia.
    - destruct (Z.ltb_spec (SGThresh c) (-64)) as [L|L]; cbn [SGThresh set_SGThresh].
      + change (-64 <? 0) with true. cbv iota. cbn [SGThresh set_SGThresh].
        rewrite sgThresh_negative by lia.
        destruct (Z.ltb_spec (SGThresh c) 0); lia.
      + destruct (Z.ltb_spec (SGThresh c) 0) as [N|N]; cbn [SGThresh set_SGThresh].
        * rewrite sgThresh_negative by lia. lia.
        * lia. }
  assert (B : 0 <= SGThresh c' <= 128).
  { rewrite E. destruct (Z.ltb_spec (SGThresh c) 0); lia. }
  split; [exact E|]. split; [exact B|].
  unfold coolConfig. rewrite Z.shiftl_mul_pow2 by lia.
  rewrite int32_id by (unfold is_int32; lia). reflexivity.
Qed.

(** *** makeMotor *)

Ltac config_ifs :=
  repeat (cbn [Pins BoardName MaxRPM MaxAcceleration TicksPerRotation SPIBus ChipSelect
               Index SGThresh HomeRPM CalFactor RunCurrent HoldCurrent HoldDelay
               RampParameters set_MaxRPM set_MaxAcceleration set_CalFactor set_HomeRPM
               set_SGThresh set_RunCurrent set_HoldCurrent set_HoldDelay] in *;
          match goal with
          | |- context [if ?b then _ else _] =>
              lazymatch b with
              | context [if _ then _ else _] => fail
              | _ => destruct b
              end
          end);
  cbn [Pins BoardName MaxRPM MaxAcceleration TicksPerRotation SPIBus ChipSelect
       Index SGThresh HomeRPM CalFactor RunCurrent HoldCurrent HoldDelay
       RampParameters set_MaxRPM set_MaxAcceleration set_CalFactor set_HomeRPM
       set_SGThresh set_RunCurrent set_HoldCurrent set_HoldDelay] in *.

(** What the phases of [makeMotor] leave alone. *)
Lemma withDefaults_keeps (c : Config) :
  Pins (withDefaults c) = Pins c /\ BoardName (withDefaults c) = BoardName c /\
  TicksPerRotation (withDefaults c) = TicksPerRotation c /\
  Index (withDefaults c) = Index c /\ HomeRPM (withDefaults c) = HomeRPM c /\
  RampParameters (withDefaults c) = RampParameters c.
Proof. unfold withDefaults. cbv zeta. config_ifs; repeat split; reflexivity. Qed.

Lemma withHomeRPM_keeps (c : Config) :
  Pins (withHomeRPM c) = Pins c /\ BoardName (withHomeRPM c) = BoardName c /\
  TicksPerRotation (withHomeRPM c) = TicksPerRotation c /\
  Index (withHomeRPM c) = Index c /\ MaxRPM (withHomeRPM c) = MaxRPM c /\
  RampParameters (withHomeRPM c) = RampParameters c.
Proof. unfold withHomeRPM. cbv zeta. config_ifs; repeat split; reflexivity. Qed.

Lemma withSGThresh_keeps (c : Config) :
  Pins (withSGThresh c) = Pins c /\ BoardName (withSGThresh c) = BoardName c.
Proof. unfold withSGThresh. cbv zeta. config_ifs; repeat split; reflexivity. Qed.

Lemma withCurrents_keeps (c : Config) :
  Pins (withCurrents c) = Pins c /\ BoardName (withCurrents c) = BoardName c.
Proof.
  assert (R1 : forall c, Pins (withRunCurrent c) = Pins c /\
                         BoardName (withRunCurrent c) = BoardName c)
    by (intros c0; unfold withRunCurrent; cbv zeta; config_ifs; repeat split; reflexivity).
  assert (R2 : forall c, Pins (withHoldCurrent c) = Pins c /\
                         BoardName (withHoldCurrent c) = BoardName c)
    by (intros c0; unfold withHoldCurrent; cbv zeta; config_ifs; repeat split; reflexivity).
  assert (R3 : forall c, Pins (withHoldDelay c) = Pins c /\
                         BoardName (withHoldDelay c) = BoardName c)
    by (intros c0; unfold withHoldDelay; cbv zeta; config_ifs; repeat split; reflexivity).
  unfold withCurrents.
  destruct (R3 (withHoldCurrent (withRunCurrent c))) as [-> ->].
  destruct (R2 (withRunCurrent c)) as [-> ->].
  exact (R1 c).
Qed.

Lemma normalized_keeps (c : Config) :
  Pins (normalized c) = Pins c /\ BoardName (normalized c) = BoardName c.
Proof.
  unfold normalized.
  destruct (withCurrents_keeps (withSGThresh (withHomeRPM (withDefaults c)))) as [-> ->].
  destruct (withSGThresh_keeps (withHomeRPM (withDefaults c))) as [-> ->].
  destruct (withHomeRPM_keeps (withDefaults c)) as (-> & -> & _).
  destruct (withDefaults_keeps c) as (-> & -> & _). split; reflexivity.
Qed.

Lemma motorOf_complete (c : Config) (name : string) : complete (rampParams (motorOf c name)).
Proof.
  unfold motorOf. cbn [rampParams]. destruct (RampParameters c) as [o|].
  - apply mergeRampParameters_complete, initRampParameters_complete.
  - apply initRampParameters_complete.
Qed.

Lemma writes_setup (m : Motor) (c : Config) :
  opens -> complete (rampParams m) -> writes (setupFrames m c) (setup m c).
Proof.
  intros Ho Hc. unfold setup.
  assert (E : setupFrames m c =
    [writeFrame (shiftAddr m chopConf) 0x000100C3] ++
    [writeFrame (shiftAddr m iHoldIRun) (iCfg c)] ++
    [writeFrame (shiftAddr m coolConf) (coolConfig c)] ++
    applyFrames m (rampParams m) ++
    [writeFrame (shiftAddr m vCoolThres) (Motor_rpmToV m (div (maxRPM m) (of_Z 20)))] ++
    [writeFrame (shiftAddr m vMax) (int32 (valueOf (VMax (rampParams m))))] ++
    [writeFrame (shiftAddr m rampMode) modeVelPos] ++
    [writeFrame (shiftAddr m xActual) 0] ++ []) by reflexivity.
  rewrite E. clear E.
  apply writes_bind; [now apply writes_writeReg|]. intros e1.
  apply writes_bind; [now apply writes_writeReg|]. intros e2.
  apply writes_bind; [now apply writes_writeReg|]. intros e3.
  apply writes_bind; [now apply writes_applyRampParameters|]. intros e4.
  apply writes_bind; [now apply writes_writeReg|]. intros e5.
  apply writes_bind.
  { destruct Hc as (_ & _ & _ & _ & _ & Hv & _).
    destruct (VMax (rampParams m)) as [v|]; [|congruence].
    cbn [writeField valueOf]. now apply writes_writeReg. }
  intros e6.
  apply writes_bind; [now apply writes_writeReg|]. intros e7.
  apply writes_bind; [now apply writes_writeReg|]. intros e8.
  apply writes_ret.
Qed.

Section ConstructionProperties.

Variable Board : Type.
Variable GPIOPin : Type.
Variable FromDependencies : string -> Board + error.
Variable GPIOPinByName : Board -> string -> GPIOPin + error.
Variable PinSet : GPIOPin -> bool -> env -> option error * env.

(** X25: [makeMotor] sets the chip up with fourteen writes.  On a bus that
    hands out its handle:
    - without ticks per rotation [makeMotor] returns its error before any
      transfer;
    - otherwise it returns after exactly fourteen writes and no read,
      whatever the configuration and whatever the chip answers: the
      chopper configuration, the currents, the stallguard threshold, the
      seven ramp registers, the coolstep threshold at a twentieth of the
      maximal rpm, the max velocity of the ramp parameters, the ramp mode
      velocity-forward and the position 0; it never panics, since the
      ramp parameters of the motor are complete with or without ramp
      parameters in the configuration; and a motor that is returned is
      the motor of the configuration with its defaults, with an enable
      pin exactly when the configuration names one. *)
Theorem makeMotor_setup (c : Config) (name : string) (w : world env) :
  opens ->
  let m := motorOf (withHomeRPM (withDefaults c)) name in
  (TicksPerRotation c = 0 ->
   makeMotor FromDependencies GPIOPinByName PinSet c name w =
     (Ret (None, Some ErrTicksNotSet), w)) /\
  (TicksPerRotation c <> 0 ->
   exists r w',
     makeMotor FromDependencies GPIOPinByName PinSet c name w = (Ret r, w') /\
     w_bus w' = w_bus w ++ setupFrames m (normalized c) /\
     complete (rampParams m) /\
     (forall mo pin, r = (Some (mo, pin), None) ->
        mo = m /\ (pin = None <-> EnablePinLow (Pins c) = ""%string))).
Proof.
  intros Ho m.
  destruct (withDefaults_keeps c) as (_ & _ & ET & _).
  pose proof (normalized_keeps c) as K.
  unfold normalized in *. unfold makeMotor. cbv zeta. rewrite ET.
  split.
  - intros H0. rewrite H0. reflexivity.
  - intros H0.
    replace (TicksPerRotation c =? 0) with false by (symmetry; apply Z.eqb_neq; exact H0).
    pose proof (motorOf_complete (withHomeRPM (withDefaults c)) name) as Hc.
    destruct (writes_setup (motorOf (withHomeRPM (withDefaults c)) name)
                (withCurrents (withSGThresh (withHomeRPM (withDefaults c)))) Ho Hc w)
      as (e & w1 & E1 & T1).
    unfold bind at 1. rewrite E1.
    destruct K as [-> ->].
    destruct e as [err|].
    { eexists; eexists. split; [reflexivity|]. split; [exact T1|]. split; [exact Hc|].
      intros mo pin H. discriminate H. }
    destruct (String.eqb_spec (EnablePinLow (Pins c)) "") as [Ep|Ep]; cbn [negb].
    { eexists; eexists. split; [reflexivity|]. split; [exact T1|]. split; [exact Hc|].
      intros mo pin H. inversion H. split; [reflexivity|]. split; auto. }
    destruct (FromDependencies (BoardName c)) as [b|eb].
    2:{ eexists; eexists. split; [reflexivity|]. split; [exact T1|]. split; [exact Hc|].
        intros mo pin H. discriminate H. }
    destruct (GPIOPinByName b (EnablePinLow (Pins c))) as [p|ep].
    2:{ eexists; eexists. split; [reflexivity|]. split; [exact T1|]. split; [exact Hc|].
        intros mo pin H. discriminate H. }
    unfold Enable, pinSet, bind, ret. cbn [negb].
    destruct (PinSet p false (w_env w1)) as [[es|] v]; cbn [lift].
    + eexists; eexists. split; [reflexivity|]. split; [exact T1|]. split; [exact Hc|].
      intros mo pin H. discriminate H.
    + eexists; eexists. split; [reflexivity|]. split; [exact T1|]. split; [exact Hc|].
      intros mo pin H. inversion H. split; [reflexivity|].
      split; [discriminate|intros; contradiction].
Qed.

End ConstructionProperties.

Lemma Validate_inv (c : Config) (path : string) :
  snd (Validate c path) = None -> 1 <= Index c <= 2 /\ 0 < TicksPerRotation c.
Proof.
  unfold Validate.
  destruct (negb (EnablePinLow (Pins c) =? "")%string);
    [destruct (BoardName c =? "")%string; [intros X; discriminate X|]|];
    (destruct (SPIBus c =? "")%string; [intros X; discriminate X|]);
    (destruct (ChipSelect c =? "")%string; [intros X; discriminate X|]);
    (destruct (Z.leb_spec (Index c) 0); [intros X; discriminate X|]);
    (destruct (Z.gtb_spec (Index c) 2); [intros X; discriminate X|]);
    (destruct (Z.leb_spec (TicksPerRotation c) 0); [intros X; discriminate X|]);
    intros _; lia.
Qed.

(** X26: a validated configuration gives a well-formed motor.  When
    [Validate] accepts the configuration and the ticks per rotation are
    below 2^55, the motor that [makeMotor] builds has index 1 or 2, its
    steps per revolution are 256 times the ticks with no wrap-around, so
    positive and below 2^63, its recorded power is 0, its ramp
    parameters are complete, and its homing speed is the negated
    configured speed, or the negated quarter of the maximal rpm when
    none is configured. *)
Theorem validated_motor (c : Config) (path name : string) :
  snd (Validate c path) = None -> TicksPerRotation c < 2 ^ 55 ->
  let c0 := withDefaults c in
  let m := motorOf (withHomeRPM c0) name in
  (index m = 1 \/ index m = 2) /\
  stepsPerRev m = 256 * TicksPerRotation c /\
  0 < stepsPerRev m < 2 ^ 63 /\
  powerPct m = zero /\
  complete (rampParams m) /\
  maxRPM m = MaxRPM c0 /\
  homeRPM m = mul (if eqb (HomeRPM c) zero then div (MaxRPM c0) (of_Z 4) else HomeRPM c)
                  (of_Z (-1)).
Proof.
  intros Hv Ht c0 m. destruct (Validate_inv c path Hv) as [Hi Hp].
  destruct (withDefaults_keeps c) as (_ & _ & ET & EI & EH & _). fold c0 in ET, EI, EH.
  destruct (withHomeRPM_keeps c0) as (_ & _ & ET' & EI' & EM & _).
  assert (ES : stepsPerRev m = 256 * TicksPerRotation c).
  { unfold m, motorOf. cbn [stepsPerRev]. rewrite ET', ET. unfold int64, uSteps.
    rewrite Z.mod_small by lia. lia. }
  split; [unfold m, motorOf; cbn [index]; rewrite EI', EI; lia|].
  split; [exact ES|]. split; [rewrite ES; lia|]. split; [reflexivity|].
  split; [apply motorOf_complete|].
  split; [unfold m, motorOf; cbn [maxRPM]; exact EM|].
  unfold m, motorOf. cbn [homeRPM]. unfold withHomeRPM. cbv zeta.
  cbn [HomeRPM set_HomeRPM]. rewrite <- EH.
  destruct (eqb (HomeRPM c0) zero); reflexivity.
Qed.

End Driver.

(** * The reference configuration *)

(** The model computes the register values that the unit tests expect on
    the bus. *)
Example test_setup_ramp :
  initRampParameters unrep_amd64 (of_Z 500) (of_Z 500) (of_Z baseClk) (200 * uSteps) = testRamp.
Proof. vm_compute. reflexivity. Qed.

Example test_vMax_frames :
  writeFrame vMax (Motor_rpmToV unrep_amd64 testMotor (of_Z 250)) = [167; 0; 4; 35; 42] /\
  writeFrame vMax (Motor_rpmToV unrep_amd64 testMotor (of_Z 125)) = [167; 0; 2; 17; 149] /\
  writeFrame vMax (Motor_rpmToV unrep_amd64 testMotor (of_Z 50)) = [167; 0; 0; 211; 213] /\
  writeFrame vCoolThres (Motor_rpmToV unrep_amd64 testMotor (div (of_Z 500) (of_Z 20)))
    = [177; 0; 0; 105; 234].
Proof. vm_compute. repeat split. Qed.

Example test_xTarget_frames :
  writeFrame xTarget (int32_of_float64 unrep_amd64 (mul (lit 32 10) (of_Z 51200)))
    = [173; 0; 2; 128; 0] /\
  writeFrame xTarget (int32_of_float64 unrep_amd64 (mul (lit (-32) 10) (of_Z 51200)))
    = [173; 255; 253; 128; 0] /\
  writeFrame xTarget
    (int32_of_float64 unrep_amd64 (mul (mul (of_Z (-1)) (lit 31 10)) (of_Z 51200)))
    = [173; 255; 253; 148; 0].
Proof. vm_compute. repeat split. Qed.

Example test_Stop_frames :
  w_bus (snd (Stop unrep_amd64 checkSpeedRef nat openOk xferTurning closeOk testMotor world0))
  = [[160; 0; 0; 0; 1]; [167; 0; 0; 0; 0]].
Proof. vm_compute. reflexivity. Qed.

Example test_Position :
  Position nat openOk xferPosition closeOk testMotor world0
  = (Ret (of_Z 4, None), mkWorld 2%nat [[33; 0; 0; 0; 0]; [33; 0; 0; 0; 0]]).
Proof. vm_compute. reflexivity. Qed.

(** A maximum of 2,000,000 rpm is beyond the converter: the speed does not
    fit an [int32] and the conversion yields whatever the platform does,
    here the most negative [int32].  The bound on the speed at [maxRPM] in
    [rpmToV_monotone] keeps such configurations out. *)
Example test_rpmToV_out_of_range :
  trunc (speedOf (of_Z 2000000) (of_Z baseClk) (200 * uSteps)) = Some 2169175402 /\
  rpmToV unrep_amd64 (of_Z 2000000) (of_Z 2000000) (of_Z baseClk) (200 * uSteps) = - 2 ^ 31.
Proof. vm_compute. split; reflexivity. Qed.

(** * Instances and counterexamples *)

Lemma openOk_opens : opens nat openOk.
Proof. intros e. reflexivity. Defined.


Lemma xferLater_slow (k e : nat) (bus : list (list Z)) :
  (e + 2 * k <= 1004)%nat ->
  slow_start nat openOk xferLater closeOk ctxAlive testMotor (Some stopNever) k (mkWorld e bus).
Proof.
  revert e bus. induction k as [|k IH]; intros e bus H; cbn [slow_start]; [exact I|].
  exists (mkWorld e bus), (mkWorld e bus),
    (mkWorld (S (S e)) ((bus ++ [readFrame (shiftAddr testMotor rampStat)]) ++
                        [readFrame (shiftAddr testMotor rampStat)])).
  split; [reflexivity|]. split; [reflexivity|]. split.
  - unfold AtVelocity, readReg, bind, openHandle, defer, xfer, closeHandle, ret,
      openOk, xferLater, closeOk. cbn [w_env w_bus].
    replace (1004 <=? e)%nat with false by (symmetry; apply Nat.leb_gt; lia).
    replace (1004 <=? S e)%nat with false by (symmetry; apply Nat.leb_gt; lia).
    reflexivity.
  - apply IH. lia.
Defined.

Lemma checkSpeedRef_zero (r max : float64) :
  eqb r zero = true -> snd (checkSpeedRef r max) = Some ErrZeroRPM.
Proof.
  destruct r as [s|s| |s m e]; try discriminate.
  - intros _. reflexivity.
  - destruct s; discriminate.
  - destruct s; discriminate.
Defined.

(** C1: the defaults of the test configuration. *)
Lemma initRampParameters_defaults_witness :
  VMax (initRampParameters unrep_amd64 (of_Z 500) (of_Z 500) (of_Z baseClk) (200 * uSteps))
  = Some 0.
Proof.
  apply (initRampParameters_defaults unrep_amd64 (of_Z 500) (of_Z 500) (of_Z baseClk)
           (200 * uSteps));
    [reflexivity|reflexivity|unfold uSteps; lia].
Defined.

(** C1 as stated fails: at 500 rpm the default max velocity is 0, the
    conversion of [maxRPM] is 542293. *)
Lemma initRampParameters_vMax_counterexample :
  VMax (initRampParameters unrep_amd64 (of_Z 500) (of_Z 500) (of_Z baseClk) (200 * uSteps))
  <> Some (uint32 (rpmToV unrep_amd64 (of_Z 500) (of_Z 500) (of_Z baseClk) (200 * uSteps))).
Proof. vm_compute. discriminate. Qed.

(** C2: the position read of the unit tests. *)
Lemma readReg_two_transfers_witness :
  exists w',
    readReg nat openOk xferPosition closeOk testMotor xActual world0
      = (Ret (be_int32 0 3 32 0, None), w') /\
    w_bus w' = w_bus world0 ++
      [[shiftAddr testMotor xActual; 0; 0; 0; 0]; [shiftAddr testMotor xActual; 0; 0; 0; 0]].
Proof.
  apply (readReg_two_transfers nat openOk xferPosition closeOk testMotor xActual world0
           0%nat 1%nat 2%nat [0; 1; 6; 18; 3] [] 0 0 3 32 0);
    try reflexivity; unfold is_byte; lia.
Defined.

(** C3: a motor that is not up to speed in the first 501 polls and is
    from the 502nd on, with a stop predicate that never fires. *)
Lemma goTillStop_cleanup_witness :
  exists w',
    goTillStop unrep_amd64 checkSpeedRef nat openOk xferLater closeOk ctxAlive
      testMotor (of_Z (-125)) (Some stopNever) world0 = (Ret (Some ErrOver500), w') /\
    w_bus w' = w_bus world0 ++
      [ writeFrame (shiftAddr testMotor rampMode)
          (if ltb (of_Z (-125)) zero then modeVelNeg else modeVelPos);
        writeFrame (shiftAddr testMotor vMax)
          (Motor_rpmToV unrep_amd64 testMotor (Abs (of_Z (-125)))) ] ++
      pollFrames testMotor 501 ++ cleanupFrames unrep_amd64 testMotor.
Proof.
  apply (proj1 (goTillStop_cleanup unrep_amd64 checkSpeedRef nat openOk xferLater closeOk
                  ctxAlive testMotor (of_Z (-125)) openOk_opens)
           (Some stopNever) world0
           (mkWorld 2%nat [[160; 0; 0; 0; 2]; [167; 0; 2; 17; 149]])).
  - vm_compute. reflexivity.
  - apply xferLater_slow. lia.
Defined.

(** C3 as stated fails twice.  A motor that is not up to speed in any of
    the first 500 polls and is in the 501st is homed without the
    timeout error; and when the bus refuses its handle the first jog
    fails, the routine returns, and nothing is put on the bus: there is
    no cleanup on that exit path. *)
Lemma goTillStop_counterexample :
  (forall tx e, (e < 1002)%nat -> fst (xferLate tx e) = inl [0; 0; 0; 0; 0]) /\
  fst (goTillStop unrep_amd64 checkSpeedRef nat openOk xferLate closeOk ctxAlive
         testMotor (of_Z (-125)) None world0) = Ret None /\
  goTillStop unrep_amd64 checkSpeedRef nat openFails xferTurning closeOk ctxAlive
    testMotor (of_Z (-125)) None world0
  = (Ret (Some (ErrMulti [ErrExternal 1; ErrExternal 1])), world0).
Proof.
  split; [|split].
  - intros tx e H. unfold xferLate.
    destruct (Nat.leb_spec 1003 e); [lia|reflexivity].
  - vm_compute. reflexivity.
  - vm_compute. reflexivity.
Qed.

(** C4: a motor at rest, offset 3.1. *)
Lemma ResetZeroPosition_writes_witness :
  exists r w',
    ResetZeroPosition unrep_amd64 nat openOk xferStopped closeOk testMotor (lit 31 10) world0
      = (Ret r, w') /\
    w_bus w' =
      w_bus (mkWorld 2%nat [[53; 0; 0; 0; 0]; [53; 0; 0; 0; 0]]) ++
      [writeFrame (shiftAddr testMotor rampMode) modeHold] ++
      rampFrames testMotor 5384 5384 5384 5384 1 10 135573 ++
      [ writeFrame (shiftAddr testMotor xTarget)
          (int32_of_float64 unrep_amd64
             (mul (mul (of_Z (-1)) (lit 31 10)) (of_Z (stepsPerRev testMotor))));
        writeFrame (shiftAddr testMotor xActual)
          (int32_of_float64 unrep_amd64
             (mul (mul (of_Z (-1)) (lit 31 10)) (of_Z (stepsPerRev testMotor)))) ].
Proof.
  apply (proj1 (proj2 (proj2 (proj2
           (ResetZeroPosition_writes unrep_amd64 nat openOk xferStopped closeOk testMotor
              (lit 31 10) world0 (mkWorld 2%nat [[53; 0; 0; 0; 0]; [53; 0; 0; 0; 0]])
              false zero 1 10 135573 5384 5384 0 5384 5384
              openOk_opens eq_refl eq_refl))))).
  reflexivity.
Defined.

(** C4 as stated fails: at 3 ticks per rotation the offset 3.1 is 2380.8
    steps; the registers get -2380, rounding gives -2381. *)
Lemma ResetZeroPosition_round_counterexample :
  skipn 10 (w_bus (snd (ResetZeroPosition unrep_amd64 nat openOk xferStopped closeOk
                          coarseMotor (lit 31 10) world0)))
  = [ writeFrame xTarget (-2380); writeFrame xActual (-2380) ] /\
  Round (mul (mul (of_Z (-1)) (lit 31 10)) (of_Z (stepsPerRev coarseMotor))) = Some (-2381) /\
  writeFrame xTarget (-2380) <> writeFrame xTarget (-2381).
Proof.
  split; [vm_compute; reflexivity|split; [vm_compute; reflexivity|]].
  vm_compute. discriminate.
Qed.

(** C5: a zero speed with the speed check of the tests. *)
Lemma GoFor_zero_rpm_witness :
  GoFor unrep_amd64 unrep_uint32_amd64 checkSpeedRef nat openOk xferTurning closeOk ctxAlive ctxError
    10 testMotor zero (of_Z 1) None world0 = (Ret (Some ErrZeroRPM), world0).
Proof.
  apply (GoFor_zero_rpm unrep_amd64 unrep_uint32_amd64 checkSpeedRef nat openOk xferTurning closeOk
           ctxAlive ctxError 10 testMotor zero (of_Z 1) None world0 checkSpeedRef_zero eq_refl).
Defined.

(** C6: the actual-position register of both channels. *)
Lemma shiftAddr_channels_witness :
  shiftAddr testMotor2 xActual = xActual + 0x20 /\ shiftAddr testMotor xActual = xActual.
Proof.
  split.
  - apply (proj1 (proj2 (proj1 (shiftAddr_channels testMotor2 xActual) eq_refl))).
    unfold xActual. lia.
  - apply (proj2 (shiftAddr_channels testMotor xActual)). reflexivity.
Defined.

(** C8: 125 rpm and 250 rpm below the maximum of 500 rpm. *)
Lemma rpmToV_monotone_witness :
  rpmToV unrep_amd64 (of_Z 125) (of_Z 500) (of_Z baseClk) (200 * uSteps)
  <= rpmToV unrep_amd64 (of_Z 250) (of_Z 500) (of_Z baseClk) (200 * uSteps).
Proof.
  apply (rpmToV_monotone unrep_amd64 (of_Z 125) (of_Z 250) (of_Z 500) (of_Z baseClk)
           (200 * uSteps) 542293);
    try reflexivity; unfold uSteps; lia.
Defined.

(** C9: a stop velocity of 0 is refused. *)
Lemma validate_ranges_witness :
  exists c, In c (rampRanges (set_VStop emptyRamp (Some 0))) /\ outside c /\
            rangeError c = Some (ErrRange "v_stop" 1 (2 ^ 18 - 1) 0).
Proof.
  apply (proj1 (proj2 (validate_ranges (set_VStop emptyRamp (Some 0))))).
  reflexivity.
Defined.

(** C10: stopping the motor of the tests. *)
Lemma Stop_two_writes_witness :
  exists r w',
    Stop unrep_amd64 checkSpeedRef nat openOk xferTurning closeOk testMotor world0 = (Ret r, w') /\
    w_bus w' = w_bus world0 ++
      [ writeFrame (shiftAddr testMotor rampMode) 1; writeFrame (shiftAddr testMotor vMax) 0 ].
Proof.
  apply (Stop_two_writes unrep_amd64 checkSpeedRef nat openOk xferTurning closeOk testMotor
           world0 openOk_opens);
    try reflexivity. unfold testMotor, stepsPerRev, uSteps. lia.
Defined.

(** C10 as stated fails: with a maximal rpm of -500, which [Validate]
    accepts and [makeMotor] takes as it is, the 0 rpm of [Stop] is above
    the maximum and is clamped to it, and the max velocity written is
    -542293, not 0. *)
Lemma Stop_negative_maxRPM_counterexample :
  snd (Validate backwardConfig "motor1") = None /\
  fst (@makeMotor unrep_amd64 nat openOk xferTurning closeOk unit unit boardOk pinOk pinSetOk
         backwardConfig "motor1" world0) = Ret (Some (backwardMotor, None), None) /\
  Stop unrep_amd64 checkSpeedRef nat openOk xferTurning closeOk backwardMotor world0
    = (Ret None, mkWorld 2%nat [[160; 0; 0; 0; 1]; [167; 255; 247; 185; 171]]) /\
  [167; 255; 247; 185; 171] = writeFrame (shiftAddr backwardMotor vMax) (-542293) /\
  ~ (exists r w',
       Stop unrep_amd64 checkSpeedRef nat openOk xferTurning closeOk backwardMotor world0
         = (Ret r, w') /\
       w_bus w' = w_bus world0 ++
         [ writeFrame (shiftAddr backwardMotor rampMode) 1;
           writeFrame (shiftAddr backwardMotor vMax) 0 ]).
Proof.
  assert (E : Stop unrep_amd64 checkSpeedRef nat openOk xferTurning closeOk backwardMotor world0
              = (Ret None, mkWorld 2%nat [[160; 0; 0; 0; 1]; [167; 255; 247; 185; 171]]))
    by (vm_compute; reflexivity).
  split; [vm_compute; reflexivity|]. split; [vm_compute; reflexivity|].
  split; [exact E|]. split; [vm_compute; reflexivity|].
  intros (r & w' & E' & B). rewrite E in E'. inversion E'. subst r w'.
  vm_compute in B. discriminate B.
Qed.

(** * More of the unit tests, and instances of the further properties *)

(** The fourteen set-up writes of the tests, and the motor they build. *)
Example test_makeMotor :
  @makeMotor unrep_amd64 nat openOk xferTurning closeOk unit unit boardOk pinOk pinSetOk
    testConfig "motor1" world0
  = (Ret (Some (testMotor, None), None),
     mkWorld 14%nat
       [ [236; 0; 1; 0; 195]; [176; 0; 6; 15; 8]; [237; 0; 0; 0; 0];
         [164; 0; 0; 21; 8]; [166; 0; 0; 21; 8]; [170; 0; 0; 21; 8]; [168; 0; 0; 21; 8];
         [163; 0; 0; 0; 1]; [171; 0; 0; 0; 10]; [165; 0; 2; 17; 149];
         [177; 0; 0; 105; 234]; [167; 0; 0; 0; 0]; [160; 0; 0; 0; 1]; [161; 0; 0; 0; 0] ]).
Proof. vm_compute. reflexivity. Qed.

(** Over-limit, under-limit and explicit current settings. *)
Example test_current_settings :
  writeFrame iHoldIRun
    (iCfg (withCurrents (set_HoldCurrent (set_RunCurrent (set_HoldDelay testConfig 9999)
                                            9999) 9999)))
  = [176; 0; 15; 31; 31] /\
  writeFrame iHoldIRun
    (iCfg (withCurrents (set_HoldCurrent (set_RunCurrent (set_HoldDelay testConfig (-9999))
                                            (-9999)) (-9999))))
  = [176; 0; 0; 0; 0] /\
  writeFrame iHoldIRun
    (iCfg (withCurrents (set_HoldCurrent (set_RunCurrent (set_HoldDelay testConfig 12)
                                            27) 14)))
  = [176; 0; 12; 26; 13].
Proof. repeat split; vm_compute; reflexivity. Qed.

(** Forward at half power, backward at a quarter. *)
Example test_SetPower :
  w_bus (snd (SetPower unrep_amd64 checkSpeedRef nat openOk xferTurning closeOk
                testMotor (lit 1 2) world0))
  = [[160; 0; 0; 0; 1]; [167; 0; 4; 35; 42]] /\
  w_bus (snd (SetPower unrep_amd64 checkSpeedRef nat openOk xferTurning closeOk
                testMotor (lit (-1) 4) world0))
  = [[160; 0; 0; 0; 2]; [167; 0; 2; 17; 149]].
Proof. split; vm_compute; reflexivity. Qed.

(** SetRPM at 250 rpm, with and without ramp parameters, and at -125. *)
Example test_SetRPM :
  w_bus (snd (SetRPM unrep_amd64 unrep_uint32_amd64 checkSpeedRef nat openOk xferTurning closeOk
                testMotor (of_Z 250) None world0))
  = [ [160; 0; 0; 0; 1]; [164; 0; 0; 21; 8]; [166; 0; 0; 21; 8]; [170; 0; 0; 21; 8];
      [168; 0; 0; 21; 8]; [163; 0; 0; 0; 1]; [171; 0; 0; 0; 10]; [165; 0; 2; 17; 149];
      [167; 0; 4; 35; 42] ] /\
  w_bus (snd (SetRPM unrep_amd64 unrep_uint32_amd64 checkSpeedRef nat openOk xferTurning closeOk
                testMotor (of_Z 250) testExtra world0))
  = [ [160; 0; 0; 0; 1]; [164; 0; 0; 11; 184]; [166; 0; 0; 13; 172]; [170; 0; 0; 9; 196];
      [168; 0; 0; 14; 16]; [163; 0; 0; 0; 0]; [171; 0; 0; 0; 10]; [165; 0; 0; 4; 232];
      [167; 0; 4; 35; 42] ] /\
  w_bus (snd (SetRPM unrep_amd64 unrep_uint32_amd64 checkSpeedRef nat openOk xferTurning closeOk
                testMotor (of_Z (-125)) None world0))
  = [ [160; 0; 0; 0; 2]; [164; 0; 0; 21; 8]; [166; 0; 0; 21; 8]; [170; 0; 0; 21; 8];
      [168; 0; 0; 21; 8]; [163; 0; 0; 0; 1]; [171; 0; 0; 0; 10]; [165; 0; 2; 17; 149];
      [167; 0; 2; 17; 149] ].
Proof. repeat split; vm_compute; reflexivity. Qed.

(** Floats that a [uint32] does not hold, converted as amd64 does. *)
Example test_uint32_out_of_range :
  uint32_of_float64 unrep_uint32_amd64 (of_Z (-1)) = 4294967295 /\
  uint32_of_float64 unrep_uint32_amd64 (of_Z (2 ^ 32 + 7)) = 7 /\
  uint32_of_float64 unrep_uint32_amd64 S754_nan = 0 /\
  uint32_of_float64 unrep_uint32_amd64 (S754_infinity false) = 0.
Proof. repeat split; vm_compute; reflexivity. Qed.

(** ** Instances *)



Lemma ctxDone_done : ctx_done nat ctxDone.
Proof. intros e. reflexivity. Defined.

Lemma testRamp_complete : complete (rampParams testMotor).
Proof. unfold complete. cbn. repeat split; discriminate. Defined.

Lemma checkSpeedRef_even (r : spec_float) (max : float64) :
  checkSpeedRef (SFopp r) max = checkSpeedRef r max.
Proof. destruct r; reflexivity. Defined.

Lemma no_numbers (k : string) :
  In k rampKeys -> numeric (lookup k [("v_start"%string, VOther)]) = false.
Proof.
  unfold rampKeys. cbn [In].
  intros [<-|[<-|[<-|[<-|[<-|[<-|[<-|[<-|[]]]]]]]]]; reflexivity.
Defined.

(** X1: writing -2 to the target register of motor 2. *)
Lemma writeReg_decode_round_trip_witness :
  exists r w' b1 b2 b3 b4,
    writeReg nat openOk xferTurning closeOk testMotor2 xTarget (-2) world0 = (Ret r, w') /\
    w_bus w' = w_bus world0 ++ [[shiftAddr testMotor2 xTarget + 0x80; b1; b2; b3; b4]] /\
    is_byte b1 /\ is_byte b2 /\ is_byte b3 /\ is_byte b4 /\
    decode b1 b2 b3 b4 = -2.
Proof.
  apply (writeReg_decode_round_trip nat openOk xferTurning closeOk testMotor2 xTarget (-2)
           world0 openOk_opens);
    unfold is_int32, xTarget; lia.
Defined.

(** X2: a bus that refuses its handle. *)
Lemma no_handle_no_transfer_witness :
  writeReg nat openFails xferTurning closeOk testMotor vMax 7 world0
    = (Ret (Some (ErrExternal 1)), mkWorld 0%nat (w_bus world0)) /\
  readReg nat openFails xferTurning closeOk testMotor vMax world0
    = (Ret (0, Some (ErrExternal 1)), mkWorld 0%nat (w_bus world0)).
Proof.
  apply (no_handle_no_transfer nat openFails xferTurning closeOk testMotor vMax 7 world0
           (ErrExternal 1) 0%nat).
  reflexivity.
Defined.

(** X3: a bus whose transfers fail. *)
Lemma readReg_first_transfer_fails_witness :
  readReg nat openOk xferFails closeOk testMotor xActual world0
    = (Ret (0, Some (ErrExternal 3)),
       mkWorld 1%nat (w_bus world0 ++ [[shiftAddr testMotor xActual; 0; 0; 0; 0]])).
Proof.
  apply (readReg_first_transfer_fails nat openOk xferFails closeOk testMotor xActual world0
           (ErrExternal 3) None 0%nat 1%nat 1%nat);
    reflexivity.
Defined.

(** X4: a reply of four bytes. *)
Lemma readReg_short_reply_witness :
  readReg nat openOk xferShort closeOk testMotor xActual world0
    = (Panic,
       mkWorld 2%nat (w_bus world0 ++ [[shiftAddr testMotor xActual; 0; 0; 0; 0];
                                       [shiftAddr testMotor xActual; 0; 0; 0; 0]])).
Proof.
  apply (readReg_short_reply nat openOk xferShort closeOk testMotor xActual world0
           [0; 0; 0; 0] [0; 0; 0; 0] None 0%nat 1%nat 2%nat 2%nat);
    try reflexivity. cbn. lia.
Defined.

(** X5: the ramp mode of motor 2 and the last ramp register of motor 1. *)
Lemma shiftAddr_separates_witness :
  shiftAddr testMotor2 rampMode <> shiftAddr testMotor 0x3C /\
  (rampMode <> 0x3C -> shiftAddr testMotor2 rampMode <> shiftAddr testMotor2 0x3C) /\
  0 <= shiftAddr testMotor2 rampMode < 0x80.
Proof.
  apply (shiftAddr_separates testMotor testMotor2 rampMode 0x3C).
  - cbn. lia.
  - reflexivity.
  - unfold perMotor, rampMode. lia.
  - unfold perMotor. lia.
Defined.

(** X6: a negative status word with a reading of 300. *)
Lemma GetSG_low_ten_bits_witness :
  GetSG nat openOk xferLoad closeOk testMotor world0
    = (Ret ((-16776916) mod 1024, None),
       mkWorld 2%nat [[111; 0; 0; 0; 0]; [111; 0; 0; 0; 0]]) /\
  0 <= (-16776916) mod 1024 <= 1023.
Proof.
  apply (proj1 (GetSG_low_ten_bits nat openOk xferLoad closeOk testMotor world0
                  (mkWorld 2%nat [[111; 0; 0; 0; 0]; [111; 0; 0; 0; 0]])
                  (-16776916) None eq_refl)).
  reflexivity.
Defined.

(** X7: the defaults of the tests with a start velocity of 0. *)
Lemma mergeRampParameters_valid_witness :
  validate (Some (mergeRampParameters testRamp (set_VStart emptyRamp (Some 0)))) = None.
Proof.
  apply (mergeRampParameters_valid testRamp (set_VStart emptyRamp (Some 0)));
    reflexivity.
Defined.

(** X8: a start velocity that is no number. *)
Lemma overrides_not_numeric_are_ignored_witness :
  SetRPM unrep_amd64 unrep_uint32_amd64 checkSpeedRef nat openOk xferStopped closeOk testMotor
    (of_Z 250) (Some [("ramp_parameters"%string, VMap [("v_start"%string, VOther)])]) world0
  = SetRPM unrep_amd64 unrep_uint32_amd64 checkSpeedRef nat openOk xferStopped closeOk testMotor
      (of_Z 250) None world0 /\
  GoTo unrep_amd64 unrep_uint32_amd64 checkSpeedRef nat openOk xferStopped closeOk ctxAlive ctxError
    3 testMotor (of_Z 250) (of_Z 4)
    (Some [("ramp_parameters"%string, VMap [("v_start"%string, VOther)])]) world0
  = GoTo unrep_amd64 unrep_uint32_amd64 checkSpeedRef nat openOk xferStopped closeOk ctxAlive ctxError
      3 testMotor (of_Z 250) (of_Z 4) None world0.
Proof.
  apply (overrides_not_numeric_are_ignored unrep_amd64 unrep_uint32_amd64 checkSpeedRef nat openOk
           xferStopped closeOk ctxAlive ctxError 3 testMotor (of_Z 250) (of_Z 4)
           [("ramp_parameters"%string, VMap [("v_start"%string, VOther)])]
           [("v_start"%string, VOther)] world0 eq_refl no_numbers).
Defined.

(** X9: ramp parameters that are a number. *)
Lemma ramp_parameters_not_a_map_witness :
  SetRPM unrep_amd64 unrep_uint32_amd64 checkSpeedRef nat openOk xferTurning closeOk testMotor
    (of_Z 250) (Some [("ramp_parameters"%string, VInt 3)]) world0
  = (Ret (Some (ErrWrap "error parsing ramp_parameters in SetRPM from motor"
                        ErrRampParamsNotMap)), world0) /\
  GoTo unrep_amd64 unrep_uint32_amd64 checkSpeedRef nat openOk xferTurning closeOk ctxAlive ctxError
    3 testMotor (of_Z 250) (of_Z 4) (Some [("ramp_parameters"%string, VInt 3)]) world0
  = (Ret (Some (ErrWrap "error parsing ramp_parameters in GoTo from motor"
                        ErrRampParamsNotMap)), world0).
Proof.
  apply (ramp_parameters_not_a_map unrep_amd64 unrep_uint32_amd64 checkSpeedRef nat openOk
           xferTurning closeOk ctxAlive ctxError 3 testMotor (of_Z 250) (of_Z 4)
           [("ramp_parameters"%string, VInt 3)] (VInt 3) world0);
    reflexivity.
Defined.

(** X10: SetRPM with the ramp parameters of the tests. *)
Lemma SetRPM_nine_writes_witness :
  exists r w',
    SetRPM unrep_amd64 unrep_uint32_amd64 checkSpeedRef nat openOk xferTurning closeOk testMotor
      (of_Z 250) testExtra world0 = (Ret r, w') /\
    w_bus w' = w_bus world0 ++
      [writeFrame (shiftAddr testMotor rampMode)
         (if ltb (of_Z 250) zero then modeVelNeg else modeVelPos)] ++
      applyFrames testMotor (overridden unrep_uint32_amd64 testMotor testExtra) ++
      [writeFrame (shiftAddr testMotor vMax) (Motor_rpmToV unrep_amd64 testMotor (Abs (of_Z 250)))].
Proof.
  apply (SetRPM_nine_writes unrep_amd64 unrep_uint32_amd64 checkSpeedRef nat openOk xferTurning
           closeOk testMotor (of_Z 250) testExtra world0 openOk_opens testRamp_complete).
  reflexivity.
Defined.

(** X11: GoTo 4 revolutions with a motor at rest. *)
Lemma GoTo_writes_then_polls_witness :
  exists r w' polls,
    GoTo unrep_amd64 unrep_uint32_amd64 checkSpeedRef nat openOk xferStopped closeOk ctxAlive ctxError
      3 testMotor (of_Z 250) (of_Z 4) None world0 = (r, w') /\
    w_bus w' = w_bus world0 ++
      [writeFrame (shiftAddr testMotor rampMode) modePosition] ++
      applyFrames testMotor (overridden unrep_uint32_amd64 testMotor None) ++
      [ writeFrame (shiftAddr testMotor vMax) (Motor_rpmToV unrep_amd64 testMotor (Abs (of_Z 250)));
        writeFrame (shiftAddr testMotor xTarget)
          (int32_of_float64 unrep_amd64 (mul (of_Z 4) (of_Z (stepsPerRev testMotor)))) ] ++
      polls /\
    Forall (eq (readFrame (shiftAddr testMotor rampStat))) polls.
Proof.
  apply (GoTo_writes_then_polls unrep_amd64 unrep_uint32_amd64 checkSpeedRef nat openOk xferStopped
           closeOk ctxAlive ctxError 3 testMotor (of_Z 250) (of_Z 4) None world0
           openOk_opens testRamp_complete).
  reflexivity.
Defined.

(** X12: -50 rpm for -6.6 rotations. *)
Lemma GoFor_both_negated_witness :
  GoFor unrep_amd64 unrep_uint32_amd64 checkSpeedRef nat openOk xferStopped closeOk ctxAlive ctxError
    3 testMotor (SFopp (of_Z 50)) (SFopp (lit 66 10)) None world0
  = GoFor unrep_amd64 unrep_uint32_amd64 checkSpeedRef nat openOk xferStopped closeOk ctxAlive ctxError
      3 testMotor (of_Z 50) (lit 66 10) None world0.
Proof.
  apply (GoFor_both_negated unrep_amd64 unrep_uint32_amd64 checkSpeedRef nat openOk xferStopped
           closeOk ctxAlive ctxError 3 testMotor (of_Z 50) (lit 66 10) None world0
           checkSpeedRef_even);
    reflexivity.
Defined.

(** X13: a jog at 125 rpm and at -125 rpm. *)
Lemma doJog_direction_witness :
  exists r1 w1 r2 w2 v,
    doJog unrep_amd64 checkSpeedRef nat openOk xferTurning closeOk testMotor (of_Z 125) world0
      = (Ret r1, w1) /\
    doJog unrep_amd64 checkSpeedRef nat openOk xferTurning closeOk testMotor
      (SFopp (of_Z 125)) world0 = (Ret r2, w2) /\
    w_bus w1 = w_bus world0 ++
      [writeFrame (shiftAddr testMotor rampMode) modeVelPos;
       writeFrame (shiftAddr testMotor vMax) v] /\
    w_bus w2 = w_bus world0 ++
      [writeFrame (shiftAddr testMotor rampMode) modeVelNeg;
       writeFrame (shiftAddr testMotor vMax) v].
Proof.
  apply (doJog_direction unrep_amd64 checkSpeedRef nat openOk xferTurning closeOk testMotor
           (of_Z 125) world0 openOk_opens).
  reflexivity.
Defined.

(** X14: half power. *)
Lemma SetPower_records_power_witness :
  exists err w1,
    SetPower unrep_amd64 checkSpeedRef nat openOk xferTurning closeOk testMotor (lit 1 2) world0
      = (Ret (set_powerPct testMotor (lit 1 2), err), w1) /\
    w_bus w1 = w_bus world0 ++ jogFrames unrep_amd64 testMotor (mul (lit 1 2) (maxRPM testMotor)) /\
    (forall w2 on p e w3,
       IsPowered nat openOk xferTurning closeOk (set_powerPct testMotor (lit 1 2)) w2
         = (Ret (on, p, e), w3) -> p = lit 1 2).
Proof.
  apply (SetPower_records_power unrep_amd64 checkSpeedRef nat openOk xferTurning closeOk
           testMotor (lit 1 2) world0 openOk_opens).
Defined.

(** X15: homing with a context that is done. *)
Lemma goTillStop_context_done_witness :
  exists w',
    goTillStop unrep_amd64 checkSpeedRef nat openOk xferTurning closeOk ctxDone
      testMotor (of_Z (-125)) None world0 = (Ret (Some ErrCtxUpToSpeed), w') /\
    w_bus w' = w_bus world0 ++
      jogFrames unrep_amd64 testMotor (of_Z (-125)) ++ cleanupFrames unrep_amd64 testMotor.
Proof.
  apply (goTillStop_context_done unrep_amd64 checkSpeedRef nat openOk xferTurning closeOk
           ctxDone testMotor (of_Z (-125)) None world0
           (mkWorld 2%nat [[160; 0; 0; 0; 2]; [167; 0; 2; 17; 149]])
           openOk_opens ctxDone_done).
  vm_compute. reflexivity.
Defined.




(** X19: a jog whose rpm is the integer 70. *)
Lemma DoCommand_refusals_witness :
  DoCommand unrep_amd64 checkSpeedRef nat openOk xferTurning closeOk ctxAlive 1 testMotor
    [("command"%string, IString "jog"); ("rpm"%string, IValue (VInt 70))] world0
  = (Ret (None, Some ErrRPMNotFloat), world0).
Proof.
  apply (proj1 (proj2 (proj2 (proj2 (DoCommand_refusals unrep_amd64 checkSpeedRef nat openOk
           xferTurning closeOk ctxAlive 1 testMotor
           [("command"%string, IString "jog"); ("rpm"%string, IValue (VInt 70))] world0))
           eq_refl)) (IValue (VInt 70)) eq_refl).
  intros x H. discriminate H.
Defined.

(** X20: -1000 rpm with a maximum of 500. *)
Lemma rpmToV_never_exceeds_max_witness :
  0 <= rpmToV unrep_amd64 (Abs (of_Z (-1000))) (of_Z 500) (of_Z baseClk) (200 * uSteps)
    <= rpmToV unrep_amd64 (of_Z 500) (of_Z 500) (of_Z baseClk) (200 * uSteps) /\
  rpmToV unrep_amd64 (of_Z 500) (of_Z 500) (of_Z baseClk) (200 * uSteps) = 542293.
Proof.
  apply (rpmToV_never_exceeds_max unrep_amd64 (of_Z (-1000)) (of_Z 500) (of_Z baseClk)
           (200 * uSteps) 542293);
    try reflexivity; unfold uSteps; lia.
Defined.

(** X21: 250 and 500 rpm/s. *)
Lemma rpmsToA_monotone_witness :
  0 <= rpmsToA unrep_amd64 (of_Z 250) (of_Z baseClk) (200 * uSteps)
    <= rpmsToA unrep_amd64 (of_Z 500) (of_Z baseClk) (200 * uSteps).
Proof.
  apply (rpmsToA_monotone unrep_amd64 (of_Z 250) (of_Z 500) (of_Z baseClk)
           (200 * uSteps) 5384);
    try reflexivity; unfold uSteps; lia.
Defined.

(** X22: the configuration of the tests is accepted, with no
    dependencies. *)
Lemma Validate_accepts_witness :
  Validate testConfig "motor1" = ([], [], None).
Proof.
  apply (proj1 (proj2 (Validate_accepts testConfig "motor1"))).
  reflexivity.
Defined.

(** X23: the configuration of the tests has the default currents. *)
Lemma withCurrents_fields_witness :
  RunCurrent (withCurrents testConfig) = 15 /\
  HoldCurrent (withCurrents testConfig) = 8 /\
  HoldDelay (withCurrents testConfig) = 6 /\
  0 <= RunCurrent (withCurrents testConfig) <= 31 /\
  0 <= HoldCurrent (withCurrents testConfig) <= 31 /\
  0 <= HoldDelay (withCurrents testConfig) <= 15 /\
  iCfg (withCurrents testConfig) =
    HoldDelay (withCurrents testConfig) * 65536 + RunCurrent (withCurrents testConfig) * 256 +
    HoldCurrent (withCurrents testConfig).
Proof.
  apply (withCurrents_fields testConfig); unfold is_int32; cbn; lia.
Defined.

(** X25: the set-up of the tests. *)
Lemma makeMotor_setup_witness :
  exists r w',
    @makeMotor unrep_amd64 nat openOk xferTurning closeOk unit unit boardOk pinOk pinSetOk
      testConfig "motor1" world0 = (Ret r, w') /\
    w_bus w' = w_bus world0 ++
      setupFrames unrep_amd64
        (motorOf unrep_amd64 (withHomeRPM (withDefaults testConfig)) "motor1")
        (normalized unrep_amd64 testConfig) /\
    complete (rampParams (motorOf unrep_amd64 (withHomeRPM (withDefaults testConfig)) "motor1")) /\
    (forall mo pin, r = (Some (mo, pin), None) ->
       mo = motorOf unrep_amd64 (withHomeRPM (withDefaults testConfig)) "motor1" /\
       (pin = None <-> EnablePinLow (Pins testConfig) = ""%string)).
Proof.
  apply (proj2 (makeMotor_setup unrep_amd64 nat openOk xferTurning closeOk unit unit
                  boardOk pinOk pinSetOk testConfig "motor1" world0 openOk_opens)).
  cbn. lia.
Defined.

(** X26: the motor of the tests. *)
Lemma validated_motor_witness :
  stepsPerRev (motorOf unrep_amd64 (withHomeRPM (withDefaults testConfig)) "motor1") =
    256 * TicksPerRotation testConfig.
Proof.
  apply (validated_motor unrep_amd64 testConfig "motor1" "motor1"); [reflexivity|cbn; lia].
Defined.

(** X27: the status of a motor at rest. *)
Lemma status_calls_witness :
  IsStopped nat openOk xferStopped closeOk testMotor world0
    = (Ret (Z.testbit 1024 10, None), mkWorld 2%nat [[53; 0; 0; 0; 0]; [53; 0; 0; 0; 0]]) /\
  AtVelocity nat openOk xferStopped closeOk testMotor world0
    = (Ret (Z.testbit 1024 8, None), mkWorld 2%nat [[53; 0; 0; 0; 0]; [53; 0; 0; 0; 0]]) /\
  IsMoving nat openOk xferStopped closeOk testMotor world0
    = (Ret (negb (Z.testbit 1024 10), None),
       mkWorld 2%nat [[53; 0; 0; 0; 0]; [53; 0; 0; 0; 0]]) /\
  IsPowered nat openOk xferStopped closeOk testMotor world0
    = (Ret (negb (Z.testbit 1024 10), powerPct testMotor, None),
       mkWorld 2%nat [[53; 0; 0; 0; 0]; [53; 0; 0; 0; 0]]).
Proof.
  apply (status_calls nat openOk xferStopped closeOk testMotor world0
           (mkWorld 2%nat [[53; 0; 0; 0; 0]; [53; 0; 0; 0; 0]]) 1024 None).
  reflexivity.
Defined.

(** X28: the ramp parameters of the SetRPM test with a max velocity. *)
Lemma v_max_override_is_not_applied_witness :
  SetRPM unrep_amd64 unrep_uint32_amd64 checkSpeedRef nat openOk xferStopped closeOk testMotor
    (of_Z 250) testExtraVMax world0
  = SetRPM unrep_amd64 unrep_uint32_amd64 checkSpeedRef nat openOk xferStopped closeOk testMotor
      (of_Z 250) testExtra world0 /\
  GoTo unrep_amd64 unrep_uint32_amd64 checkSpeedRef nat openOk xferStopped closeOk ctxAlive ctxError
    3 testMotor (of_Z 250) (of_Z 4) testExtraVMax world0
  = GoTo unrep_amd64 unrep_uint32_amd64 checkSpeedRef nat openOk xferStopped closeOk ctxAlive ctxError
      3 testMotor (of_Z 250) (of_Z 4) testExtra world0.
Proof.
  apply (v_max_override_is_not_applied unrep_amd64 unrep_uint32_amd64 checkSpeedRef nat openOk
           xferStopped closeOk ctxAlive ctxError 3 testMotor (of_Z 250) (of_Z 4)
           testExtraVMax testExtra
           (mkRamp (Some 0) (Some 10) (Some 1256) (Some 3000) (Some 2500) (Some 100000)
                   (Some 3500) (Some 3600))
           (mkRamp (Some 0) (Some 10) (Some 1256) (Some 3000) (Some 2500) None
                   (Some 3500) (Some 3600))
           world0);
    reflexivity.
Defined.
